(** * Sky Globe: solar-geometry engine and TTL cache

    A shallow embedding of [src/business/time_service.py] (class
    [TimeService]), [src/data/cache_manager.py] (class [CacheManager]) and
    the cache settings of [src/utils/config.py] (class [Config]).

    Conventions of the embedding:
    - a Python [float] is a real number ([R]); [math.sin], [math.cos],
      [math.tan], [math.asin], [math.acos], [math.radians] and
      [math.degrees] are the mathematical functions. Rounding error is not
      part of the model, except at the two places where it decides between
      a value and an exception: the sum handed to [math.asin] in
      [calculate_sun_position] and the cosine of the latitude in the divisor
      of [calculate_sunrise_sunset], each with an explicit error term. Where
      a double lies on the other side of a whole number than the real it
      stands for, [int] and [round] of the program give the neighbouring
      value; statements about truncated minutes and seconds leave a margin
      for that;
    - a Python [int] is an integer ([Z]); [//] is floor division ([Z.div]),
      [int(x)] truncates towards zero, [round(x, 2)] rounds to the nearest
      hundredth, ties to even;
    - a [datetime] is the record of its calendar fields, already in UTC;
    - an exception is an explicit alternative of the result type, and a
      [try ... except] is a match on it;
    - the cache store is a finite map from key strings to (value, timestamp)
      pairs, threaded through every operation together with the statistics
      counters; [time.time()] is an explicit argument. *)

From Stdlib Require Import ZArith QArith Reals Lra Lia List Bool.
From Stdlib Require Import Zfloor Ascii Sorting.Permutation.
From stdpp Require Import gmap strings pretty.
Import ListNotations.

(** ** Python numerics *)

Module Py.
Local Open Scope R_scope.

(** [math.radians] and [math.degrees]. *)
Definition radians (x : R) : R := x * PI / 180.
Definition degrees (x : R) : R := x * 180 / PI.

(** [x % m] on floats, for a positive modulus: the result lies in [[0, m)]. *)
Definition fmod (x m : R) : R := x - m * IZR (Zfloor (x / m)).

(** [int(x)]: truncation towards zero. *)
Definition trunc (x : R) : Z :=
  if Rle_dec 0 x then Zfloor x else Zceil x.

(** Round to the nearest integer, ties to the even neighbour. *)
Definition round_half_even (x : R) : Z :=
  let f := Zfloor x in
  if Rlt_dec (x - IZR f) (1 / 2) then f
  else if Rlt_dec (1 / 2) (x - IZR f) then (f + 1)%Z
  else if Z.even f then f else (f + 1)%Z.

(** [round(x, 2)]. *)
Definition round2 (x : R) : R := IZR (round_half_even (x * 100)) / 100.

(** [math.atan2 y x]. *)
Definition atan2 (y x : R) : R :=
  if Rlt_dec 0 x then atan (y / x)
  else if Rlt_dec x 0 then
    (if Rle_dec 0 y then atan (y / x) + PI else atan (y / x) - PI)
  else if Rlt_dec 0 y then PI / 2
  else if Rlt_dec y 0 then - (PI / 2)
  else 0.

(** Outcome of a block that may raise. *)
Inductive exn : Set := ValueError | ZeroDivisionError | OverflowError | KeyError.

Inductive result (A : Type) : Type :=
| Ok (a : A)
| Raise (e : exn).
Arguments Ok {A} a.
Arguments Raise {A} e.

Definition bind {A B : Type} (r : result A) (k : A -> result B) : result B :=
  match r with
  | Ok a => k a
  | Raise e => Raise e
  end.

(** [x / y] on floats raises on a zero divisor. *)
Definition fdiv (x y : R) : result R :=
  if Req_dec_T y 0 then Raise ZeroDivisionError else Ok (x / y).

(** [math.asin] and [math.acos] raise outside [[-1, 1]]. *)
Definition in_unit (x : R) : bool :=
  if Rle_dec (-1) x then (if Rle_dec x 1 then true else false) else false.

Definition masin (x : R) : result R :=
  if in_unit x then Ok (asin x) else Raise ValueError.

Definition macos (x : R) : result R :=
  if in_unit x then Ok (acos x) else Raise ValueError.

End Py.

Declare Scope py_scope.
Delimit Scope py_scope with py.
Notation "'do' x <- c ; k" := (Py.bind c (fun x => k))
  (at level 10, x name, c at level 100, k at level 200) : py_scope.

(** ** The astronomy engine ([TimeService]) *)

Module TimeService.
Import Py.
Local Open Scope R_scope.

Record datetime : Set := mk_datetime {
  year : Z; month : Z; day : Z;
  hour : Z; minute : Z; second : Z; microsecond : Z
}.

(** A UTC instant given by its calendar fields, to the second. *)
Definition utc (y m d hh mm ss : Z) : datetime := mk_datetime y m d hh mm ss 0.

Definition EARTH_OBLIQUITY : R := 23.44.

(** [calculate_julian_day]: the month shift for January and February, the
    century term [b], then the day count and the fraction of the day. *)
Definition calculate_julian_day (dt : datetime) : R :=
  let shift := (month dt <=? 2)%Z in
  let y := if shift then (year dt - 1)%Z else year dt in
  let m := if shift then (month dt + 12)%Z else month dt in
  let a := (y / 100)%Z in
  let b := (2 - a + a / 4)%Z in
  let jd := 365.25 * IZR (y + 4716) + 30.6001 * IZR (m + 1)
            + IZR (day dt) + IZR b - 1524.5 in
  jd + (IZR (hour dt) + IZR (minute dt) / 60 + IZR (second dt) / 3600) / 24.

(** [calculate_solar_declination]; the argument of [math.asin] is at most
    [sin 23.44] degrees in magnitude, so that call cannot raise. *)
Definition calculate_solar_declination (julian_day : R) : R :=
  let n := julian_day - 2451545.0 in
  let L := fmod (280.460 + 0.9856474 * n) 360 in
  let g := radians (fmod (357.528 + 0.9856003 * n) 360) in
  let lambda_sun := radians (L + 1.915 * sin g + 0.020 * sin (2 * g)) in
  let declination := asin (sin (radians EARTH_OBLIQUITY) * sin lambda_sun) in
  degrees declination.

(** [calculate_hour_angle]. *)
Definition calculate_hour_angle (longitude julian_day : R) : R :=
  let gha := fmod (280.460618 + 360.98564736629 * (julian_day - 2451545.0)) 360 in
  let lha := fmod (gha + longitude) 360 in
  if Rlt_dec 180 lha then lha - 360 else lha.

(** The dictionary returned by [calculate_sun_position]; [sp_air_mass] is
    [None] when the sun is not above the horizon. *)
Record sun_position : Type := mk_sun_position {
  sp_elevation : R; sp_azimuth : R; sp_zenith : R;
  sp_declination : R; sp_hour_angle : R;
  sp_air_mass : option R; sp_is_daylight : bool; sp_julian_day : R
}.

(** The sum that [calculate_sun_position] hands to [math.asin], in exact
    arithmetic: the sine of the elevation. *)
Definition elevation_sine (latitude longitude : R) (dt : datetime) : R :=
  let lat_rad := radians latitude in
  let jd := calculate_julian_day dt in
  let declination := radians (calculate_solar_declination jd) in
  let hour_angle := radians (calculate_hour_angle longitude jd) in
  sin lat_rad * sin declination
  + cos lat_rad * cos declination * cos hour_angle.

(** The body of the [try] block of [calculate_sun_position]. The sum handed
    to [math.asin] is a double: the exact sum plus a rounding error [err].
    The exact sum never leaves [[-1, 1]]; with the sun at the zenith it is
    1, and the double sum can be the next double above 1, where [math.asin]
    raises [ValueError]. *)
Definition sun_position_try (err : R) (latitude longitude : R) (dt : datetime)
  : result sun_position :=
  (let lat_rad := radians latitude in
   let jd := calculate_julian_day dt in
   let declination := radians (calculate_solar_declination jd) in
   let hour_angle := radians (calculate_hour_angle longitude jd) in
   do elevation_rad <- masin (sin lat_rad * sin declination
                           + cos lat_rad * cos declination * cos hour_angle
                           + err) ;
   let elevation := degrees elevation_rad in
   let azimuth_rad :=
     atan2 (sin hour_angle)
           (cos hour_angle * sin lat_rad - tan declination * cos lat_rad) in
   let azimuth := fmod (degrees azimuth_rad + 180) 360 in
   let zenith := 90 - elevation in
   do air_mass <- (if Rlt_dec 0 elevation then
                  if Rlt_dec zenith 85
                  then (do q <- fdiv 1 (cos (radians zenith)) ; Ok (Some q))
                  else Ok (Some 38)
                else Ok None) ;
   Ok {| sp_elevation := round2 elevation;
         sp_azimuth := round2 azimuth;
         sp_zenith := round2 zenith;
         sp_declination := round2 (degrees declination);
         sp_hour_angle := round2 (degrees hour_angle);
         sp_air_mass := option_map round2 air_mass;
         sp_is_daylight := if Rlt_dec (-6) elevation then true else false;
         sp_julian_day := jd |})%py.

(** The dictionary of the [except] branch. *)
Definition sun_position_fallback : sun_position :=
  {| sp_elevation := 0; sp_azimuth := 0; sp_zenith := 90;
     sp_declination := 0; sp_hour_angle := 0;
     sp_air_mass := None; sp_is_daylight := false; sp_julian_day := 0 |}.

(** [calculate_sun_position]. [cached_result] is what
    [self.cache_manager.get('sun_position', ...)] returned. *)
Definition calculate_sun_position (cached_result : option sun_position)
    (err : R) (latitude longitude : R) (dt : datetime) : sun_position :=
  match cached_result with
  | Some r => r
  | None =>
      match sun_position_try err latitude longitude dt with
      | Ok r => r
      | Raise _ => sun_position_fallback
      end
  end.

(** [DayNightBoundary] of [data_models.py]. *)
Record DayNightBoundary : Type := mk_boundary {
  coordinates : list (R * R);
  calculated_at : datetime
}.

(** The inner [try] of the loop of [calculate_day_night_boundary]: the
    latitude of the terminator for one hour angle. *)
Definition boundary_latitude_try (declination hour_angle : R) : result R :=
  (do cos_lat <- fdiv (- tan declination) (tan hour_angle) ;
   if Rle_dec (Rabs cos_lat) 1 then
     do a <- macos (Rabs cos_lat) ;
     let latitude := degrees a in
     Ok (if Rlt_dec cos_lat 0 then - latitude else latitude)
   else
     Ok (if Rlt_dec 0 declination
         then 90 - Rabs (degrees declination)
         else -90 + Rabs (degrees declination)))%py.

(** The [except (ZeroDivisionError, ValueError)] branch. *)
Definition boundary_latitude_fallback (declination : R) : R :=
  if Rlt_dec (Rabs declination) (PI / 4) then 0
  else if Rlt_dec 0 declination then 90 else -90.

(** One iteration of the loop: the point appended for index [i]. *)
Definition boundary_point (declination jd : R) (num_points i : Z)
  : result (R * R) :=
  (do step <- fdiv (IZR (360 * i)) (IZR num_points) ;
   let longitude := -180 + step in
   let hour_angle := radians (calculate_hour_angle longitude jd) in
   match boundary_latitude_try declination hour_angle with
   | Ok latitude => Ok (longitude, latitude)
   | Raise ZeroDivisionError | Raise ValueError =>
       Ok (longitude, boundary_latitude_fallback declination)
   | Raise e => Raise e
   end)%py.

(** [range(n)]. *)
Definition range (n : Z) : list Z := map Z.of_nat (seq 0 (Z.to_nat n)).

(** The loop: [coordinates.append] for every index, stopping at a raise. *)
Fixpoint boundary_loop (declination jd : R) (num_points : Z) (idx : list Z)
  : result (list (R * R)) :=
  match idx with
  | [] => Ok []
  | i :: rest =>
      (do p <- boundary_point declination jd num_points i ;
       do ps <- boundary_loop declination jd num_points rest ;
       Ok (p :: ps))%py
  end.

(** [calculate_day_night_boundary]. [cached_result] is what
    [self.cache_manager.get('day_night_boundary', ...)] returned. *)
Definition calculate_day_night_boundary (cached_result : option DayNightBoundary)
    (dt : datetime) (num_points : Z) : DayNightBoundary :=
  match cached_result with
  | Some b => b
  | None =>
      let jd := calculate_julian_day dt in
      let declination := radians (calculate_solar_declination jd) in
      match boundary_loop declination jd num_points (range num_points) with
      | Ok coords => {| coordinates := coords; calculated_at := dt |}
      | Raise _ => {| coordinates := []; calculated_at := dt |}
      end
  end.

(** What the terminator claim asks of a boundary computed for [n] points:
    [n] pairs, the [i]-th at longitude [-180 + 360 i / n], every latitude
    between the poles. *)
Definition boundary_ok (n : Z) (b : DayNightBoundary) : Prop :=
  Z.of_nat (length (coordinates b)) = n /\
  forall i : Z, (0 <= i < n)%Z ->
    exists latitude : R,
      nth_error (coordinates b) (Z.to_nat i)
        = Some (-180 + IZR (360 * i) / IZR n, latitude)
      /\ -90 <= latitude <= 90.

(** The dictionary returned by [calculate_sunrise_sunset]; the key
    ['daylight_hours'] is present only in the concrete case. *)
Record sunrise_sunset : Type := mk_sunrise_sunset {
  sunrise : option datetime; sunset : option datetime;
  polar_day : bool; polar_night : bool;
  daylight_hours : option R
}.

(** [dt.replace(hour=h, minute=m, second=s, microsecond=0)]: the
    constructor checks the range of every field. *)
Definition replace_time (dt : datetime) (h m s : Z) : result datetime :=
  if ((0 <=? h) && (h <? 24) && (0 <=? m) && (m <? 60)
      && (0 <=? s) && (s <? 60))%Z
  then Ok {| year := year dt; month := month dt; day := day dt;
             hour := h; minute := m; second := s; microsecond := 0 |}
  else Raise ValueError.

(** The proleptic Gregorian calendar of [datetime]. *)
Definition is_leap (y : Z) : bool :=
  ((y mod 4 =? 0) && (negb (y mod 100 =? 0) || (y mod 400 =? 0)))%Z.

Definition days_in_month (y m : Z) : Z :=
  if (m =? 2)%Z then (if is_leap y then 29 else 28)%Z
  else if ((m =? 4) || (m =? 6) || (m =? 9) || (m =? 11))%Z then 30%Z
  else 31%Z.

Definition with_date (dt : datetime) (y m d : Z) : datetime :=
  {| year := y; month := m; day := d; hour := hour dt; minute := minute dt;
     second := second dt; microsecond := microsecond dt |}.

(** [dt + timedelta(days=1)]; years run from 1 to 9999. *)
Definition next_day (dt : datetime) : result datetime :=
  if (day dt <? days_in_month (year dt) (month dt))%Z
  then Ok (with_date dt (year dt) (month dt) (day dt + 1))
  else if (month dt <? 12)%Z then Ok (with_date dt (year dt) (month dt + 1) 1)
  else if (year dt <? 9999)%Z then Ok (with_date dt (year dt + 1) 1 1)
  else Raise OverflowError.

(** [dt - timedelta(days=1)]. *)
Definition prev_day (dt : datetime) : result datetime :=
  if (1 <? day dt)%Z
  then Ok (with_date dt (year dt) (month dt) (day dt - 1))
  else if (1 <? month dt)%Z
  then Ok (with_date dt (year dt) (month dt - 1)
                     (days_in_month (year dt) (month dt - 1)))
  else if (1 <? year dt)%Z then Ok (with_date dt (year dt - 1) 12 31)
  else Raise OverflowError.

(** The nested function [decimal_hour_to_datetime]. *)
Definition decimal_hour_to_datetime (decimal_hour : R) (base_date : datetime)
  : result datetime :=
  let hours := trunc decimal_hour in
  let minutes := trunc ((decimal_hour - IZR hours) * 60) in
  let seconds := trunc (((decimal_hour - IZR hours) * 60 - IZR minutes) * 60) in
  (if (hours >=? 24)%Z then
     do base <- next_day base_date ;
     replace_time base (hours - 24) minutes seconds
   else if (hours <? 0)%Z then
     do base <- prev_day base_date ;
     replace_time base (hours + 24) minutes seconds
   else replace_time base_date hours minutes seconds)%py.

(** The [cos_hour_angle] of [calculate_sunrise_sunset], in exact
    arithmetic. *)
Definition cos_hour_angle_of (latitude : R) (date : datetime) : result R :=
  (do noon_dt <- replace_time date 12 0 0 ;
   let jd := calculate_julian_day noon_dt in
   let declination := radians (calculate_solar_declination jd) in
   let lat_rad := radians latitude in
   fdiv (sin (radians (-0.833)) - sin lat_rad * sin declination)
        (cos lat_rad * cos declination))%py.

(** The body of the [try] block of [calculate_sunrise_sunset]. *)
Definition sunrise_sunset_try (latitude longitude : R) (date : datetime)
  : result sunrise_sunset :=
  (do cos_hour_angle <- cos_hour_angle_of latitude date ;
   if Rlt_dec 1 (Rabs cos_hour_angle) then
     if Rlt_dec cos_hour_angle (-1) then
       Ok {| sunrise := None; sunset := None; polar_day := true;
             polar_night := false; daylight_hours := None |}
     else
       Ok {| sunrise := None; sunset := None; polar_day := false;
             polar_night := true; daylight_hours := None |}
   else
     do a <- macos cos_hour_angle ;
     let hour_angle := degrees a in
     let solar_noon := 12 - longitude / 15 in
     let sunrise_hour := solar_noon - hour_angle / 15 in
     let sunset_hour := solar_noon + hour_angle / 15 in
     do midnight <- replace_time date 0 0 0 ;
     do sunrise_dt <- decimal_hour_to_datetime sunrise_hour midnight ;
     do midnight' <- replace_time date 0 0 0 ;
     do sunset_dt <- decimal_hour_to_datetime sunset_hour midnight' ;
     Ok {| sunrise := Some sunrise_dt; sunset := Some sunset_dt;
           polar_day := false; polar_night := false;
           daylight_hours := Some (round2 (sunset_hour - sunrise_hour)) |})%py.

(** The dictionary of the [except] branch: no times, both flags false. *)
Definition failure_state : sunrise_sunset :=
  {| sunrise := None; sunset := None; polar_day := false;
     polar_night := false; daylight_hours := None |}.

(** [calculate_sunrise_sunset]. *)
Definition calculate_sunrise_sunset (latitude longitude : R) (date : datetime)
  : sunrise_sunset :=
  match sunrise_sunset_try latitude longitude date with
  | Ok r => r
  | Raise _ => failure_state
  end.

(** The same computation with the rounding of [math.cos(lat_rad)] made
    explicit: the double cosine is the exact one plus [err]. At latitude 90
    or -90 the exact cosine is 0, which would make the division raise; the
    double one is 6.1e-17, so the program divides and gets a quotient far
    outside [[-1, 1]]. With [err = 0] the three definitions below are the
    three above. *)
Definition cos_hour_angle_rounded (err : R) (latitude : R) (date : datetime)
  : result R :=
  (do noon_dt <- replace_time date 12 0 0 ;
   let jd := calculate_julian_day noon_dt in
   let declination := radians (calculate_solar_declination jd) in
   let lat_rad := radians latitude in
   fdiv (sin (radians (-0.833)) - sin lat_rad * sin declination)
        ((cos lat_rad + err) * cos declination))%py.

Definition sunrise_sunset_try_rounded (err : R) (latitude longitude : R)
    (date : datetime) : result sunrise_sunset :=
  (do cos_hour_angle <- cos_hour_angle_rounded err latitude date ;
   if Rlt_dec 1 (Rabs cos_hour_angle) then
     if Rlt_dec cos_hour_angle (-1) then
       Ok {| sunrise := None; sunset := None; polar_day := true;
             polar_night := false; daylight_hours := None |}
     else
       Ok {| sunrise := None; sunset := None; polar_day := false;
             polar_night := true; daylight_hours := None |}
   else
     do a <- macos cos_hour_angle ;
     let hour_angle := degrees a in
     let solar_noon := 12 - longitude / 15 in
     let sunrise_hour := solar_noon - hour_angle / 15 in
     let sunset_hour := solar_noon + hour_angle / 15 in
     do midnight <- replace_time date 0 0 0 ;
     do sunrise_dt <- decimal_hour_to_datetime sunrise_hour midnight ;
     do midnight' <- replace_time date 0 0 0 ;
     do sunset_dt <- decimal_hour_to_datetime sunset_hour midnight' ;
     Ok {| sunrise := Some sunrise_dt; sunset := Some sunset_dt;
           polar_day := false; polar_night := false;
           daylight_hours := Some (round2 (sunset_hour - sunrise_hour)) |})%py.

Definition calculate_sunrise_sunset_rounded (err : R) (latitude longitude : R)
    (date : datetime) : sunrise_sunset :=
  match sunrise_sunset_try_rounded err latitude longitude date with
  | Ok r => r
  | Raise _ => failure_state
  end.

(** The states a caller can be handed. *)
Definition polar_day_state : sunrise_sunset :=
  {| sunrise := None; sunset := None; polar_day := true;
     polar_night := false; daylight_hours := None |}.

Definition polar_night_state : sunrise_sunset :=
  {| sunrise := None; sunset := None; polar_day := false;
     polar_night := true; daylight_hours := None |}.

Definition concrete_state (r : sunrise_sunset) : Prop :=
  exists (rise set : datetime) (hours : R),
    r = {| sunrise := Some rise; sunset := Some set; polar_day := false;
           polar_night := false; daylight_hours := Some hours |}.

(** [is_daylight]: the flag of the sun position. *)
Definition is_daylight (cached_result : option sun_position)
    (err : R) (latitude longitude : R) (dt : datetime) : bool :=
  sp_is_daylight
    (calculate_sun_position cached_result err latitude longitude dt).

(** [get_solar_noon]; nothing catches what [replace] or the [timedelta]
    arithmetic raises. *)
Definition get_solar_noon (longitude : R) (date : datetime) : result datetime :=
  let solar_noon_hour := 12 - longitude / 15 in
  let hours := (trunc solar_noon_hour mod 24)%Z in
  let minutes := trunc ((solar_noon_hour - IZR (trunc solar_noon_hour)) * 60) in
  (do solar_noon <- replace_time date hours minutes 0 ;
   if Rle_dec 24 solar_noon_hour then next_day solar_noon
   else if Rlt_dec solar_noon_hour 0 then prev_day solar_noon
   else Ok solar_noon)%py.

(** [dt.timetuple().tm_yday]: the days of the months before, and the day
    of the month. *)
Definition day_of_year (dt : datetime) : Z :=
  (fold_right Z.add 0
     (map (fun m => days_in_month (year dt) (m + 1)) (range (month dt - 1)))
   + day dt)%Z.

(** The dictionary returned by [get_season_info]. *)
Record season_info : Type := mk_season_info {
  northern_hemisphere : string; southern_hemisphere : string;
  solar_declination : R; si_day_of_year : Z; si_julian_day : R
}.

(** [get_season_info]. *)
Definition get_season_info (dt : datetime) : season_info :=
  let jd := calculate_julian_day dt in
  let declination := calculate_solar_declination jd in
  let doy := day_of_year dt in
  let seasons :=
    if ((doy <? 80) || (doy >? 355))%Z then ("Winter", "Summer")%string
    else if (doy <? 172)%Z then ("Spring", "Autumn")%string
    else if (doy <? 266)%Z then ("Summer", "Winter")%string
    else ("Autumn", "Spring")%string in
  {| northern_hemisphere := fst seasons; southern_hemisphere := snd seasons;
     solar_declination := round2 declination; si_day_of_year := doy;
     si_julian_day := jd |}.

(** A [datetime] the constructor accepts. *)
Definition valid_datetime (dt : datetime) : bool :=
  ((1 <=? year dt) && (year dt <=? 9999)
   && (1 <=? month dt) && (month dt <=? 12)
   && (1 <=? day dt) && (day dt <=? days_in_month (year dt) (month dt))
   && (0 <=? hour dt) && (hour dt <? 24)
   && (0 <=? minute dt) && (minute dt <? 60)
   && (0 <=? second dt) && (second dt <? 60)
   && (0 <=? microsecond dt) && (microsecond dt <? 1000000))%Z.

End TimeService.

(** ** A reference key codec

    MD5 as RFC 1321 defines it, and [json.dumps] on the argument values the
    callers of this repository pass besides floats and datetimes: [None],
    booleans, integers and ASCII strings. The theorems below hold for every
    codec; this one runs the model on concrete calls. *)

Module MD5.
Local Open Scope Z_scope.

(** The table of round constants and the rotation amounts of RFC 1321. *)
Definition K : list Z :=
  [0xd76aa478; 0xe8c7b756; 0x242070db; 0xc1bdceee; 0xf57c0faf; 0x4787c62a;
   0xa8304613; 0xfd469501; 0x698098d8; 0x8b44f7af; 0xffff5bb1; 0x895cd7be;
   0x6b901122; 0xfd987193; 0xa679438e; 0x49b40821; 0xf61e2562; 0xc040b340;
   0x265e5a51; 0xe9b6c7aa; 0xd62f105d; 0x02441453; 0xd8a1e681; 0xe7d3fbc8;
   0x21e1cde6; 0xc33707d6; 0xf4d50d87; 0x455a14ed; 0xa9e3e905; 0xfcefa3f8;
   0x676f02d9; 0x8d2a4c8a; 0xfffa3942; 0x8771f681; 0x6d9d6122; 0xfde5380c;
   0xa4beea44; 0x4bdecfa9; 0xf6bb4b60; 0xbebfbc70; 0x289b7ec6; 0xeaa127fa;
   0xd4ef3085; 0x04881d05; 0xd9d4d039; 0xe6db99e5; 0x1fa27cf8; 0xc4ac5665;
   0xf4292244; 0x432aff97; 0xab9423a7; 0xfc93a039; 0x655b59c3; 0x8f0ccc92;
   0xffeff47d; 0x85845dd1; 0x6fa87e4f; 0xfe2ce6e0; 0xa3014314; 0x4e0811a1;
   0xf7537e82; 0xbd3af235; 0x2ad7d2bb; 0xeb86d391].

Definition S : list Z :=
  [7; 12; 17; 22; 7; 12; 17; 22; 7; 12; 17; 22; 7; 12; 17; 22;
   5; 9; 14; 20; 5; 9; 14; 20; 5; 9; 14; 20; 5; 9; 14; 20;
   4; 11; 16; 23; 4; 11; 16; 23; 4; 11; 16; 23; 4; 11; 16; 23;
   6; 10; 15; 21; 6; 10; 15; 21; 6; 10; 15; 21; 6; 10; 15; 21].

Definition w32 (x : Z) : Z := x mod 2 ^ 32.
Definition not32 (x : Z) : Z := Z.lxor x 0xffffffff.
Definition rotl32 (x c : Z) : Z :=
  w32 (Z.lor (Z.shiftl x c) (Z.shiftr x (32 - c))).

Definition nthZ (l : list Z) (i : Z) : Z := nth (Z.to_nat i) l 0.

(** The bytes of the message. *)
Definition bytes_of (s : string) : list Z :=
  map (fun c => Z.of_nat (nat_of_ascii c)) (String.list_ascii_of_string s).

Definition le_bytes (n : nat) (x : Z) : list Z :=
  map (fun i => (x / 2 ^ (8 * Z.of_nat i)) mod 256) (seq 0 n).

(** Padding: a 0x80 byte, zeros up to 56 modulo 64, then the length of the
    message in bits as 8 little-endian bytes. *)
Definition pad (msg : list Z) : list Z :=
  let len := Z.of_nat (length msg) in
  let zeros := Z.to_nat ((55 - len) mod 64) in
  msg ++ [0x80] ++ repeat 0 zeros ++ le_bytes 8 ((8 * len) mod 2 ^ 64).

Fixpoint words (fuel : nat) (bs : list Z) : list Z :=
  match fuel, bs with
  | Datatypes.S f, b0 :: b1 :: b2 :: b3 :: rest =>
      (b0 + 256 * b1 + 65536 * b2 + 16777216 * b3) :: words f rest
  | _, _ => []
  end.

(** The four 32-bit registers, and one of the 64 steps on a 16-word block. *)
Definition state : Set := (Z * Z * Z * Z)%type.

Definition step (M : list Z) (st : state) (i : Z) : state :=
  let '(a, b, c, d) := st in
  let f :=
    if i <? 16 then Z.lor (Z.land b c) (Z.land (not32 b) d)
    else if i <? 32 then Z.lor (Z.land d b) (Z.land (not32 d) c)
    else if i <? 48 then Z.lxor b (Z.lxor c d)
    else Z.lxor c (Z.lor b (not32 d)) in
  let g :=
    if i <? 16 then i
    else if i <? 32 then (5 * i + 1) mod 16
    else if i <? 48 then (3 * i + 5) mod 16
    else (7 * i) mod 16 in
  let f' := w32 (f + a + nthZ K i + nthZ M g) in
  (d, w32 (b + rotl32 f' (nthZ S i)), b, c).

Definition chunk (st : state) (M : list Z) : state :=
  let '(a0, b0, c0, d0) := st in
  let '(a, b, c, d) :=
    fold_left (step M) (map Z.of_nat (seq 0 64)) st in
  (w32 (a0 + a), w32 (b0 + b), w32 (c0 + c), w32 (d0 + d)).

Fixpoint chunks (fuel : nat) (st : state) (ws : list Z) : state :=
  match fuel, ws with
  | Datatypes.S f, _ :: _ => chunks f (chunk st (firstn 16 ws)) (skipn 16 ws)
  | _, _ => st
  end.

(** [hashlib.md5(s).digest()], read as a big-endian integer. *)
Definition digest (s : string) : N :=
  let bs := pad (bytes_of s) in
  let ws := words (length bs) bs in
  let '(a, b, c, d) :=
    chunks (length ws) (0x67452301, 0xefcdab89, 0x98badcfe, 0x10325476) ws in
  Z.to_N (fold_left (fun acc byte => 256 * acc + byte)
            (le_bytes 4 a ++ le_bytes 4 b ++ le_bytes 4 c ++ le_bytes 4 d) 0).

End MD5.

(** One lower-case hexadecimal digit. *)
Definition hex_digit (n : N) : ascii :=
  match n with
  | 0 => "0" | 1 => "1" | 2 => "2" | 3 => "3" | 4 => "4" | 5 => "5"
  | 6 => "6" | 7 => "7" | 8 => "8" | 9 => "9" | 10 => "a" | 11 => "b"
  | 12 => "c" | 13 => "d" | 14 => "e" | _ => "f"
  end%N%char.

Fixpoint hex_digits (k : nat) (n : N) (acc : string) : string :=
  match k with
  | O => acc
  | Datatypes.S k' => hex_digits k' (n / 16)%N (String (hex_digit (n mod 16)%N) acc)
  end.

(** [.hexdigest()] of a 16-byte digest: always 32 characters. *)
Definition hexdigest (n : N) : string := hex_digits 32 n "".


Module Json.

(** The argument values covered by the reference codec. *)
Inductive pyarg : Set :=
| PNone
| PBool (b : bool)
| PInt (z : Z)
| PStr (s : string).

Definition quote_char : ascii := ascii_of_nat 34.
Definition backslash : ascii := ascii_of_nat 92.

(** The escape of one ASCII character ([ensure_ascii] is on). *)
Definition escape_char (c : ascii) : string :=
  let n := N_of_ascii c in
  if (n =? 34)%N then String backslash (String quote_char EmptyString)
  else if (n =? 92)%N then String backslash (String backslash EmptyString)
  else if (n =? 8)%N then String backslash "b"
  else if (n =? 9)%N then String backslash "t"
  else if (n =? 10)%N then String backslash "n"
  else if (n =? 12)%N then String backslash "f"
  else if (n =? 13)%N then String backslash "r"
  else if ((n <? 32) || (n =? 127))%N
  then String backslash (String "u" (hex_digits 4 n EmptyString))
  else String c EmptyString.

Fixpoint escape (s : string) : string :=
  match s with
  | EmptyString => EmptyString
  | String c rest => (escape_char c ++ escape rest)%string
  end.

Definition dumps_str (s : string) : string :=
  String quote_char (escape s ++ String quote_char EmptyString)%string.

Definition dumps (v : pyarg) : string :=
  match v with
  | PNone => "null"
  | PBool true => "true"
  | PBool false => "false"
  | PInt z => pretty z
  | PStr s => dumps_str s
  end.

Fixpoint join (sep : string) (l : list string) : string :=
  match l with
  | [] => EmptyString
  | [x] => x
  | x :: rest => (x ++ sep ++ join sep rest)%string
  end.

(** [json.dumps({'args': args, 'kwargs': items}, sort_keys=True)]. *)
Definition dumps_key_data (args : list pyarg) (items : list (string * pyarg))
  : string :=
  ("{" ++ dumps_str "args" ++ ": [" ++ join ", " (map dumps args) ++ "], "
   ++ dumps_str "kwargs" ++ ": ["
   ++ join ", " (map (fun kv => "[" ++ dumps_str (fst kv) ++ ", "
                                 ++ dumps (snd kv) ++ "]") items)
   ++ "]}")%string.

End Json.

(** ** The TTL cache ([CacheManager]) *)

Module CacheManager.
Import Py.

(** The two library calls of [_generate_key]: [json.dumps(key_data,
    sort_keys=True, default=str)] on the dictionary with the positional
    arguments and the sorted named arguments, and
    [hashlib.md5(s.encode()).digest()], read as a big-endian integer. *)
Class KeyCodec (arg : Type) : Type := {
  json_dumps : list arg -> list (string * arg) -> string;
  md5_digest : string -> N
}.

(** The reference codec. *)
#[export] Instance reference_codec : KeyCodec Json.pyarg := {|
  json_dumps := Json.dumps_key_data;
  md5_digest := MD5.digest
|}.

(** [self.stats]. *)
Record Stats : Set := mk_stats {
  hits : Z; misses : Z; sets : Z; evictions : Z
}.

(** The attributes of a [CacheManager]: [self.cache] maps a key to
    (value, timestamp), [self.ttl_config] a category to its TTL in seconds. *)
Record t (V : Type) : Type := mk {
  cache : gmap string (V * Q);
  ttl_config : gmap string Q;
  stats : Stats
}.
Arguments mk {V} _ _ _.
Arguments cache {V} _.
Arguments ttl_config {V} _.
Arguments stats {V} _.

(** [__init__]; the arguments are the readings of
    [config.get_cache_ttl('weather')] and [config.get_cache_ttl('geocoding')]. *)
Definition init {V : Type} (weather_ttl geocoding_ttl : Q) : t V :=
  mk ∅
     (<["weather"%string := weather_ttl]>
        (<["geocoding"%string := geocoding_ttl]>
           (<["cities"%string := 86400%Q]> (<["default"%string := 300%Q]> ∅))))
     (mk_stats 0 0 0 0).

Definition with_cache {V : Type} (self : t V) (c : gmap string (V * Q)) : t V :=
  mk c (ttl_config self) (stats self).

Definition with_stats {V : Type} (self : t V) (s : Stats) : t V :=
  mk (cache self) (ttl_config self) s.

Definition incr_hits (s : Stats) : Stats :=
  mk_stats (hits s + 1) (misses s) (sets s) (evictions s).
Definition incr_misses (s : Stats) : Stats :=
  mk_stats (hits s) (misses s + 1) (sets s) (evictions s).
Definition incr_sets (s : Stats) : Stats :=
  mk_stats (hits s) (misses s) (sets s + 1) (evictions s).
Definition add_evictions (n : Z) (s : Stats) : Stats :=
  mk_stats (hits s) (misses s) (sets s) (evictions s + n).

(** [sorted(kwargs.items())]: the named arguments, in the order of the call,
    sorted by name (the names of one call are distinct, so the values are
    never compared). *)
Fixpoint insert_item {arg : Type} (x : string * arg) (l : list (string * arg))
  : list (string * arg) :=
  match l with
  | [] => [x]
  | y :: l' => if String.leb (fst x) (fst y) then x :: l else y :: insert_item x l'
  end.

Definition sorted_items {arg : Type} (kwargs : list (string * arg))
  : list (string * arg) :=
  foldr insert_item [] kwargs.

(** [_generate_key]. *)
Definition _generate_key {arg : Type} `{KeyCodec arg}
    (prefix : string) (args : list arg) (kwargs : list (string * arg)) : string :=
  let key_string := json_dumps args (sorted_items kwargs) in
  let key_hash := hexdigest (md5_digest key_string) in
  (prefix ++ ":" ++ key_hash)%string.

(** [_is_expired]; [now] is the reading of [time.time()]. The default of
    the lookup is evaluated first, so a configuration without ['default']
    raises [KeyError]. *)
Definition _is_expired {V : Type} (self : t V) (now timestamp : Q)
    (cache_type : string) : result bool :=
  match ttl_config self !! "default"%string with
  | None => Raise KeyError
  | Some dflt =>
      let ttl := default dflt (ttl_config self !! cache_type) in
      Ok (if Qlt_le_dec ttl (now - timestamp) then true else false)
  end.

(** [get]: the returned option is the cached value or [None]. *)
Definition get {arg V : Type} `{KeyCodec arg} (self : t V) (now : Q)
    (cache_type : string) (args : list arg) (kwargs : list (string * arg))
  : result (option V * t V) :=
  let key := _generate_key cache_type args kwargs in
  match cache self !! key with
  | Some (data, timestamp) =>
      (do expired <- _is_expired self now timestamp cache_type ;
       if negb expired then
         Ok (Some data, with_stats self (incr_hits (stats self)))
       else
         let self1 := with_cache self (delete key (cache self)) in
         let self2 := with_stats self1 (add_evictions 1 (stats self1)) in
         Ok (None, with_stats self2 (incr_misses (stats self2))))%py
  | None => Ok (None, with_stats self (incr_misses (stats self)))
  end.

(** [set]. *)
Definition set {arg V : Type} `{KeyCodec arg} (self : t V) (now : Q)
    (cache_type : string) (value : V) (args : list arg)
    (kwargs : list (string * arg)) : t V :=
  let key := _generate_key cache_type args kwargs in
  let self1 := with_cache self (<[key := (value, now)]> (cache self)) in
  with_stats self1 (incr_sets (stats self1)).

(** [delete]. *)
Definition delete_entry {arg V : Type} `{KeyCodec arg} (self : t V)
    (cache_type : string) (args : list arg) (kwargs : list (string * arg))
  : bool * t V :=
  let key := _generate_key cache_type args kwargs in
  match cache self !! key with
  | Some _ => (true, with_cache self (delete key (cache self)))
  | None => (false, self)
  end.

(** [for key in keys: del self.cache[key]]. *)
Definition delete_all {V : Type} (keys : list string) (c : gmap string (V * Q))
  : gmap string (V * Q) :=
  foldl (fun m key => delete key m) c keys.

(** [key.startswith(prefix)]. *)
Definition startswith (key prefix : string) : bool := String.prefix prefix key.

(** [clear_by_type]. *)
Definition clear_by_type {V : Type} (self : t V) (cache_type : string)
  : Z * t V :=
  let prefix := (cache_type ++ ":")%string in
  let keys_to_delete :=
    List.filter (fun key => startswith key prefix)
                (map fst (map_to_list (cache self))) in
  (Z.of_nat (length keys_to_delete),
   with_cache self (delete_all keys_to_delete (cache self))).

(** The number of entries whose key is namespaced under a category. *)
Definition entries_under {V : Type} (c : gmap string (V * Q))
    (cache_type : string) : nat :=
  size (filter (fun kv => startswith (fst kv) (cache_type ++ ":") = true) c).

(** [':' in s]. *)
Fixpoint has_colon (s : string) : bool :=
  match s with
  | EmptyString => false
  | String c rest => Ascii.eqb c ":"%char || has_colon rest
  end.

(** [clear_all]. *)
Definition clear_all {V : Type} (self : t V) : Z * t V :=
  (Z.of_nat (size (cache self)),
   mk ∅ (ttl_config self) (mk_stats 0 0 0 0)).

(** [key.split(':', 1)[0]]. *)
Fixpoint before_colon (key : string) : string :=
  match key with
  | EmptyString => EmptyString
  | String c rest =>
      if Ascii.eqb c ":"%char then EmptyString else String c (before_colon rest)
  end.

(** The first loop of [cleanup_expired]: the keys found expired. [clock key]
    is the reading of [time.time()] when the entry of [key] is examined. *)
Fixpoint expired_among {V : Type} (self : t V) (clock : string -> Q)
    (items : list (string * (V * Q))) : result (list string) :=
  match items with
  | [] => Ok []
  | (key, (_, timestamp)) :: rest =>
      (do expired <- _is_expired self (clock key) timestamp (before_colon key) ;
       do keys <- expired_among self clock rest ;
       Ok (if expired then key :: keys else keys))%py
  end.

(** [cleanup_expired]. *)
Definition cleanup_expired {V : Type} (self : t V) (clock : string -> Q)
  : result (Z * t V) :=
  (do expired_keys <- expired_among self clock (map_to_list (cache self)) ;
   let self1 := with_cache self (delete_all expired_keys (cache self)) in
   let n := Z.of_nat (length expired_keys) in
   Ok (n, with_stats self1 (add_evictions n (stats self1))))%py.

(** The dictionary returned by [get_stats]. *)
Record stats_report : Type := mk_stats_report {
  total_entries : Z; total_requests : Z; cache_hits : Z; cache_misses : Z;
  hit_rate_percent : R; cache_sets : Z; report_evictions : Z;
  report_ttl_config : gmap string Q
}.

(** [get_stats]: the division is guarded by [total_requests > 0]. *)
Definition get_stats {V : Type} (self : t V) : stats_report :=
  let total := (hits (stats self) + misses (stats self))%Z in
  let hit_rate :=
    if (total >? 0)%Z
    then (IZR (hits (stats self)) / IZR total * 100)%R
    else 0%R in
  {| total_entries := Z.of_nat (size (cache self));
     total_requests := total;
     cache_hits := hits (stats self);
     cache_misses := misses (stats self);
     hit_rate_percent := round2 hit_rate;
     cache_sets := sets (stats self);
     report_evictions := evictions (stats self);
     report_ttl_config := ttl_config self |}.

(** The body of the loop of [get_size_info]. *)
Definition count_key (type_counts : gmap string Z) (key : string)
  : gmap string Z :=
  let cache_type := before_colon key in
  <[cache_type := (default 0 (type_counts !! cache_type) + 1)%Z]> type_counts.

(** [get_size_info]. *)
Definition get_size_info {V : Type} (self : t V) : gmap string Z :=
  foldl count_key ∅ (map fst (map_to_list (cache self))).

(** A call of a public method, with the readings of [time.time()] it makes. *)
Inductive op (arg V : Type) : Type :=
| OpGet (now : Q) (cache_type : string) (args : list arg)
        (kwargs : list (string * arg))
| OpSet (now : Q) (cache_type : string) (value : V) (args : list arg)
        (kwargs : list (string * arg))
| OpDelete (cache_type : string) (args : list arg)
           (kwargs : list (string * arg))
| OpClearByType (cache_type : string)
| OpClearAll
| OpCleanupExpired (clock : string -> Q).
Arguments OpGet {arg V} _ _ _ _.
Arguments OpSet {arg V} _ _ _ _ _.
Arguments OpDelete {arg V} _ _ _.
Arguments OpClearByType {arg V} _.
Arguments OpClearAll {arg V}.
Arguments OpCleanupExpired {arg V} _.

(** The manager after one call. *)
Definition run_op {arg V : Type} `{KeyCodec arg} (self : t V) (o : op arg V)
  : result (t V) :=
  match o with
  | OpGet now cache_type args kwargs =>
      (do r <- get self now cache_type args kwargs ; Ok (snd r))%py
  | OpSet now cache_type value args kwargs =>
      Ok (set self now cache_type value args kwargs)
  | OpDelete cache_type args kwargs =>
      Ok (snd (delete_entry self cache_type args kwargs))
  | OpClearByType cache_type => Ok (snd (clear_by_type self cache_type))
  | OpClearAll => Ok (snd (clear_all self))
  | OpCleanupExpired clock =>
      (do r <- cleanup_expired self clock ; Ok (snd r))%py
  end.

(** The manager after a sequence of calls, stopping at the first raise. *)
Fixpoint run_ops {arg V : Type} `{KeyCodec arg} (self : t V)
    (ops : list (op arg V)) : result (t V) :=
  match ops with
  | [] => Ok self
  | o :: rest => (do self1 <- run_op self o ; run_ops self1 rest)%py
  end.


End CacheManager.

(** ** The configuration ([Config] of [utils/config.py]) *)

Module Config.

(** A configuration value: a [bool], an [int] or a [str]. *)
Inductive value : Set :=
| VBool (b : bool)
| VInt (n : Z)
| VStr (s : string).

Definition ENVIRONMENTS : gmap string (gmap string value) :=
  <["development"%string :=
      <["debug"%string := VBool true]>
        (<["cache_ttl_weather"%string := VInt 60]>
           (<["cache_ttl_cities"%string := VInt 300]>
              (<["log_level"%string := VStr "DEBUG"]> ∅)))]>
    (<["production"%string :=
         <["debug"%string := VBool false]>
           (<["cache_ttl_weather"%string := VInt 1800]>
              (<["cache_ttl_cities"%string := VInt 3600]>
                 (<["log_level"%string := VStr "INFO"]> ∅)))]> ∅).

(** [_detect_environment]; [env] is the value of
    [os.getenv('ENVIRONMENT', 'development').lower()]. *)
Definition _detect_environment (env : string) : string :=
  match ENVIRONMENTS !! env with
  | Some _ => env
  | None => "development"%string
  end.

(** [self.config] as [__init__] sets it:
    [self.ENVIRONMENTS[self.environment]]. *)
Definition config_of (env : string) : Py.result (gmap string value) :=
  match ENVIRONMENTS !! _detect_environment env with
  | Some c => Py.Ok c
  | None => Py.Raise Py.KeyError
  end.

(** [get]. *)
Definition get (config : gmap string value) (key : string) (dflt : value)
  : value :=
  default dflt (config !! key).

(** [get_cache_ttl]. *)
Definition get_cache_ttl (config : gmap string value) (cache_type : string)
  : value :=
  get config ("cache_ttl_" ++ cache_type)%string (VInt 300).

End Config.

(** ** The astronomy engine with its cache manager *)

Module CachedTimeService.
Import Py TimeService.

(** The values the engine passes to the key derivation. *)
Inductive key_arg : Type :=
| KFloat (x : R)
| KInt (n : Z)
| KTime (dt : datetime).

(** The values the engine stores. *)
Inductive cached : Type :=
| CSun (r : sun_position)
| CBoundary (b : DayNightBoundary).

(** [dt.replace(second=0, microsecond=0)]. *)
Definition to_minute (dt : datetime) : datetime :=
  {| year := year dt; month := month dt; day := day dt; hour := hour dt;
     minute := minute dt; second := 0; microsecond := 0 |}.

(** [dt.replace(minute=dt.minute//10*10, second=0, microsecond=0)]. *)
Definition to_ten_minutes (dt : datetime) : result datetime :=
  let m := (minute dt / 10 * 10)%Z in
  if ((0 <=? m) && (m <? 60))%Z
  then Ok {| year := year dt; month := month dt; day := day dt;
             hour := hour dt; minute := m; second := 0; microsecond := 0 |}
  else Raise ValueError.

(** [calculate_sun_position] with the cache manager it reads and writes;
    [clock_get] and [clock_set] are the readings of [time.time()] inside
    [get] and [set], [err] the rounding error of the sum handed to
    [math.asin]. The result is the value found in the cache, or the
    dictionary computed (and stored) or the one of the [except] branch,
    which is not stored. *)
Definition calculate_sun_position `{CacheManager.KeyCodec key_arg}
    (self : CacheManager.t cached) (clock_get clock_set : Q)
    (err : R) (latitude longitude : R) (dt : datetime)
  : result (cached * CacheManager.t cached) :=
  let cache_key_data :=
    [KFloat latitude; KFloat longitude; KTime (to_minute dt)] in
  (do r <- CacheManager.get self clock_get "sun_position" cache_key_data [] ;
   match fst r with
   | Some cached_result => Ok (cached_result, snd r)
   | None =>
       match sun_position_try err latitude longitude dt with
       | Ok result =>
           Ok (CSun result,
               CacheManager.set (snd r) clock_set "sun_position"
                 (CSun result) cache_key_data [])
       | Raise _ => Ok (CSun sun_position_fallback, snd r)
       end
   end)%py.

(** [calculate_day_night_boundary] with the cache manager. *)
Definition calculate_day_night_boundary `{CacheManager.KeyCodec key_arg}
    (self : CacheManager.t cached) (clock_get clock_set : Q)
    (dt : datetime) (num_points : Z)
  : result (cached * CacheManager.t cached) :=
  (do cache_time <- to_ten_minutes dt ;
   let cache_key_data := [KTime cache_time; KInt num_points] in
   do r <- CacheManager.get self clock_get "day_night_boundary"
             cache_key_data [] ;
   match fst r with
   | Some cached_result => Ok (cached_result, snd r)
   | None =>
       let jd := calculate_julian_day dt in
       let declination := radians (calculate_solar_declination jd) in
       match boundary_loop declination jd num_points (range num_points) with
       | Ok coords =>
           let boundary := {| coordinates := coords; calculated_at := dt |} in
           Ok (CBoundary boundary,
               CacheManager.set (snd r) clock_set "day_night_boundary"
                 (CBoundary boundary) cache_key_data [])
       | Raise _ =>
           Ok (CBoundary {| coordinates := []; calculated_at := dt |}, snd r)
       end
   end)%py.

End CachedTimeService.

(** * The scenarios of the specification *)

Module Scenario.
Import CacheManager.

(** A manager with a weather TTL of 60 seconds. *)
Definition fresh : t nat := init 60 3600.

(** Five entries written at time [now] under one category, with the
    positional arguments 1 to 5. *)
Definition populate (self : t nat) (now : Q) (cache_type : string) : t nat :=
  foldl (fun s i => set s now cache_type (Z.to_nat i) [Json.PInt i] [])
        self [1; 2; 3; 4; 5]%Z.

(** Two categories with five entries each. *)
Definition two_categories : t nat :=
  populate (populate fresh 0 "weather") 0 "geocoding".

(** An entry written under a category whose name holds a colon. *)
Definition forecast_entry : t nat :=
  set fresh 0 "weather:forecast" 7%nat [Json.PStr "Tokyo"] [].

(** An entry written at time 1000 under the category of TTL 60. *)
Definition written_at_1000 : t nat :=
  set fresh 1000 "weather" 7%nat [Json.PStr "Tokyo"] [].

End Scenario.

(** * Facts about the Python numerics *)

Module PyFacts.
Import Py.
Local Open Scope R_scope.

(** Evaluate the integer arithmetic under [IZR]. *)
Ltac izr_compute :=
  repeat match goal with
  | |- context [IZR ?z] =>
      let z' := eval vm_compute in z in
      progress change (IZR z) with (IZR z')
  end.

Lemma degrees_radians (x : R) : degrees (radians x) = x.
Proof.
  unfold degrees, radians. field. apply PI_neq0.
Qed.

Lemma radians_degrees (x : R) : radians (degrees x) = x.
Proof.
  unfold degrees, radians. field. apply PI_neq0.
Qed.

Lemma degrees_le (x y : R) : x <= y -> degrees x <= degrees y.
Proof.
  intros H. unfold degrees.
  apply Rmult_le_compat_r; [left; apply Rinv_0_lt_compat, PI_RGT_0 | lra].
Qed.

Lemma radians_lt (x y : R) : x < y -> radians x < radians y.
Proof.
  intros H. unfold radians. pose proof PI_RGT_0. nra.
Qed.

Lemma radians_le (x y : R) : x <= y -> radians x <= radians y.
Proof.
  intros H. unfold radians. pose proof PI_RGT_0. nra.
Qed.

Lemma fmod_range (x m : R) : 0 < m -> 0 <= fmod x m < m.
Proof.
  intros Hm. unfold fmod.
  destruct (Zfloor_bound (x / m)) as [Hlo Hhi].
  assert (Hx : x = m * (x / m)) by (field; lra).
  split.
  - assert (m * IZR (Zfloor (x / m)) <= m * (x / m)) by nra. lra.
  - assert (m * (x / m) < m * (IZR (Zfloor (x / m)) + 1)) by nra. lra.
Qed.


Lemma fmod_eq (x m : R) (k : Z) :
  0 < m -> m * IZR k <= x < m * (IZR k + 1) -> fmod x m = x - m * IZR k.
Proof.
  intros Hm [Hlo Hhi]. unfold fmod.
  assert (Hf : Zfloor (x / m) = k).
  { apply Zfloor_eq. split.
    - apply (Rmult_le_reg_r m); [lra |].
      unfold Rdiv. rewrite Rmult_assoc, Rinv_l by lra. lra.
    - apply (Rmult_lt_reg_r m); [lra |].
      unfold Rdiv. rewrite Rmult_assoc, Rinv_l by lra. lra. }
  now rewrite Hf.
Qed.


(** [int(x)] at a value between two integers. *)
Lemma trunc_nonneg (x : R) (z : Z) :
  0 <= x -> IZR z <= x < IZR z + 1 -> trunc x = z.
Proof.
  intros H0 Hz. unfold trunc. destruct (Rle_dec 0 x); [| lra].
  now apply Zfloor_eq.
Qed.

Lemma trunc_neg (x : R) (z : Z) :
  x < 0 -> IZR z - 1 < x <= IZR z -> trunc x = z.
Proof.
  intros H0 Hz. unfold trunc. destruct (Rle_dec 0 x); [lra |].
  now apply Zceil_eq.
Qed.

Lemma trunc_IZR (z : Z) : trunc (IZR z) = z.
Proof.
  unfold trunc. destruct (Rle_dec 0 (IZR z)).
  - apply ZfloorZ.
  - apply Zceil_eq. lra.
Qed.

(** Truncation keeps the sign: a negative argument never truncates to a
    positive integer, and the part cut off has the sign of the argument. *)
Lemma trunc_neg_bounds (x : R) :
  x < 0 -> x <= IZR (trunc x) < x + 1 /\ (trunc x <= 0)%Z.
Proof.
  intros Hx. unfold trunc. destruct (Rle_dec 0 x); [lra |].
  pose proof (Zceil_bound x) as [H1 H2]. split; [lra |].
  apply le_IZR. simpl.
  destruct (Z_le_gt_dec (Zceil x) 0) as [Hle | Hgt]; [now apply IZR_le |].
  assert (1 <= IZR (Zceil x)) by (apply IZR_le; lia). lra.
Qed.

Lemma trunc_nonneg_bounds (x : R) :
  0 <= x -> IZR (trunc x) <= x < IZR (trunc x) + 1 /\ (0 <= trunc x)%Z.
Proof.
  intros Hx. unfold trunc. destruct (Rle_dec 0 x); [| lra].
  pose proof (Zfloor_bound x) as [H1 H2]. split; [lra |].
  apply Zfloor_lub. simpl. lra.
Qed.

(** Rounding to the nearest integer does not cross an integer. *)
Lemma round_half_even_le (x : R) (k : Z) :
  x <= IZR k -> (round_half_even x <= k)%Z.
Proof.
  intros Hx. unfold round_half_even.
  destruct (Zfloor_bound x) as [Hlo Hhi].
  assert (Hfk : (Zfloor x <= k)%Z).
  { apply le_IZR. lra. }
  destruct (Z.eq_dec (Zfloor x) k) as [Heq | Hne].
  - rewrite Heq in *.
    destruct (Rlt_dec (x - IZR k) (1 / 2)); [lia | lra].
  - repeat match goal with |- context [Rlt_dec ?a ?b] => destruct (Rlt_dec a b) end;
      try destruct (Z.even (Zfloor x)); lia.
Qed.

Lemma round_half_even_ge (x : R) (k : Z) :
  IZR k <= x -> (k <= round_half_even x)%Z.
Proof.
  intros Hx. unfold round_half_even.
  assert (Hfk : (k <= Zfloor x)%Z) by now apply Zfloor_lub.
  repeat match goal with |- context [Rlt_dec ?a ?b] => destruct (Rlt_dec a b) end;
    try destruct (Z.even (Zfloor x)); lia.
Qed.

Lemma round2_le (x : R) (k : Z) : x <= IZR k -> round2 x <= IZR k.
Proof.
  intros Hx. unfold round2.
  assert (H : (round_half_even (x * 100) <= k * 100)%Z).
  { apply round_half_even_le. rewrite mult_IZR. simpl. lra. }
  apply IZR_le in H. rewrite mult_IZR in H. simpl in H. lra.
Qed.

Lemma round2_ge (x : R) (k : Z) : IZR k <= x -> IZR k <= round2 x.
Proof.
  intros Hx. unfold round2.
  assert (H : (k * 100 <= round_half_even (x * 100))%Z).
  { apply round_half_even_ge. rewrite mult_IZR. simpl. lra. }
  apply IZR_le in H. rewrite mult_IZR in H. simpl in H. lra.
Qed.

(** [round_half_even] at a value closer to [k] than to its neighbours. *)
Lemma round_half_even_near (x : R) (k : Z) :
  IZR k - 1 / 2 < x < IZR k + 1 / 2 -> round_half_even x = k.
Proof.
  intros [Hlo Hhi]. unfold round_half_even.
  destruct (Rle_dec (IZR k) x) as [Hge | Hlt].
  - assert (Hf : Zfloor x = k) by (apply Zfloor_eq; lra).
    rewrite Hf. destruct (Rlt_dec (x - IZR k) (1 / 2)); [reflexivity | lra].
  - assert (Hf : Zfloor x = (k - 1)%Z).
    { apply Zfloor_eq. rewrite minus_IZR. simpl. lra. }
    rewrite Hf, minus_IZR. simpl.
    destruct (Rlt_dec (x - (IZR k - 1)) (1 / 2)); [lra |].
    destruct (Rlt_dec (1 / 2) (x - (IZR k - 1))); [lia | lra].
Qed.

Lemma Rabs_le_bounds (x b : R) : Rabs x <= b -> - b <= x <= b.
Proof.
  unfold Rabs. destruct (Rcase_abs x); lra.
Qed.

Lemma in_unit_true (x : R) : -1 <= x <= 1 -> in_unit x = true.
Proof.
  intros [H1 H2]. unfold in_unit.
  destruct (Rle_dec (-1) x); [| lra]. destruct (Rle_dec x 1); [reflexivity | lra].
Qed.

Lemma in_unit_spec (x : R) : in_unit x = true -> -1 <= x <= 1.
Proof.
  unfold in_unit. destruct (Rle_dec (-1) x); [| discriminate].
  destruct (Rle_dec x 1); [lra | discriminate].
Qed.

(** [asin] is monotone on its domain. *)
Lemma asin_le (x y : R) : -1 <= x -> x <= y -> y <= 1 -> asin x <= asin y.
Proof.
  intros Hx Hxy Hy.
  destruct (Rle_dec (asin x) (asin y)) as [H | H]; [exact H | exfalso].
  apply Rnot_le_lt in H.
  pose proof (asin_bound x) as [Hx1 Hx2].
  pose proof (asin_bound y) as [Hy1 Hy2].
  pose proof (sin_increasing_1 (asin y) (asin x) Hy1 Hy2 Hx1 Hx2 H) as Hs.
  rewrite !sin_asin in Hs by lra. lra.
Qed.

Lemma asin_lt (x y : R) : -1 <= x -> x < y -> y <= 1 -> asin x < asin y.
Proof.
  intros Hx Hxy Hy.
  destruct (Rlt_dec (asin x) (asin y)) as [H | H]; [exact H | exfalso].
  apply Rnot_lt_le in H.
  pose proof (asin_bound x) as [Hx1 Hx2].
  pose proof (asin_bound y) as [Hy1 Hy2].
  pose proof (sin_incr_1 (asin y) (asin x) Hy1 Hy2 Hx1 Hx2 H) as Hs.
  rewrite !sin_asin in Hs by lra. lra.
Qed.

(** [acos] of a non-negative argument is at most a right angle, of a
    non-positive one at least a right angle. *)
Lemma acos_nonneg_arg (x : R) : 0 <= x <= 1 -> 0 <= acos x <= PI / 2.
Proof.
  intros [H0 H1]. split; [apply acos_bound |].
  rewrite acos_asin by lra.
  pose proof (asin_le 0 x) as H. rewrite asin_0 in H.
  assert (0 <= asin x) by (apply H; lra). lra.
Qed.


End PyFacts.

(** * The astronomy engine *)

Module TimeServiceFacts.
Import Py PyFacts TimeService.
Local Open Scope R_scope.

(** Unfold [calculate_julian_day] at a literal instant. *)
Ltac julian_compute :=
  unfold calculate_julian_day, utc;
  cbn -[IZR Rplus Rmult Rminus Rdiv Ropp Rinv];
  izr_compute.

(** C1 (the code departs from the claim). [calculate_julian_day] leaves out
    the two integer parts of the Julian Day formula, so one day later is not
    one more: from 31 March 2023 to 1 April 2023 it advances by 0.6001, it
    goes backwards between 31 March 23:00 and 1 April 00:00, it advances by
    1.6489 from 28 February to 1 March 2023, and the epoch J2000.0
    (1 January 2000, 12:00), which the sibling functions take to be
    2451545.0, is mapped to 2451546.1514. *)
Theorem julian_day_step_is_not_one_day :
  calculate_julian_day (utc 2023 4 1 0 0 0)
    - calculate_julian_day (utc 2023 3 31 0 0 0) = 0.6001
  /\ calculate_julian_day (utc 2023 4 1 0 0 0)
     < calculate_julian_day (utc 2023 3 31 23 0 0)
  /\ calculate_julian_day (utc 2023 3 1 0 0 0)
     - calculate_julian_day (utc 2023 2 28 0 0 0) = 1.6489
  /\ calculate_julian_day (utc 2000 1 1 12 0 0) = 2451546.1514.
Proof.
  repeat split; julian_compute; lra.
Qed.

(** Inside a month the step is one day: the slip shows only where the
    month number changes. *)
Lemma julian_day_next_day_same_month (y m d hh mm ss : Z) :
  calculate_julian_day (utc y m (d + 1) hh mm ss)
    - calculate_julian_day (utc y m d hh mm ss) = 1.
Proof.
  unfold calculate_julian_day, utc.
  cbn -[IZR Rplus Rmult Rminus Rdiv Ropp Rinv Z.add Z.sub Z.div Z.leb].
  rewrite (plus_IZR d 1). lra.
Qed.

(** The declination is an [asin], hence between -90 and 90 degrees. *)
Lemma declination_radians (jd : R) :
  exists y : R,
    radians (calculate_solar_declination jd) = asin y
    /\ Rabs y <= sin (radians EARTH_OBLIQUITY).
Proof.
  unfold calculate_solar_declination. cbv zeta. rewrite radians_degrees.
  match goal with
  | |- exists y, asin (_ * sin ?l) = asin y /\ _ =>
      set (lam := l); exists (sin (radians EARTH_OBLIQUITY) * sin lam)
  end.
  split; [reflexivity |].
  assert (Hs : 0 <= sin (radians EARTH_OBLIQUITY)).
  { apply sin_ge_0; unfold radians, EARTH_OBLIQUITY; pose proof PI_RGT_0; lra. }
  rewrite Rabs_mult, (Rabs_pos_eq _ Hs).
  pose proof (SIN_bound lam) as [H1 H2].
  assert (Rabs (sin lam) <= 1) by (apply Rabs_le; lra).
  nra.
Qed.

Lemma declination_range (jd : R) :
  -90 <= calculate_solar_declination jd <= 90.
Proof.
  unfold calculate_solar_declination.
  set (y := _ * sin _).
  pose proof (asin_bound y) as [H1 H2].
  pose proof (degrees_le _ _ H1) as H3.
  pose proof (degrees_le _ _ H2) as H4.
  unfold degrees in *. pose proof PI_RGT_0 as Hpi.
  replace (- (PI / 2) * 180 / PI) with (-90) in H3 by (field; lra).
  replace (PI / 2 * 180 / PI) with 90 in H4 by (field; lra).
  lra.
Qed.

(** The inner [try] either yields a latitude between the poles or divides
    by zero. *)
Lemma boundary_latitude_try_cases (declination hour_angle : R) :
  -90 <= degrees declination <= 90 ->
  (exists latitude : R,
      boundary_latitude_try declination hour_angle = Ok latitude
      /\ -90 <= latitude <= 90)
  \/ boundary_latitude_try declination hour_angle = Raise ZeroDivisionError.
Proof.
  intros Hd. unfold boundary_latitude_try, fdiv.
  destruct (Req_dec_T (tan hour_angle) 0) as [Hz | Hnz]; [right; reflexivity |].
  left. cbn [bind].
  set (cos_lat := - tan declination / tan hour_angle).
  destruct (Rle_dec (Rabs cos_lat) 1) as [Hle | Hgt].
  - unfold macos. pose proof (Rabs_pos cos_lat) as Hpos.
    rewrite in_unit_true by lra. cbn [bind].
    pose proof (acos_nonneg_arg (Rabs cos_lat) (conj Hpos Hle)) as [Ha1 Ha2].
    pose proof (degrees_le _ _ Ha1) as Hb1.
    pose proof (degrees_le _ _ Ha2) as Hb2.
    assert (E0 : degrees 0 = 0) by (unfold degrees; field; apply PI_neq0).
    assert (E1 : degrees (PI / 2) = 90) by (unfold degrees; field; apply PI_neq0).
    rewrite E0 in Hb1. rewrite E1 in Hb2.
    eexists. split; [reflexivity |].
    destruct (Rlt_dec cos_lat 0); lra.
  - eexists. split; [reflexivity |].
    assert (Habs : 0 <= Rabs (degrees declination) <= 90).
    { split; [apply Rabs_pos | apply Rabs_le; lra]. }
    destruct (Rlt_dec 0 declination); lra.
Qed.

Lemma boundary_latitude_fallback_range (declination : R) :
  -90 <= boundary_latitude_fallback declination <= 90.
Proof.
  unfold boundary_latitude_fallback.
  repeat match goal with |- context [Rlt_dec ?a ?b] => destruct (Rlt_dec a b) end; lra.
Qed.

(** One iteration of the loop always appends a point. *)
Lemma boundary_point_ok (declination jd : R) (num_points i : Z) :
  -90 <= degrees declination <= 90 ->
  num_points <> 0%Z ->
  exists latitude : R,
    boundary_point declination jd num_points i
      = Ok (-180 + IZR (360 * i) / IZR num_points, latitude)
    /\ -90 <= latitude <= 90.
Proof.
  intros Hd Hn. unfold boundary_point, fdiv.
  destruct (Req_dec_T (IZR num_points) 0) as [Hz | Hnz].
  { exfalso. apply Hn. now apply eq_IZR. }
  cbn [bind].
  destruct (boundary_latitude_try_cases declination
              (radians (calculate_hour_angle
                          (-180 + IZR (360 * i) / IZR num_points) jd)) Hd)
    as [[lat [-> Hlat]] | ->].
  - exists lat. split; [reflexivity | exact Hlat].
  - eexists. split; [reflexivity | apply boundary_latitude_fallback_range].
Qed.

(** The loop over [s, s+1, ..., s+k-1]. *)
Lemma boundary_loop_ok (declination jd : R) (num_points : Z) (k s : nat) :
  -90 <= degrees declination <= 90 ->
  num_points <> 0%Z ->
  exists coords : list (R * R),
    boundary_loop declination jd num_points (map Z.of_nat (seq s k)) = Ok coords
    /\ length coords = k
    /\ forall j : nat, (j < k)%nat ->
         exists latitude : R,
           nth_error coords j
             = Some (-180 + IZR (360 * Z.of_nat (s + j)) / IZR num_points,
                     latitude)
           /\ -90 <= latitude <= 90.
Proof.
  intros Hd Hn. revert s. induction k as [| k IH]; intros s.
  - exists []. repeat split; intros; lia.
  - destruct (IH (S s)) as (coords & Hloop & Hlen & Hnth).
    destruct (boundary_point_ok declination jd num_points (Z.of_nat s) Hd Hn)
      as (lat & Hpt & Hlat).
    exists ((-180 + IZR (360 * Z.of_nat s) / IZR num_points, lat) :: coords).
    split; [| split].
    + cbn [seq map boundary_loop]. rewrite Hpt. cbn [bind].
      rewrite Hloop. reflexivity.
    + cbn [length]. now rewrite Hlen.
    + intros [| j] Hj.
      * exists lat. rewrite Nat.add_0_r. split; [reflexivity | exact Hlat].
      * destruct (Hnth j) as (lat' & Hj' & Hlat'); [lia |].
        exists lat'. replace (s + S j)%nat with (S s + j)%nat by lia.
        split; [exact Hj' | exact Hlat'].
Qed.

(** What follows from [boundary_ok]: the longitudes lie in [-180, 180) and
    increase strictly along the sequence, so the last point does not come
    back to the first. *)
Lemma boundary_ok_longitudes (n : Z) (b : DayNightBoundary) :
  boundary_ok n b ->
  (forall longitude latitude : R,
      In (longitude, latitude) (coordinates b) ->
      -180 <= longitude < 180 /\ -90 <= latitude <= 90)
  /\ (forall (i j : nat) (p q : R * R),
         (i < j)%nat ->
         nth_error (coordinates b) i = Some p ->
         nth_error (coordinates b) j = Some q ->
         fst p < fst q).
Proof.
  intros [Hlen Hpts].
  assert (Hlon : forall i : Z, (0 <= i < n)%Z ->
            -180 <= -180 + IZR (360 * i) / IZR n < 180).
  { intros i [Hi0 Hin].
    assert (Hn : 0 < IZR n) by (apply IZR_lt; lia).
    assert (H0 : 0 <= IZR i) by (apply IZR_le; lia).
    assert (H1 : IZR i < IZR n) by (apply IZR_lt; lia).
    rewrite mult_IZR.
    assert (Hq : 0 <= 360 * IZR i / IZR n < 360).
    { split.
      - apply Rmult_le_pos; [lra | left; now apply Rinv_0_lt_compat].
      - apply (Rmult_lt_reg_r (IZR n)); [exact Hn |].
        unfold Rdiv. rewrite Rmult_assoc, Rinv_l by lra. lra. }
    lra. }
  split.
  - intros lon lat Hin.
    apply In_nth_error in Hin as [i Hi].
    assert (Hlt : (i < length (coordinates b))%nat).
    { apply nth_error_Some. now rewrite Hi. }
    destruct (Hpts (Z.of_nat i)) as (lat' & Hi' & Hlat'); [lia |].
    rewrite Nat2Z.id, Hi in Hi'. injection Hi' as -> ->.
    split; [apply Hlon; lia | exact Hlat'].
  - intros i j p q Hij Hp Hq.
    assert (Hj : (j < length (coordinates b))%nat).
    { apply nth_error_Some. now rewrite Hq. }
    destruct (Hpts (Z.of_nat i)) as (lat1 & Hi1 & _); [lia |].
    destruct (Hpts (Z.of_nat j)) as (lat2 & Hj2 & _); [lia |].
    rewrite Nat2Z.id in Hi1, Hj2. rewrite Hp in Hi1. rewrite Hq in Hj2.
    injection Hi1 as ->. injection Hj2 as ->. cbn [fst].
    assert (Hn : 0 < IZR n) by (apply IZR_lt; lia).
    assert (H1 : IZR (360 * Z.of_nat i) < IZR (360 * Z.of_nat j)) by (apply IZR_lt; lia).
    assert (IZR (360 * Z.of_nat i) / IZR n < IZR (360 * Z.of_nat j) / IZR n).
    { apply Rmult_lt_compat_r; [now apply Rinv_0_lt_compat | exact H1]. }
    lra.
Qed.

(** C2. For a point count [n >= 0], [calculate_day_night_boundary] returns
    exactly [n] pairs, the [i]-th at longitude [-180 + 360 i / n], hence in
    [-180, 180), with a latitude in [-90, 90] in every branch (the solved
    latitude, the pole fallback and the division-error fallback); the
    longitudes increase strictly, so the sequence is open. A cached boundary
    is returned as it is, so the cache is assumed to hold only boundaries
    computed for the same point count. *)
Theorem day_night_boundary_points
    (cached_result : option DayNightBoundary) (dt : datetime) (n : Z) :
  (0 <= n)%Z ->
  (forall b : DayNightBoundary, cached_result = Some b -> boundary_ok n b) ->
  let b := calculate_day_night_boundary cached_result dt n in
  boundary_ok n b
  /\ (forall longitude latitude : R,
         In (longitude, latitude) (coordinates b) ->
         -180 <= longitude < 180 /\ -90 <= latitude <= 90)
  /\ (forall (i j : nat) (p q : R * R),
         (i < j)%nat ->
         nth_error (coordinates b) i = Some p ->
         nth_error (coordinates b) j = Some q ->
         fst p < fst q).
Proof.
  intros Hn Hcache b.
  assert (Hok : boundary_ok n b).
  { subst b. unfold calculate_day_night_boundary.
    destruct cached_result as [c |]; [now apply Hcache |].
    set (jd := calculate_julian_day dt).
    set (declination := radians (calculate_solar_declination jd)).
    assert (Hd : -90 <= degrees declination <= 90).
    { subst declination. rewrite degrees_radians. apply declination_range. }
    destruct (Z.eq_dec n 0%Z) as [-> | Hnz].
    - cbn. split; [reflexivity | intros i Hi; lia].
    - destruct (boundary_loop_ok declination jd n (Z.to_nat n) 0 Hd Hnz)
        as (coords & Hloop & Hlen & Hnth).
      unfold range. rewrite Hloop. split; cbn [coordinates].
      + rewrite Hlen. lia.
      + intros i Hi. destruct (Hnth (Z.to_nat i)) as (lat & Hi' & Hlat); [lia |].
        exists lat. rewrite Nat.add_0_l, Z2Nat.id in Hi' by lia.
        split; [exact Hi' | exact Hlat]. }
  split; [exact Hok | now apply (boundary_ok_longitudes n)].
Qed.

(** An instance: four points requested on 20 March 2024, nothing cached. *)
Lemma day_night_boundary_points_witness :
  let b := calculate_day_night_boundary None (utc 2024 3 20 12 0 0) 4 in
  boundary_ok 4 b
  /\ (forall longitude latitude : R,
         In (longitude, latitude) (coordinates b) ->
         -180 <= longitude < 180 /\ -90 <= latitude <= 90)
  /\ (forall (i j : nat) (p q : R * R),
         (i < j)%nat ->
         nth_error (coordinates b) i = Some p ->
         nth_error (coordinates b) j = Some q ->
         fst p < fst q).
Proof.
  apply (day_night_boundary_points None (utc 2024 3 20 12 0 0) 4).
  - lia.
  - intros b Hb. discriminate Hb.
Defined.


(** ** Sunrise and sunset *)

Lemma replace_time_ok (dt : datetime) (h m s : Z) :
  (0 <= h < 24)%Z -> (0 <= m < 60)%Z -> (0 <= s < 60)%Z ->
  replace_time dt h m s
    = Ok {| year := year dt; month := month dt; day := day dt;
            hour := h; minute := m; second := s; microsecond := 0 |}.
Proof.
  intros Hh Hm Hs. unfold replace_time.
  replace ((0 <=? h)%Z) with true by (symmetry; apply Z.leb_le; lia).
  replace ((h <? 24)%Z) with true by (symmetry; apply Z.ltb_lt; lia).
  replace ((0 <=? m)%Z) with true by (symmetry; apply Z.leb_le; lia).
  replace ((m <? 60)%Z) with true by (symmetry; apply Z.ltb_lt; lia).
  replace ((0 <=? s)%Z) with true by (symmetry; apply Z.leb_le; lia).
  replace ((s <? 60)%Z) with true by (symmetry; apply Z.ltb_lt; lia).
  reflexivity.
Qed.

Lemma replace_time_negative_minute (dt : datetime) (h m s : Z) :
  (m < 0)%Z -> replace_time dt h m s = Raise ValueError.
Proof.
  intros Hm. unfold replace_time.
  replace ((0 <=? m)%Z) with false by (symmetry; apply Z.leb_gt; lia).
  now rewrite !andb_false_r.
Qed.

Lemma replace_time_negative_second (dt : datetime) (h m s : Z) :
  (s < 0)%Z -> replace_time dt h m s = Raise ValueError.
Proof.
  intros Hs. unfold replace_time.
  replace ((0 <=? s)%Z) with false by (symmetry; apply Z.leb_gt; lia).
  now rewrite !andb_false_r.
Qed.

(** A negative decimal hour with at least one minute past the whole hour
    never becomes a datetime: [int] truncates towards zero, the minutes come
    out negative and the constructor refuses them. *)
Lemma decimal_hour_negative_raises (decimal_hour : R) (base_date : datetime) :
  decimal_hour < 0 ->
  (decimal_hour - IZR (trunc decimal_hour)) * 60 <= -1 ->
  exists e : exn, decimal_hour_to_datetime decimal_hour base_date = Raise e.
Proof.
  intros Hneg Hfrac. unfold decimal_hour_to_datetime.
  set (hours := trunc decimal_hour) in *.
  set (x := (decimal_hour - IZR hours) * 60) in *.
  assert (Hx : x < 0) by lra.
  destruct (trunc_neg_bounds x Hx) as [[_ Hup] _].
  assert (Hmin : (trunc x < 0)%Z).
  { apply lt_IZR. simpl. lra. }
  destruct (trunc_neg_bounds decimal_hour Hneg) as [_ Hh].
  fold hours in Hh.
  replace ((hours >=? 24)%Z) with false
    by (symmetry; rewrite Z.geb_leb; apply Z.leb_gt; lia).
  destruct (hours <? 0)%Z.
  - destruct (prev_day base_date) as [base | e]; cbn [bind].
    + exists ValueError. now apply replace_time_negative_minute.
    + now exists e.
  - exists ValueError. now apply replace_time_negative_minute.
Qed.

(** The declination in radians is strictly inside a quarter turn, so its
    cosine is positive. *)
Lemma sin_obliquity_bounds :
  0 <= sin (radians EARTH_OBLIQUITY) <= 0.521.
Proof.
  pose proof PI_RGT_0 as Hpi. pose proof PI_4 as Hpi4.
  assert (H0 : 0 < radians EARTH_OBLIQUITY).
  { unfold radians, EARTH_OBLIQUITY. lra. }
  assert (H1 : radians EARTH_OBLIQUITY <= 0.521).
  { unfold radians, EARTH_OBLIQUITY. lra. }
  split.
  - apply sin_ge_0; unfold radians, EARTH_OBLIQUITY in *; lra.
  - pose proof (sin_lt_x _ H0). lra.
Qed.

Lemma cos_declination_bound (jd : R) :
  0.85 <= cos (radians (calculate_solar_declination jd)).
Proof.
  destruct (declination_radians jd) as (y & -> & Hy).
  pose proof sin_obliquity_bounds as [Hs0 Hs1].
  assert (Hy1 : -0.521 <= y <= 0.521).
  { apply Rabs_le_bounds in Hy. lra. }
  rewrite cos_asin by lra.
  assert (Hsq : 0.85 * 0.85 <= 1 - y²).
  { unfold Rsqr. nra. }
  rewrite <- (sqrt_square 0.85) by lra.
  apply sqrt_le_1; [nra | nra | exact Hsq].
Qed.

Lemma sin_refraction_bounds :
  -0.02 <= sin (radians (-0.833)) < 0.
Proof.
  pose proof PI_RGT_0 as Hpi. pose proof PI_4 as Hpi4.
  replace (radians (-0.833)) with (- radians 0.833) by (unfold radians; lra).
  rewrite sin_neg.
  assert (H0 : 0 < radians 0.833) by (unfold radians; lra).
  assert (H1 : radians 0.833 <= 0.02) by (unfold radians; lra).
  pose proof (sin_lt_x _ H0).
  assert (0 < sin (radians 0.833)).
  { apply sin_gt_0; unfold radians in *; lra. }
  lra.
Qed.

Lemma replace_noon (date : datetime) :
  replace_time date 12 0 0
    = Ok {| year := year date; month := month date; day := day date;
            hour := 12; minute := 0; second := 0; microsecond := 0 |}.
Proof. reflexivity. Qed.

Lemma replace_midnight (date : datetime) :
  replace_time date 0 0 0
    = Ok {| year := year date; month := month date; day := day date;
            hour := 0; minute := 0; second := 0; microsecond := 0 |}.
Proof. reflexivity. Qed.

(** On the equator the sun rises and sets on every date: the cosine of the
    hour angle lies in [-1, 0). *)
Lemma equator_cos_hour_angle_value (date : datetime) :
  exists c : R,
    cos_hour_angle_of 0 date = Ok c
    /\ -0.0236 <= c /\ c <= - sin (radians 0.833).
Proof.
  unfold cos_hour_angle_of. rewrite replace_noon. cbn [bind].
  set (jd := calculate_julian_day _).
  pose proof (cos_declination_bound jd) as Hc.
  pose proof sin_refraction_bounds as [Hr0 Hr1].
  replace (radians 0) with 0 by (unfold radians; lra).
  rewrite sin_0, cos_0, Rmult_0_l, Rminus_0_r, Rmult_1_l.
  set (cd := cos (radians (calculate_solar_declination jd))) in *.
  unfold fdiv. destruct (Req_dec_T cd 0) as [Hz | Hnz]; [lra |].
  eexists. split; [reflexivity |].
  assert (Hinv : 0 < / cd) by (apply Rinv_0_lt_compat; lra).
  assert (Hinv1 : / cd <= / 0.85) by (apply Rinv_le_contravar; lra).
  replace (radians (-0.833)) with (- radians 0.833) in * by (unfold radians; lra).
  rewrite sin_neg in *.
  assert (Hcd1 : cd <= 1) by (subst cd; apply COS_bound).
  assert (Hinv2 : 1 <= / cd).
  { rewrite <- Rinv_1 at 1. apply Rinv_le_contravar; lra. }
  unfold Rdiv. split; [| nra].
  assert (/ 0.85 <= 1.18) by lra.
  nra.
Qed.

(** The sine of 15 degrees is at least a quarter. *)
Lemma sin_PI12_bound : 1 / 4 <= sin (PI / 12).
Proof.
  pose proof PI_RGT_0 as Hpi.
  assert (H6 : sin (PI / 6) = 1 / 2) by apply sin_PI6.
  replace (PI / 6) with (2 * (PI / 12)) in H6 by lra.
  rewrite sin_2a in H6.
  pose proof (COS_bound (PI / 12)) as [_ Hc].
  assert (Hs : 0 <= sin (PI / 12)) by (apply sin_ge_0; lra).
  nra.
Qed.

(** On the equator at longitude 135 East the sun rises between 20:00 and
    20:59 UTC of the previous day, on every date: the decimal hour of the
    sunrise lies in (-4, -3 - 1/60], and the call ends in the [except]
    branch. *)
Lemma equator_135E_sunrise_lost (date : datetime) :
  calculate_sunrise_sunset 0 135 date = failure_state.
Proof.
  destruct (equator_cos_hour_angle_value date) as (c & Hc & Hc1 & Hc2).
  pose proof PI_RGT_0 as Hpi. pose proof PI_4 as Hpi4.
  assert (Hsb : 0 < sin (radians 0.833) <= 1).
  { split; [| apply SIN_bound]. apply sin_gt_0; unfold radians; lra. }
  assert (Hlo : radians 0.25 <= asin (- c)).
  { rewrite <- (asin_sin (radians 0.25)) by (unfold radians; lra).
    apply asin_le; [| | lra].
    - pose proof (SIN_bound (radians 0.25)). lra.
    - apply Rle_trans with (sin (radians 0.833)); [| lra].
      apply sin_incr_1; unfold radians; lra. }
  assert (Hhi : asin (- c) < PI / 12).
  { rewrite <- (asin_sin (PI / 12)) by lra.
    pose proof sin_PI12_bound. pose proof (SIN_bound (PI / 12)).
    apply asin_lt; lra. }
  assert (Hacos : acos c = PI / 2 + asin (- c)).
  { rewrite acos_asin by lra. rewrite asin_opp. lra. }
  assert (Hdeg : 90.25 <= degrees (acos c) < 105).
  { rewrite Hacos. unfold degrees, radians in *.
    assert (Hinv : 0 < / PI) by now apply Rinv_0_lt_compat.
    replace ((PI / 2 + asin (- c)) * 180 / PI)
      with (90 + asin (- c) * 180 / PI) by (field; lra).
    split.
    - assert (0.25 * PI / 180 * 180 / PI <= asin (- c) * 180 / PI).
      { unfold Rdiv. apply Rmult_le_compat_r; [lra |]. lra. }
      replace (0.25 * PI / 180 * 180 / PI) with 0.25 in H by (field; lra).
      lra.
    - assert (asin (- c) * 180 / PI < PI / 12 * 180 / PI).
      { unfold Rdiv. apply Rmult_lt_compat_r; [lra |]. lra. }
      replace (PI / 12 * 180 / PI) with 15 in H by (field; lra).
      lra. }
  unfold calculate_sunrise_sunset, sunrise_sunset_try.
  rewrite Hc. cbn [bind].
  destruct (Rlt_dec 1 (Rabs c)) as [Habs | _].
  { exfalso. rewrite Rabs_left in Habs by lra. lra. }
  unfold macos. rewrite in_unit_true by lra. cbn [bind].
  rewrite replace_midnight. cbn [bind].
  set (midnight := {| year := year date |}).
  set (h := 12 - 135 / 15 - degrees (acos c) / 15).
  assert (Hh : -4 < h <= -3 - 1 / 60) by (subst h; lra).
  assert (Ht : trunc h = (-3)%Z) by (apply trunc_neg; simpl; lra).
  destruct (decimal_hour_negative_raises h midnight) as [e ->].
  - lra.
  - rewrite Ht. simpl. lra.
  - reflexivity.
Qed.

(** What the [try] block can return: a concrete triple or a polar state. *)
Lemma sunrise_sunset_try_shapes (latitude longitude : R) (date : datetime)
    (r : sunrise_sunset) :
  sunrise_sunset_try latitude longitude date = Ok r ->
  concrete_state r \/ r = polar_day_state \/ r = polar_night_state.
Proof.
  unfold sunrise_sunset_try.
  destruct (cos_hour_angle_of latitude date) as [c | e]; cbn [bind];
    [| discriminate].
  destruct (Rlt_dec 1 (Rabs c)).
  - destruct (Rlt_dec c (-1)); intros [= <-]; auto.
  - destruct (macos c) as [a | e]; cbn [bind]; [| discriminate].
    destruct (replace_time date 0 0 0) as [midnight | e]; cbn [bind];
      [| discriminate].
    destruct (decimal_hour_to_datetime _ midnight) as [rise | e]; cbn [bind];
      [| discriminate].
    destruct (decimal_hour_to_datetime _ midnight) as [set | e]; cbn [bind];
      [| discriminate].
    intros [= <-]. left. unfold concrete_state. eauto.
Qed.

(** The shapes of the dictionaries that [calculate_sunrise_sunset] can
    return, no two of which coincide: a concrete (sunrise, sunset,
    daylight-hours) triple with both polar flags false, polar day with no
    times, polar night with no times, and the dictionary of the [except]
    branch (no times, both flags false, no daylight-hours), which is the
    result when the computation raises. *)
Lemma sunrise_sunset_is_one_of_four_states
    (latitude longitude : R) (date : datetime) :
  let r := calculate_sunrise_sunset latitude longitude date in
  (concrete_state r \/ r = polar_day_state \/ r = polar_night_state
   \/ r = failure_state)
  /\ (r = failure_state <->
      exists e : exn, sunrise_sunset_try latitude longitude date = Raise e)
  /\ ~ concrete_state polar_day_state
  /\ ~ concrete_state polar_night_state
  /\ ~ concrete_state failure_state
  /\ polar_day_state <> polar_night_state
  /\ polar_day_state <> failure_state
  /\ polar_night_state <> failure_state.
Proof.
  cbv zeta. unfold calculate_sunrise_sunset.
  repeat split; try discriminate;
    try (intros (rise & set & hours & H); discriminate H).
  - destruct (sunrise_sunset_try latitude longitude date) as [r | e] eqn:Htry;
      [| tauto].
    destruct (sunrise_sunset_try_shapes _ _ _ _ Htry) as [H | [H | H]]; tauto.
  - destruct (sunrise_sunset_try latitude longitude date) as [r | e] eqn:Htry;
      [| eauto].
    intros ->.
    destruct (sunrise_sunset_try_shapes _ _ _ _ Htry)
      as [(rise & set & hours & H) | [H | H]]; discriminate H.
  - intros [e ->]. reflexivity.
Qed.

(** C4 (the code departs from the claim). On 20 March 2024, on the equator
    at longitude 135 East, the sun rises and sets (the cosine of the hour
    angle is within [-1, 1]), yet the result has no times and both polar
    flags are false: it is none of the three states of the claim, but the
    mixed state the claim rules out. The sunrise falls on the previous day,
    and the conversion of its negative decimal hour raises. *)
Theorem sunrise_sunset_mixed_state_at_equator :
  let r := calculate_sunrise_sunset 0 135 (utc 2024 3 20 0 0 0) in
  (exists c : R,
      cos_hour_angle_of 0 (utc 2024 3 20 0 0 0) = Ok c /\ -1 <= c <= 1)
  /\ sunrise r = None /\ sunset r = None
  /\ polar_day r = false /\ polar_night r = false
  /\ daylight_hours r = None
  /\ ~ concrete_state r /\ r <> polar_day_state /\ r <> polar_night_state.
Proof.
  cbv zeta. rewrite equator_135E_sunrise_lost. split.
  - destruct (equator_cos_hour_angle_value (utc 2024 3 20 0 0 0))
      as (c & Hc & Hc1 & Hc2).
    exists c. split; [exact Hc |].
    pose proof (SIN_bound (radians 0.833)).
    assert (0 < sin (radians 0.833)).
    { pose proof PI_RGT_0. pose proof PI_4.
      apply sin_gt_0; unfold radians; lra. }
    lra.
  - repeat split; try discriminate.
    intros (rise & set & hours & H). discriminate H.
Qed.

(** A decimal hour of 24 or more rolls over to the next day, and a whole
    negative hour to the previous day. *)
Lemma decimal_hour_rollover_forward :
  decimal_hour_to_datetime 25.5 (utc 2024 6 21 0 0 0)
    = Ok (utc 2024 6 22 1 30 0).
Proof.
  unfold decimal_hour_to_datetime.
  assert (H1 : trunc 25.5 = 25%Z) by (apply trunc_nonneg; simpl; lra).
  rewrite H1.
  assert (H2 : trunc ((25.5 - IZR 25) * 60) = 30%Z).
  { replace ((25.5 - IZR 25) * 60) with (IZR 30) by (simpl; lra).
    apply trunc_IZR. }
  rewrite H2.
  assert (H3 : trunc (((25.5 - IZR 25) * 60 - IZR 30) * 60) = 0%Z).
  { replace (((25.5 - IZR 25) * 60 - IZR 30) * 60) with (IZR 0) by (simpl; lra).
    apply trunc_IZR. }
  rewrite H3. reflexivity.
Qed.

Lemma decimal_hour_rollover_back_whole_hour :
  decimal_hour_to_datetime (-3) (utc 2024 6 21 0 0 0)
    = Ok (utc 2024 6 20 21 0 0).
Proof.
  unfold decimal_hour_to_datetime.
  assert (H1 : trunc (-3) = (-3)%Z) by apply (trunc_IZR (-3)).
  rewrite H1.
  assert (H2 : trunc ((-3 - IZR (-3)) * 60) = 0%Z).
  { replace ((-3 - IZR (-3)) * 60) with (IZR 0) by (simpl; lra).
    apply trunc_IZR. }
  rewrite H2.
  assert (H3 : trunc (((-3 - IZR (-3)) * 60 - IZR 0) * 60) = 0%Z).
  { replace (((-3 - IZR (-3)) * 60 - IZR 0) * 60) with (IZR 0) by (simpl; lra).
    apply trunc_IZR. }
  rewrite H3. reflexivity.
Qed.

(** C5 (the code departs from the claim). The rollover to the previous day
    is attempted but lost whenever the decimal hour is negative with a
    minute or more past the whole hour: [decimal_hour_to_datetime] raises
    at -3.5 (20:30 of the previous day) for every base date, although 25.5
    and -3 roll over as intended; and on 21 June 2024, on the equator at
    longitude 135 East, where the sun does rise and set (the cosine of the
    hour angle is within [-1, 1]), the call returns no sunrise and no
    sunset. *)
Theorem sunrise_on_previous_day_is_lost :
  (forall base_date : datetime,
      exists e : exn, decimal_hour_to_datetime (-3.5) base_date = Raise e)
  /\ decimal_hour_to_datetime 25.5 (utc 2024 6 21 0 0 0)
     = Ok (utc 2024 6 22 1 30 0)
  /\ decimal_hour_to_datetime (-3) (utc 2024 6 21 0 0 0)
     = Ok (utc 2024 6 20 21 0 0)
  /\ (exists c : R,
         cos_hour_angle_of 0 (utc 2024 6 21 0 0 0) = Ok c /\ -1 <= c <= 1)
  /\ sunrise (calculate_sunrise_sunset 0 135 (utc 2024 6 21 0 0 0)) = None
  /\ sunset (calculate_sunrise_sunset 0 135 (utc 2024 6 21 0 0 0)) = None.
Proof.
  split; [| split; [| split; [| split; [| split]]]].
  - intros base_date.
    assert (Ht : trunc (-3.5) = (-3)%Z) by (apply trunc_neg; simpl; lra).
    apply decimal_hour_negative_raises; [lra |].
    rewrite Ht. simpl. lra.
  - apply decimal_hour_rollover_forward.
  - apply decimal_hour_rollover_back_whole_hour.
  - destruct (equator_cos_hour_angle_value (utc 2024 6 21 0 0 0))
      as (c & Hc & Hc1 & Hc2).
    exists c. split; [exact Hc |].
    pose proof (SIN_bound (radians 0.833)).
    assert (0 < sin (radians 0.833)).
    { pose proof PI_RGT_0. pose proof PI_4.
      apply sin_gt_0; unfold radians; lra. }
    lra.
  - now rewrite equator_135E_sunrise_lost.
  - now rewrite equator_135E_sunrise_lost.
Qed.

(** ** Polar day and polar night *)

(** The sine of 45 degrees and of 22.5 degrees, bounded below. *)
Lemma sin_PI4_bounds : 0.7071 <= sin (PI / 4) <= 0.7072.
Proof.
  pose proof PI_RGT_0 as Hpi.
  pose proof (sin2_cos2 (PI / 4)) as H. rewrite <- sin_cos_PI4 in H.
  unfold Rsqr in H.
  assert (Hs : 0 <= sin (PI / 4)) by (apply sin_ge_0; lra).
  split; nra.
Qed.

Lemma sin_PI8_bound : 0.3826 <= sin (PI / 8).
Proof.
  pose proof PI_RGT_0 as Hpi.
  pose proof (cos_2a_sin (PI / 8)) as H.
  replace (2 * (PI / 8)) with (PI / 4) in H by lra.
  rewrite <- sin_cos_PI4 in H.
  pose proof sin_PI4_bounds as [_ H4].
  assert (Hs : 0 <= sin (PI / 8)) by (apply sin_ge_0; lra).
  nra.
Qed.

Lemma sin_middle (x : R) : PI / 4 <= x <= 3 * PI / 4 -> sin (PI / 4) <= sin x.
Proof.
  intros [H1 H2]. pose proof PI_RGT_0 as Hpi.
  destruct (Rle_dec x (PI / 2)).
  - apply sin_incr_1; lra.
  - rewrite <- (sin_PI_x x). apply sin_incr_1; lra.
Qed.

(** The declination as a function of the sun's mean longitude: at least
    0.2408 radians north while the mean longitude is within 43 degrees of
    90, and as far south while it is within 43 degrees of 270. *)
Lemma declination_north (jd : R) :
  47 <= fmod (280.460 + 0.9856474 * (jd - 2451545.0)) 360 <= 133 ->
  0.2408 <= radians (calculate_solar_declination jd).
Proof.
  intros HL. unfold calculate_solar_declination. cbv zeta.
  rewrite radians_degrees.
  set (L := fmod (280.460 + 0.9856474 * (jd - 2451545.0)) 360) in *.
  set (g := radians (fmod (357.528 + 0.9856003 * (jd - 2451545.0)) 360)).
  set (lam := radians (L + 1.915 * sin g + 0.020 * sin (2 * g))).
  pose proof PI_RGT_0 as Hpi. pose proof PI_4 as Hpi4.
  pose proof (SIN_bound g) as Hg. pose proof (SIN_bound (2 * g)) as Hg2.
  assert (Hlam : PI / 4 <= lam <= 3 * PI / 4).
  { subst lam. unfold radians. nra. }
  pose proof (sin_middle lam Hlam) as Hsl.
  pose proof sin_PI4_bounds as [H4 _]. pose proof sin_PI8_bound as H8.
  assert (He : sin (PI / 8) <= sin (radians EARTH_OBLIQUITY)).
  { apply sin_incr_1; unfold radians, EARTH_OBLIQUITY; lra. }
  pose proof sin_obliquity_bounds as [_ He1].
  pose proof (SIN_bound lam) as Hl1.
  set (y := sin (radians EARTH_OBLIQUITY) * sin lam).
  assert (Hy : 0.2408 <= y <= 1) by (subst y; nra).
  assert (H0 : 0 < 0.2408) by lra.
  pose proof (sin_lt_x _ H0) as Hsx.
  pose proof (SIN_bound 0.2408) as Hsb.
  pose proof PI2_3_2 as Hpi3.
  rewrite <- (asin_sin 0.2408) by lra.
  apply asin_le; lra.
Qed.

Lemma declination_south (jd : R) :
  227 <= fmod (280.460 + 0.9856474 * (jd - 2451545.0)) 360 <= 313 ->
  radians (calculate_solar_declination jd) <= -0.2408.
Proof.
  intros HL. unfold calculate_solar_declination. cbv zeta.
  rewrite radians_degrees.
  set (L := fmod (280.460 + 0.9856474 * (jd - 2451545.0)) 360) in *.
  set (g := radians (fmod (357.528 + 0.9856003 * (jd - 2451545.0)) 360)).
  set (lam := radians (L + 1.915 * sin g + 0.020 * sin (2 * g))).
  pose proof PI_RGT_0 as Hpi. pose proof PI_4 as Hpi4.
  pose proof (SIN_bound g) as Hg. pose proof (SIN_bound (2 * g)) as Hg2.
  assert (Hlam : PI / 4 <= lam - PI <= 3 * PI / 4).
  { subst lam. unfold radians. nra. }
  pose proof (sin_middle _ Hlam) as Hsl.
  assert (Hneg : sin lam = - sin (lam - PI)).
  { rewrite <- neg_sin. f_equal. lra. }
  pose proof sin_PI4_bounds as [H4 _]. pose proof sin_PI8_bound as H8.
  assert (He : sin (PI / 8) <= sin (radians EARTH_OBLIQUITY)).
  { apply sin_incr_1; unfold radians, EARTH_OBLIQUITY; lra. }
  pose proof sin_obliquity_bounds as [_ He1].
  pose proof (SIN_bound lam) as Hl1.
  set (y := sin (radians EARTH_OBLIQUITY) * sin lam).
  assert (Hy : -1 <= y <= -0.2408) by (subst y; nra).
  assert (H0 : 0 < 0.2408) by lra.
  pose proof (sin_lt_x _ H0) as Hsx.
  pose proof (SIN_bound 0.2408) as Hsb.
  pose proof PI2_3_2 as Hpi3.
  apply Rle_trans with (- asin (sin 0.2408)); [| rewrite asin_sin; lra].
  rewrite <- asin_opp.
  apply asin_le; lra.
Qed.

(** What [calculate_sunrise_sunset] returns once the cosine of the hour
    angle is known. *)
Lemma sunrise_sunset_polar (latitude longitude : R) (date : datetime) (c : R) :
  cos_hour_angle_of latitude date = Ok c ->
  (c < -1 -> calculate_sunrise_sunset latitude longitude date = polar_day_state)
  /\ (1 < c -> calculate_sunrise_sunset latitude longitude date = polar_night_state).
Proof.
  intros Hc. unfold calculate_sunrise_sunset, sunrise_sunset_try.
  rewrite Hc. cbn [bind]. split; intros H.
  - destruct (Rlt_dec 1 (Rabs c)) as [_ | Hn].
    + destruct (Rlt_dec c (-1)); [reflexivity | lra].
    + exfalso. apply Hn. rewrite Rabs_left by lra. lra.
  - destruct (Rlt_dec 1 (Rabs c)) as [_ | Hn].
    + destruct (Rlt_dec c (-1)); [lra | reflexivity].
    + exfalso. apply Hn. rewrite Rabs_right by lra. lra.
Qed.

Lemma cos_hour_angle_formula (latitude : R) (date : datetime) (c : R) :
  cos_hour_angle_of latitude date = Ok c ->
  let declination :=
    radians (calculate_solar_declination
               (calculate_julian_day
                  (utc (year date) (month date) (day date) 12 0 0))) in
  c = (sin (radians (-0.833)) - sin (radians latitude) * sin declination)
      / (cos (radians latitude) * cos declination).
Proof.
  unfold cos_hour_angle_of. rewrite replace_noon. cbn [bind]. unfold fdiv, utc.
  destruct (Req_dec_T _ 0); [discriminate |].
  now intros [= <-].
Qed.

(** At 80 degrees north the cosine of the hour angle is below -1 when the
    declination is at least 0.2408 radians north, above 1 when it is as far
    south. *)
Lemma cos_hour_angle_80N (date : datetime) :
  let declination :=
    radians (calculate_solar_declination
               (calculate_julian_day
                  (utc (year date) (month date) (day date) 12 0 0))) in
  exists c : R,
    cos_hour_angle_of 80 date = Ok c
    /\ (0.2408 <= declination -> c < -1)
    /\ (declination <= -0.2408 -> 1 < c).
Proof.
  cbv zeta. unfold cos_hour_angle_of. rewrite replace_noon. cbn [bind].
  fold (utc (year date) (month date) (day date) 12 0 0).
  set (jd := calculate_julian_day _).
  set (d := radians (calculate_solar_declination jd)).
  pose proof PI_RGT_0 as Hpi. pose proof PI_4 as Hpi4.
  pose proof PI2_3_2 as Hpi3.
  pose proof (cos_declination_bound jd) as Hcd. fold d in Hcd.
  pose proof sin_refraction_bounds as [Hr0 Hr1].
  set (p := radians 80).
  assert (Hp : p = 4 * PI / 9) by (subst p; unfold radians; lra).
  assert (Hcp : 0 < cos p) by (apply cos_gt_0; lra).
  assert (HD : 0 < cos p * cos d) by nra.
  assert (Hdr : - (PI / 2) <= d <= PI / 2).
  { subst d. destruct (declination_radians jd) as (y & -> & _).
    apply asin_bound. }
  unfold fdiv. destruct (Req_dec_T (cos p * cos d) 0) as [Hz | _]; [lra |].
  eexists. split; [reflexivity |].
  assert (Hinv : 0 < / (cos p * cos d)) by now apply Rinv_0_lt_compat.
  split; intros Hd.
  - assert (Hcos : cos (p + d) <= 0) by (apply cos_le_0; lra).
    rewrite cos_plus in Hcos.
    apply (Rmult_lt_reg_r (cos p * cos d)); [exact HD |].
    unfold Rdiv. rewrite Rmult_assoc, Rinv_l by lra. lra.
  - assert (Hcos : cos (p - d) < cos (PI / 2 + radians 0.833)).
    { apply cos_decreasing_1; unfold radians; lra. }
    rewrite cos_minus in Hcos.
    assert (Hs : cos (PI / 2 + radians 0.833) = sin (radians (-0.833))).
    { replace (radians (-0.833)) with (- radians 0.833) by (unfold radians; lra).
      rewrite sin_neg. rewrite (sin_cos (radians 0.833)). lra. }
    rewrite Hs in Hcos.
    apply (Rmult_lt_reg_r (cos p * cos d)); [exact HD |].
    unfold Rdiv. rewrite Rmult_assoc, Rinv_l by lra. lra.
Qed.

Lemma julian_day_june_solstice_2025 :
  calculate_julian_day (utc 2025 6 21 12 0 0) = 2460848.4507.
Proof. julian_compute. lra. Qed.

Lemma julian_day_december_solstice_2025 :
  calculate_julian_day (utc 2025 12 21 12 0 0) = 2461032.0513.
Proof. julian_compute. lra. Qed.

(** *** The poles *)

(** With no rounding error the computation with the explicit error term is
    the exact one. *)
Lemma sunrise_sunset_rounded_exact (latitude longitude : R) (date : datetime) :
  calculate_sunrise_sunset_rounded 0 latitude longitude date
  = calculate_sunrise_sunset latitude longitude date.
Proof.
  unfold calculate_sunrise_sunset_rounded, calculate_sunrise_sunset,
    sunrise_sunset_try_rounded, sunrise_sunset_try,
    cos_hour_angle_rounded, cos_hour_angle_of.
  now rewrite Rplus_0_r.
Qed.

Lemma sunrise_sunset_polar_rounded (err latitude longitude : R)
    (date : datetime) (c : R) :
  cos_hour_angle_rounded err latitude date = Ok c ->
  (c < -1 ->
   calculate_sunrise_sunset_rounded err latitude longitude date
   = polar_day_state)
  /\ (1 < c ->
      calculate_sunrise_sunset_rounded err latitude longitude date
      = polar_night_state).
Proof.
  intros Hc. unfold calculate_sunrise_sunset_rounded, sunrise_sunset_try_rounded.
  rewrite Hc. cbn [bind]. split; intros H.
  - destruct (Rlt_dec 1 (Rabs c)) as [_ | Hn].
    + destruct (Rlt_dec c (-1)); [reflexivity | lra].
    + exfalso. apply Hn. rewrite Rabs_left by lra. lra.
  - destruct (Rlt_dec 1 (Rabs c)) as [_ | Hn].
    + destruct (Rlt_dec c (-1)); [lra | reflexivity].
    + exfalso. apply Hn. rewrite Rabs_right by lra. lra.
Qed.

Lemma cos_hour_angle_rounded_formula (err latitude : R) (date : datetime)
    (c : R) :
  cos_hour_angle_rounded err latitude date = Ok c ->
  let declination :=
    radians (calculate_solar_declination
               (calculate_julian_day
                  (utc (year date) (month date) (day date) 12 0 0))) in
  c = (sin (radians (-0.833)) - sin (radians latitude) * sin declination)
      / ((cos (radians latitude) + err) * cos declination).
Proof.
  unfold cos_hour_angle_rounded. rewrite replace_noon. cbn [bind].
  unfold fdiv, utc.
  destruct (Req_dec_T _ 0); [discriminate |].
  now intros [= <-].
Qed.

(** The division raises only on a divisor that is exactly zero, that is,
    when the double cosine of the latitude is zero. *)
Lemma cos_hour_angle_rounded_total (err latitude : R) (date : datetime) :
  cos (radians latitude) + err <> 0 ->
  exists c : R, cos_hour_angle_rounded err latitude date = Ok c.
Proof.
  intros Hne. unfold cos_hour_angle_rounded. rewrite replace_noon.
  cbn [bind]. unfold fdiv.
  set (jd := calculate_julian_day _).
  pose proof (cos_declination_bound jd) as Hcd.
  destruct (Req_dec_T _ 0) as [Hz | _]; [| eauto].
  exfalso. apply Rmult_integral in Hz as [Hz | Hz]; [contradiction | lra].
Qed.

(** The sine of the declination, in the same two bands of the sun's mean
    longitude. *)
Lemma sin_declination_north (jd : R) :
  47 <= fmod (280.460 + 0.9856474 * (jd - 2451545.0)) 360 <= 133 ->
  0.2408 <= sin (radians (calculate_solar_declination jd)).
Proof.
  intros HL. unfold calculate_solar_declination. cbv zeta.
  rewrite radians_degrees.
  set (L := fmod (280.460 + 0.9856474 * (jd - 2451545.0)) 360) in *.
  set (g := radians (fmod (357.528 + 0.9856003 * (jd - 2451545.0)) 360)).
  set (lam := radians (L + 1.915 * sin g + 0.020 * sin (2 * g))).
  pose proof PI_RGT_0 as Hpi. pose proof PI_4 as Hpi4.
  pose proof (SIN_bound g) as Hg. pose proof (SIN_bound (2 * g)) as Hg2.
  assert (Hlam : PI / 4 <= lam <= 3 * PI / 4).
  { subst lam. unfold radians. nra. }
  pose proof (sin_middle lam Hlam) as Hsl.
  pose proof sin_PI4_bounds as [H4 _]. pose proof sin_PI8_bound as H8.
  assert (He : sin (PI / 8) <= sin (radians EARTH_OBLIQUITY)).
  { apply sin_incr_1; unfold radians, EARTH_OBLIQUITY; lra. }
  pose proof sin_obliquity_bounds as [_ He1].
  pose proof (SIN_bound lam) as Hl1.
  set (y := sin (radians EARTH_OBLIQUITY) * sin lam).
  assert (Hy : 0.2408 <= y <= 1) by (subst y; nra).
  rewrite sin_asin by lra. lra.
Qed.

Lemma sin_declination_south (jd : R) :
  227 <= fmod (280.460 + 0.9856474 * (jd - 2451545.0)) 360 <= 313 ->
  sin (radians (calculate_solar_declination jd)) <= -0.2408.
Proof.
  intros HL. unfold calculate_solar_declination. cbv zeta.
  rewrite radians_degrees.
  set (L := fmod (280.460 + 0.9856474 * (jd - 2451545.0)) 360) in *.
  set (g := radians (fmod (357.528 + 0.9856003 * (jd - 2451545.0)) 360)).
  set (lam := radians (L + 1.915 * sin g + 0.020 * sin (2 * g))).
  pose proof PI_RGT_0 as Hpi. pose proof PI_4 as Hpi4.
  pose proof (SIN_bound g) as Hg. pose proof (SIN_bound (2 * g)) as Hg2.
  assert (Hlam : PI / 4 <= lam - PI <= 3 * PI / 4).
  { subst lam. unfold radians. nra. }
  pose proof (sin_middle _ Hlam) as Hsl.
  assert (Hneg : sin lam = - sin (lam - PI)).
  { rewrite <- neg_sin. f_equal. lra. }
  pose proof sin_PI4_bounds as [H4 _]. pose proof sin_PI8_bound as H8.
  assert (He : sin (PI / 8) <= sin (radians EARTH_OBLIQUITY)).
  { apply sin_incr_1; unfold radians, EARTH_OBLIQUITY; lra. }
  pose proof sin_obliquity_bounds as [_ He1].
  pose proof (SIN_bound lam) as Hl1.
  set (y := sin (radians EARTH_OBLIQUITY) * sin lam).
  assert (Hy : -1 <= y <= -0.2408) by (subst y; nra).
  rewrite sin_asin by lra. lra.
Qed.

(** At the poles the exact cosine of the latitude is 0 and the divisor is
    the rounding error times the cosine of the declination: positive and
    tiny. The quotient is far below -1 at the pole the sun is over, far
    above 1 at the other. *)
Lemma cos_hour_angle_at_the_poles (err : R) (date : datetime) :
  0 < err <= 1 / 1000 ->
  let sin_declination :=
    sin (radians (calculate_solar_declination
                    (calculate_julian_day
                       (utc (year date) (month date) (day date) 12 0 0)))) in
  exists north south : R,
    cos_hour_angle_rounded err 90 date = Ok north
    /\ cos_hour_angle_rounded err (-90) date = Ok south
    /\ (0.2408 <= sin_declination -> north < -1 /\ 1 < south)
    /\ (sin_declination <= -0.2408 -> 1 < north /\ south < -1).
Proof.
  intros Herr. cbv zeta. unfold cos_hour_angle_rounded.
  rewrite replace_noon. cbn [bind].
  fold (utc (year date) (month date) (day date) 12 0 0).
  set (jd := calculate_julian_day _).
  set (d := radians (calculate_solar_declination jd)).
  pose proof (cos_declination_bound jd) as Hcd. fold d in Hcd.
  pose proof (COS_bound d) as [_ Hcd1].
  pose proof sin_refraction_bounds as [Hr0 Hr1].
  replace (radians 90) with (PI / 2) by (unfold radians; lra).
  replace (radians (-90)) with (- (PI / 2)) by (unfold radians; lra).
  rewrite sin_neg, cos_neg, sin_PI2, cos_PI2, Rplus_0_l.
  assert (HD : 0 < err * cos d) by nra.
  assert (HD1 : err * cos d <= 1 / 1000) by nra.
  unfold fdiv. destruct (Req_dec_T (err * cos d) 0) as [Hz | _]; [lra |].
  eexists. eexists. split; [reflexivity |]. split; [reflexivity |].
  split; intros Hd; split.
  - apply (Rmult_lt_reg_r (err * cos d)); [exact HD |].
    unfold Rdiv. rewrite Rmult_assoc, Rinv_l by lra. lra.
  - apply (Rmult_lt_reg_r (err * cos d)); [exact HD |].
    unfold Rdiv. rewrite Rmult_assoc, Rinv_l by lra. lra.
  - apply (Rmult_lt_reg_r (err * cos d)); [exact HD |].
    unfold Rdiv. rewrite Rmult_assoc, Rinv_l by lra. lra.
  - apply (Rmult_lt_reg_r (err * cos d)); [exact HD |].
    unfold Rdiv. rewrite Rmult_assoc, Rinv_l by lra. lra.
Qed.

(** C6. The cosine of the hour angle is
    [(sin(-0.833 deg) - sin lat sin dec) / (cos lat cos dec)], with the
    declination of noon of the date and the cosine of the latitude as the
    program has it, that is, up to a rounding error [err]; below -1 the
    result is polar day, above 1 polar night, each with no times. At 80
    degrees north this gives polar day on 21 June 2025 and polar night on
    21 December 2025, at every longitude. At the poles the exact cosine of
    the latitude is 0 and the double one a tiny positive number: the
    division goes through and gives polar day at the north pole and polar
    night at the south pole on 21 June 2025, and the reverse on 21 December
    2025. *)
Theorem polar_day_and_polar_night :
  (forall (err latitude longitude : R) (date : datetime) (c : R),
      cos_hour_angle_rounded err latitude date = Ok c ->
      c = (sin (radians (-0.833))
           - sin (radians latitude)
             * sin (radians (calculate_solar_declination
                               (calculate_julian_day
                                  (utc (year date) (month date) (day date)
                                       12 0 0)))))
          / ((cos (radians latitude) + err)
             * cos (radians (calculate_solar_declination
                               (calculate_julian_day
                                  (utc (year date) (month date) (day date)
                                       12 0 0)))))
      /\ (c < -1 ->
          calculate_sunrise_sunset_rounded err latitude longitude date
          = polar_day_state)
      /\ (1 < c ->
          calculate_sunrise_sunset_rounded err latitude longitude date
          = polar_night_state))
  /\ (forall (err latitude : R) (date : datetime),
         cos (radians latitude) + err <> 0 ->
         exists c : R, cos_hour_angle_rounded err latitude date = Ok c)
  /\ (forall (latitude longitude : R) (date : datetime),
         calculate_sunrise_sunset_rounded 0 latitude longitude date
         = calculate_sunrise_sunset latitude longitude date)
  /\ (forall longitude : R,
         calculate_sunrise_sunset 80 longitude (utc 2025 6 21 0 0 0)
           = polar_day_state)
  /\ (forall longitude : R,
         calculate_sunrise_sunset 80 longitude (utc 2025 12 21 0 0 0)
           = polar_night_state)
  /\ (forall err longitude : R,
         0 < err <= 1 / 1000 ->
         calculate_sunrise_sunset_rounded err 90 longitude
           (utc 2025 6 21 0 0 0) = polar_day_state
         /\ calculate_sunrise_sunset_rounded err (-90) longitude
              (utc 2025 6 21 0 0 0) = polar_night_state
         /\ calculate_sunrise_sunset_rounded err 90 longitude
              (utc 2025 12 21 0 0 0) = polar_night_state
         /\ calculate_sunrise_sunset_rounded err (-90) longitude
              (utc 2025 12 21 0 0 0) = polar_day_state).
Proof.
  split; [| split; [| split; [| split; [| split]]]].
  - intros err latitude longitude date c Hc. split.
    + now apply cos_hour_angle_rounded_formula.
    + now apply sunrise_sunset_polar_rounded.
  - apply cos_hour_angle_rounded_total.
  - apply sunrise_sunset_rounded_exact.
  - intros longitude.
    destruct (cos_hour_angle_80N (utc 2025 6 21 0 0 0)) as (c & Hc & Hday & _).
    apply (sunrise_sunset_polar 80 longitude _ c Hc).
    apply Hday. cbn [year month day utc].
    apply declination_north. rewrite julian_day_june_solstice_2025.
    rewrite (fmod_eq _ 360 26) by lra. lra.
  - intros longitude.
    destruct (cos_hour_angle_80N (utc 2025 12 21 0 0 0)) as (c & Hc & _ & Hnight).
    apply (sunrise_sunset_polar 80 longitude _ c Hc).
    apply Hnight. cbn [year month day utc].
    apply declination_south. rewrite julian_day_december_solstice_2025.
    rewrite (fmod_eq _ 360 26) by lra. lra.
  - intros err longitude Herr.
    destruct (cos_hour_angle_at_the_poles err (utc 2025 6 21 0 0 0) Herr)
      as (n1 & s1 & Hn1 & Hs1 & Hjune & _).
    destruct (cos_hour_angle_at_the_poles err (utc 2025 12 21 0 0 0) Herr)
      as (n2 & s2 & Hn2 & Hs2 & _ & Hdec).
    cbn [year month day utc] in Hjune, Hdec.
    destruct Hjune as [Hj1 Hj2].
    { apply sin_declination_north. rewrite julian_day_june_solstice_2025.
      rewrite (fmod_eq _ 360 26) by lra. lra. }
    destruct Hdec as [Hd1 Hd2].
    { apply sin_declination_south. rewrite julian_day_december_solstice_2025.
      rewrite (fmod_eq _ 360 26) by lra. lra. }
    split; [| split; [| split]].
    + now apply (sunrise_sunset_polar_rounded err 90 longitude _ n1 Hn1).
    + now apply (sunrise_sunset_polar_rounded err (-90) longitude _ s1 Hs1).
    + now apply (sunrise_sunset_polar_rounded err 90 longitude _ n2 Hn2).
    + now apply (sunrise_sunset_polar_rounded err (-90) longitude _ s2 Hs2).
Qed.

(** ** Sun position *)

(** The argument of [math.asin] in [calculate_sun_position] is the cosine of
    an angular distance. *)
Lemma elevation_argument_in_unit (a b h : R) :
  -1 <= sin a * sin b + cos a * cos b * cos h <= 1.
Proof.
  pose proof (COS_bound h) as [Hh1 Hh2].
  pose proof (COS_bound (a - b)) as [Hm1 Hm2].
  pose proof (COS_bound (a + b)) as [Hp1 Hp2].
  rewrite cos_minus in Hm1, Hm2. rewrite cos_plus in Hp1, Hp2.
  destruct (Rle_dec 0 (cos a * cos b)); split; nra.
Qed.

Lemma elevation_sine_in_unit (latitude longitude : R) (dt : datetime) :
  -1 <= elevation_sine latitude longitude dt <= 1.
Proof. unfold elevation_sine. cbv zeta. apply elevation_argument_in_unit. Qed.


(** The [try] block completes exactly when the double sum handed to
    [math.asin] is inside [[-1, 1]]; outside, [math.asin] raises. *)
Lemma sun_position_try_completes (err latitude longitude : R) (dt : datetime) :
  -1 <= elevation_sine latitude longitude dt + err <= 1 ->
  exists r : sun_position, sun_position_try err latitude longitude dt = Ok r.
Proof.
  intros Hin. unfold sun_position_try. unfold elevation_sine in Hin.
  cbv zeta in *.
  set (x := _ + err) in *.
  unfold masin. rewrite in_unit_true by exact Hin. cbn [bind].
  set (elevation := degrees (asin x)).
  assert (Hel : -90 <= elevation <= 90).
  { subst elevation. pose proof (asin_bound x) as [H1 H2].
    pose proof (degrees_le _ _ H1) as H3. pose proof (degrees_le _ _ H2) as H4.
    unfold degrees in *. pose proof PI_RGT_0.
    replace (- (PI / 2) * 180 / PI) with (-90) in H3 by (field; lra).
    replace (PI / 2 * 180 / PI) with 90 in H4 by (field; lra). lra. }
  destruct (Rlt_dec 0 elevation) as [Hpos | Hnpos].
  - destruct (Rlt_dec (90 - elevation) 85) as [Hz | Hz].
    + unfold fdiv.
      destruct (Req_dec_T (cos (radians (90 - elevation))) 0) as [Hc | Hc].
      { exfalso. pose proof PI_RGT_0.
        assert (0 < cos (radians (90 - elevation))).
        { apply cos_gt_0; unfold radians; nra. }
        lra. }
      cbn [bind]. eexists. reflexivity.
    + cbn [bind]. eexists. reflexivity.
  - cbn [bind]. eexists. reflexivity.
Qed.

Lemma sun_position_try_raises (err latitude longitude : R) (dt : datetime) :
  ~ (-1 <= elevation_sine latitude longitude dt + err <= 1) ->
  sun_position_try err latitude longitude dt = Raise ValueError.
Proof.
  intros Hout. unfold sun_position_try. unfold elevation_sine in Hout.
  cbv zeta in *.
  set (x := _ + err) in *.
  unfold masin. destruct (in_unit x) eqn:Hin; [| reflexivity].
  apply in_unit_spec in Hin. contradiction.
Qed.






End TimeServiceFacts.

(** * The TTL cache *)

Module CacheManagerFacts.
Import Py CacheManager.

(** ** Key derivation *)

Lemma leb_trans (s1 s2 s3 : string) :
  String.leb s1 s2 = true -> String.leb s2 s3 = true -> String.leb s1 s3 = true.
Proof.
  intros H1 H2. apply Is_true_true.
  apply (transitivity (R := String.le) (y := s2)); now apply Is_true_true.
Qed.

Lemma leb_false (s1 s2 : string) :
  String.leb s1 s2 = false -> String.leb s2 s1 = true.
Proof.
  intros H. destruct (String.leb_total s1 s2) as [H' | H']; congruence.
Qed.

(** Inserting two items with different names gives the same list in either
    order. *)
Lemma insert_item_comm {arg : Type} (x y : string * arg) (l : list (string * arg)) :
  fst x <> fst y ->
  insert_item x (insert_item y l) = insert_item y (insert_item x l).
Proof.
  intros Hne. induction l as [| z l IH]; cbn [insert_item].
  - destruct (String.leb (fst x) (fst y)) eqn:Hxy,
             (String.leb (fst y) (fst x)) eqn:Hyx; try reflexivity.
    + exfalso. apply Hne. now apply String.leb_antisym.
    + apply leb_false in Hxy. congruence.
  - destruct (String.leb (fst y) (fst z)) eqn:Hyz,
             (String.leb (fst x) (fst z)) eqn:Hxz; cbn [insert_item];
      rewrite ?Hyz, ?Hxz.
    + destruct (String.leb (fst x) (fst y)) eqn:Hxy,
               (String.leb (fst y) (fst x)) eqn:Hyx; try reflexivity.
      * exfalso. apply Hne. now apply String.leb_antisym.
      * apply leb_false in Hxy. congruence.
    + destruct (String.leb (fst x) (fst y)) eqn:Hxy; [| reflexivity].
      pose proof (leb_trans _ _ _ Hxy Hyz). congruence.
    + destruct (String.leb (fst y) (fst x)) eqn:Hyx; [| reflexivity].
      pose proof (leb_trans _ _ _ Hyx Hxz). congruence.
    + now rewrite IH.
Qed.

(** [sorted(kwargs.items())] does not depend on the order in which the
    named arguments were given. *)
Lemma sorted_items_permutation {arg : Type} (kwargs1 kwargs2 : list (string * arg)) :
  NoDup (map fst kwargs1) ->
  Permutation kwargs1 kwargs2 ->
  sorted_items kwargs1 = sorted_items kwargs2.
Proof.
  intros Hnd Hperm. unfold sorted_items.
  apply (foldr_permutation eq insert_item []); [| exact Hperm].
  intros j1 a1 j2 a2 b Hj H1 H2. apply insert_item_comm.
  intros Heq. apply Hj.
  apply (NoDup_lookup (map fst kwargs1) j1 j2 (fst a1)); [exact Hnd | |].
  - now rewrite list_lookup_fmap, H1.
  - now rewrite list_lookup_fmap, H2, Heq.
Qed.

Lemma hex_digits_length (k : nat) (n : N) (acc : string) :
  String.length (hex_digits k n acc) = (k + String.length acc)%nat.
Proof.
  revert n acc. induction k as [| k IH]; intros n acc; cbn [hex_digits].
  - reflexivity.
  - rewrite IH. cbn [String.length]. lia.
Qed.

Lemma hexdigest_length (n : N) : String.length (hexdigest n) = 32%nat.
Proof. unfold hexdigest. now rewrite hex_digits_length. Qed.

Lemma string_app_length (s1 s2 : string) :
  String.length (s1 ++ s2) = (String.length s1 + String.length s2)%nat.
Proof.
  induction s1 as [| c s1 IH]; [reflexivity |].
  change (String.length (String c (s1 ++ s2))
          = S (String.length s1 + String.length s2)).
  cbn [String.length]. now rewrite IH.
Qed.

Lemma string_app_same_length (p1 p2 s1 s2 : string) :
  String.length p1 = String.length p2 ->
  (p1 ++ s1 = p2 ++ s2)%string -> p1 = p2.
Proof.
  revert p2. induction p1 as [| c p1 IH]; intros [| c2 p2] Hlen Heq;
    try discriminate Hlen; [reflexivity |].
  change (String c (p1 ++ s1) = String c2 (p2 ++ s2))%string in Heq.
  injection Heq as -> Heq. f_equal.
  apply IH; [cbn [String.length] in Hlen; lia | exact Heq].
Qed.

(** Keys of different categories differ: a key is the category, a colon and
    32 hexadecimal digits. *)
Lemma generate_key_category {arg : Type} `{KeyCodec arg}
    (prefix1 prefix2 : string) (args1 args2 : list arg)
    (kwargs1 kwargs2 : list (string * arg)) :
  _generate_key prefix1 args1 kwargs1 = _generate_key prefix2 args2 kwargs2 ->
  prefix1 = prefix2.
Proof.
  unfold _generate_key. cbv zeta. intros Heq.
  apply (string_app_same_length _ _ _ _) in Heq; [exact Heq |].
  apply (f_equal String.length) in Heq.
  rewrite !string_app_length, !hexdigest_length in Heq. lia.
Qed.

(** C8 (as amended). The key is a function of the category, the positional
    arguments in order and the named arguments whatever their order: two
    calls that give the same named arguments in different orders derive the
    same key, so an entry written by one is the entry read by the other; and
    keys of different categories never coincide. *)
Theorem generate_key_named_order_and_category {arg V : Type} `{KeyCodec arg}
    (prefix : string) (args : list arg) (kwargs1 kwargs2 : list (string * arg))
    (self : t V) (now : Q) (value : V) :
  NoDup (map fst kwargs1) ->
  Permutation kwargs1 kwargs2 ->
  _generate_key prefix args kwargs1 = _generate_key prefix args kwargs2
  /\ cache (set self now prefix value args kwargs1)
       !! _generate_key prefix args kwargs2 = Some (value, now)
  /\ (forall (prefix' : string) (args' : list arg)
             (kwargs' : list (string * arg)),
         prefix <> prefix' ->
         _generate_key prefix args kwargs1
           <> _generate_key prefix' args' kwargs').
Proof.
  intros Hnd Hperm.
  assert (Hkey : _generate_key prefix args kwargs1
                 = _generate_key prefix args kwargs2).
  { unfold _generate_key. now rewrite (sorted_items_permutation _ _ Hnd Hperm). }
  split; [exact Hkey |]. split.
  - rewrite <- Hkey. unfold set. cbn. apply lookup_insert_eq.
  - intros prefix' args' kwargs' Hne Heq. apply Hne.
    now apply generate_key_category in Heq.
Qed.

(** An instance with the reference codec: [b=2, a='y'] against
    [a='y', b=2]. *)
Lemma generate_key_named_order_and_category_witness :
  _generate_key "weather" [Json.PInt 1]
      [("b"%string, Json.PInt 2); ("a"%string, Json.PStr "y")]
  = _generate_key "weather" [Json.PInt 1]
      [("a"%string, Json.PStr "y"); ("b"%string, Json.PInt 2)]
  /\ cache (set (mk (∅ : gmap string (nat * Q)) ∅ (mk_stats 0 0 0 0)) 0
              "weather" 7%nat [Json.PInt 1]
              [("b"%string, Json.PInt 2); ("a"%string, Json.PStr "y")])
       !! _generate_key "weather" [Json.PInt 1]
            [("a"%string, Json.PStr "y"); ("b"%string, Json.PInt 2)]
     = Some (7%nat, 0%Q)
  /\ (forall (prefix' : string) (args' : list Json.pyarg)
             (kwargs' : list (string * Json.pyarg)),
         "weather"%string <> prefix' ->
         _generate_key "weather" [Json.PInt 1]
             [("b"%string, Json.PInt 2); ("a"%string, Json.PStr "y")]
           <> _generate_key prefix' args' kwargs').
Proof.
  apply (generate_key_named_order_and_category (V := nat)).
  - apply NoDup_ListNoDup. repeat constructor; cbn; intuition discriminate.
  - apply perm_swap.
Defined.

(** C8 (the claim as stated fails). The same value given positionally and
    by name derives two different keys: [get('weather', 'Tokyo')] and
    [get('weather', city='Tokyo')] address different entries. *)
Lemma generate_key_positional_differs_from_named :
  _generate_key "weather" [Json.PStr "Tokyo"] []
    = "weather:879902917ae534403934b3a0369b5c1f"%string
  /\ _generate_key "weather" [] [("city"%string, Json.PStr "Tokyo")]
     = "weather:05d2640d953c809e8c661b513d20bb55"%string
  /\ _generate_key "weather" [Json.PStr "Tokyo"] []
     <> _generate_key "weather" [] [("city"%string, Json.PStr "Tokyo")].
Proof.
  assert (H1 : _generate_key "weather" [Json.PStr "Tokyo"] []
               = "weather:879902917ae534403934b3a0369b5c1f"%string)
    by (vm_compute; reflexivity).
  assert (H2 : _generate_key "weather" [] [("city"%string, Json.PStr "Tokyo")]
               = "weather:05d2640d953c809e8c661b513d20bb55"%string)
    by (vm_compute; reflexivity).
  split; [exact H1 |]. split; [exact H2 |].
  rewrite H1, H2. discriminate.
Qed.

(** ** Deleting a list of keys *)

Lemma delete_all_lookup {V : Type} (keys : list string)
    (c : gmap string (V * Q)) (key : string) :
  delete_all keys c !! key = if decide (key ∈ keys) then None else c !! key.
Proof.
  unfold delete_all. revert c. induction keys as [| k keys IH]; intros c.
  - cbn. destruct (decide (key ∈ [])) as [Hin | _]; [| reflexivity].
    now apply elem_of_nil in Hin.
  - cbn [foldl]. rewrite IH.
    destruct (decide (key ∈ keys)) as [Hin | Hnin].
    + rewrite decide_True by (apply elem_of_cons; auto). reflexivity.
    + destruct (decide (key = k)) as [-> | Hne].
      * rewrite decide_True by (apply elem_of_cons; auto).
        apply lookup_delete_eq.
      * rewrite decide_False by (rewrite elem_of_cons; tauto).
        now apply lookup_delete_ne.
Qed.

Lemma delete_all_size {V : Type} (keys : list string) (c : gmap string (V * Q)) :
  NoDup keys ->
  (forall key : string, key ∈ keys -> is_Some (c !! key)) ->
  (size (delete_all keys c) + length keys = size c)%nat.
Proof.
  unfold delete_all. revert c. induction keys as [| k keys IH]; intros c Hnd Hin.
  - cbn. lia.
  - cbn [foldl length]. apply NoDup_cons in Hnd as [Hk Hnd].
    rewrite <- Nat.add_succ_comm.
    assert (Hsz : S (size (delete k c)) = size c).
    { destruct (Hin k) as [v Hv]; [apply elem_of_cons; auto |].
      rewrite (map_size_delete_Some k c) by eauto.
      assert (size c <> 0%nat).
      { intros Hz. apply map_size_empty_inv in Hz. subst c.
        now rewrite lookup_empty in Hv. }
      lia. }
    rewrite <- Hsz. f_equal. rewrite Nat.add_comm. cbn.
    rewrite Nat.add_comm. rewrite <- (IH (delete k c)); [lia | exact Hnd |].
    intros key Hkey. rewrite lookup_delete_ne.
    + apply Hin, elem_of_cons. auto.
    + intros ->. contradiction.
Qed.

(** The keys of a store, filtered: no key twice, every key present. *)
Lemma filtered_keys_spec {V : Type} (f : string -> bool) (c : gmap string (V * Q)) :
  let keys := List.filter f (map fst (map_to_list c)) in
  NoDup keys
  /\ (forall key : string, key ∈ keys <-> is_Some (c !! key) /\ f key = true).
Proof.
  cbv zeta. split.
  - apply NoDup_ListNoDup, List.NoDup_filter, NoDup_ListNoDup.
    apply NoDup_fst_map_to_list.
  - intros key. rewrite list_elem_of_In, List.filter_In, <- list_elem_of_In.
    rewrite list_elem_of_fmap. split.
    + intros [[[k v] [-> Hkv]] Hf]. split; [| exact Hf].
      apply elem_of_map_to_list in Hkv. cbn. eauto.
    + intros [[v Hv] Hf]. split; [| exact Hf].
      exists (key, v). split; [reflexivity |]. now apply elem_of_map_to_list.
Qed.

(** ** [clear_by_type] *)

Lemma clear_by_type_lookup {V : Type} (self : t V) (cache_type key : string) :
  cache (snd (clear_by_type self cache_type)) !! key
  = if startswith key (cache_type ++ ":") then None else cache self !! key.
Proof.
  unfold clear_by_type. cbn [snd with_cache cache].
  rewrite delete_all_lookup.
  destruct (filtered_keys_spec (fun k => startswith k (cache_type ++ ":"))
              (cache self)) as [_ Hin].
  destruct (decide _) as [Hk | Hk].
  - apply Hin in Hk as [_ ->]. reflexivity.
  - destruct (startswith key (cache_type ++ ":")) eqn:Hs; [| reflexivity].
    destruct (cache self !! key) as [v |] eqn:Hv; [| reflexivity].
    exfalso. apply Hk, Hin. eauto.
Qed.

Lemma clear_by_type_count {V : Type} (self : t V) (cache_type : string) :
  (Z.of_nat (size (cache (snd (clear_by_type self cache_type))))
   + fst (clear_by_type self cache_type)
   = Z.of_nat (size (cache self)))%Z.
Proof.
  unfold clear_by_type. cbn [fst snd with_cache cache].
  destruct (filtered_keys_spec (fun k => startswith k (cache_type ++ ":"))
              (cache self)) as [Hnd Hin].
  rewrite <- (delete_all_size _ (cache self) Hnd).
  - lia.
  - intros key Hkey. now apply Hin in Hkey as [? _].
Qed.

(** ** Prefixes and colons *)

Lemma prefix_cons (a b : ascii) (p s : string) :
  String.prefix (String a p) (String b s)
  = if Ascii.eqb a b then String.prefix p s else false.
Proof.
  cbn [String.prefix]. destruct (ascii_dec a b) as [-> | Hne].
  - now rewrite Ascii.eqb_refl.
  - apply Ascii.eqb_neq in Hne. now rewrite Hne.
Qed.

Lemma prefix_nil_l (s : string) : String.prefix EmptyString s = true.
Proof. destruct s; reflexivity. Qed.

Lemma prefix_nil_r (a : ascii) (p : string) :
  String.prefix (String a p) EmptyString = false.
Proof. reflexivity. Qed.

Lemma string_app_cons (a : ascii) (s1 s2 : string) :
  (String a s1 ++ s2 = String a (s1 ++ s2))%string.
Proof. reflexivity. Qed.

Lemma string_app_nil (s : string) : (EmptyString ++ s = s)%string.
Proof. reflexivity. Qed.

Lemma prefix_app (p s : string) : String.prefix p (p ++ s) = true.
Proof.
  induction p as [| a p IH].
  - apply prefix_nil_l.
  - rewrite string_app_cons, prefix_cons, Ascii.eqb_refl. exact IH.
Qed.

(** A prefix that holds a colon is no prefix of a string that holds none. *)
Lemma prefix_has_colon (p s : string) :
  String.prefix p s = true -> has_colon p = true -> has_colon s = true.
Proof.
  revert s. induction p as [| a p IH]; intros [| b s] Hp Hc;
    try discriminate.
  rewrite prefix_cons in Hp.
  destruct (Ascii.eqb a b) eqn:Hab; [| discriminate].
  apply Ascii.eqb_eq in Hab as ->. cbn [has_colon] in *.
  destruct (Ascii.eqb b ":"); [reflexivity |]. cbn in *. now apply IH.
Qed.

Lemma has_colon_app_colon (s t : string) : has_colon (s ++ ":" ++ t) = true.
Proof.
  induction s as [| a s IH].
  - reflexivity.
  - rewrite string_app_cons. cbn [has_colon]. rewrite IH. apply orb_true_r.
Qed.

Lemma hex_digit_not_colon (n : N) : Ascii.eqb (hex_digit n) ":" = false.
Proof.
  destruct n as [| p]; [reflexivity |].
  do 4 (destruct p as [p | p |]; try reflexivity).
Qed.

Lemma hex_digits_no_colon (k : nat) (n : N) (acc : string) :
  has_colon acc = false -> has_colon (hex_digits k n acc) = false.
Proof.
  revert n acc. induction k as [| k IH]; intros n acc Hacc; cbn [hex_digits].
  - exact Hacc.
  - apply IH. cbn [has_colon]. now rewrite hex_digit_not_colon.
Qed.

Lemma hexdigest_no_colon (n : N) : has_colon (hexdigest n) = false.
Proof. now apply hex_digits_no_colon. Qed.

(** The key of a category [other] lies in the namespace of [cache_type]
    only if [other] is that category or its name starts with it and a
    colon. *)
Lemma key_outside_namespace (cache_type other digest : string) :
  has_colon digest = false ->
  other <> cache_type ->
  startswith other (cache_type ++ ":") = false ->
  startswith (other ++ ":" ++ digest) (cache_type ++ ":") = false.
Proof.
  unfold startswith. intros Hd. revert other.
  induction cache_type as [| a c IH]; intros [| b o] Hne Hs.
  - contradiction.
  - rewrite string_app_nil in *. rewrite string_app_cons.
    rewrite prefix_cons in *. destruct (Ascii.eqb ":" b); [| reflexivity].
    now rewrite prefix_nil_l in Hs.
  - rewrite string_app_nil, string_app_cons.
    change (":" ++ digest)%string with (String ":" digest).
    rewrite prefix_cons. destruct (Ascii.eqb a ":"); [| reflexivity].
    destruct (String.prefix (c ++ ":") digest) eqn:Hp; [| reflexivity].
    apply prefix_has_colon in Hp; [congruence |].
    apply (has_colon_app_colon c EmptyString).
  - rewrite !string_app_cons, prefix_cons in *.
    destruct (Ascii.eqb a b) eqn:Hab; [| reflexivity].
    apply Ascii.eqb_eq in Hab as ->.
    apply IH; [congruence | exact Hs].
Qed.

(** A key in the namespaces of two categories: the categories coincide, or
    the name of one starts with the other and a colon. *)
Lemma key_in_two_namespaces (c1 c2 key : string) :
  startswith key (c1 ++ ":") = true ->
  startswith key (c2 ++ ":") = true ->
  c1 = c2 \/ startswith c1 (c2 ++ ":") = true
  \/ startswith c2 (c1 ++ ":") = true.
Proof.
  unfold startswith. revert c2 key.
  induction c1 as [| a c1 IH]; intros [| b c2] [| k key] H1 H2;
    try discriminate; auto.
  - rewrite string_app_nil, string_app_cons in *.
    change (":"%string) with (String ":" EmptyString) in *.
    rewrite prefix_cons in *.
    destruct (Ascii.eqb ":" k) eqn:Hk; [| discriminate].
    destruct (Ascii.eqb b k) eqn:Hb; [| discriminate].
    apply Ascii.eqb_eq in Hk as <-. apply Ascii.eqb_eq in Hb as ->.
    right; right. rewrite Ascii.eqb_refl. apply prefix_nil_l.
  - rewrite string_app_nil, string_app_cons in *.
    change (":"%string) with (String ":" EmptyString) in *.
    rewrite prefix_cons in *.
    destruct (Ascii.eqb ":" k) eqn:Hk; [| discriminate].
    destruct (Ascii.eqb a k) eqn:Ha; [| discriminate].
    apply Ascii.eqb_eq in Hk as <-. apply Ascii.eqb_eq in Ha as ->.
    right; left. rewrite Ascii.eqb_refl. apply prefix_nil_l.
  - rewrite !string_app_cons, !prefix_cons in *.
    destruct (Ascii.eqb a k) eqn:Ha; [| discriminate].
    destruct (Ascii.eqb b k) eqn:Hb; [| discriminate].
    apply Ascii.eqb_eq in Ha as ->. apply Ascii.eqb_eq in Hb as ->.
    rewrite Ascii.eqb_refl.
    destruct (IH c2 key H1 H2) as [-> | [H | H]]; auto.
Qed.

(** ** Counting the entries of a namespace *)

Lemma clear_by_type_cache {V : Type} (self : t V) (cache_type : string) :
  cache (snd (clear_by_type self cache_type))
  = filter (fun kv => ~ startswith (fst kv) (cache_type ++ ":") = true)
           (cache self).
Proof.
  apply map_eq. intros key. rewrite clear_by_type_lookup.
  destruct (filter _ (cache self) !! key) as [v |] eqn:Hf.
  - apply map_lookup_filter_Some in Hf as [Hv Hp]. cbn [fst] in Hp.
    destruct (startswith key (cache_type ++ ":")); [now destruct Hp | exact Hv].
  - apply map_lookup_filter_None in Hf as [Hn | Hall].
    + rewrite Hn. now destruct (startswith key (cache_type ++ ":")).
    + destruct (startswith key (cache_type ++ ":")) eqn:Hs; [reflexivity |].
      destruct (cache self !! key) as [v |] eqn:Hv; [| reflexivity].
      exfalso. apply (Hall v eq_refl). cbn [fst]. congruence.
Qed.

Lemma entries_under_complement {V : Type} (c : gmap string (V * Q))
    (cache_type : string) :
  (entries_under c cache_type
   + size (filter (fun kv => ~ startswith (fst kv) (cache_type ++ ":") = true) c)
   = size c)%nat.
Proof.
  unfold entries_under.
  rewrite <- map_size_disj_union by apply map_disjoint_filter_complement.
  now rewrite map_filter_union_complement.
Qed.

Lemma clear_by_type_returns_entries_under {V : Type} (self : t V)
    (cache_type : string) :
  fst (clear_by_type self cache_type)
  = Z.of_nat (entries_under (cache self) cache_type).
Proof.
  pose proof (clear_by_type_count self cache_type) as Hcount.
  pose proof (entries_under_complement (cache self) cache_type) as Hsum.
  rewrite clear_by_type_cache in Hcount. lia.
Qed.

Lemma entries_under_zero {V : Type} (c : gmap string (V * Q))
    (cache_type : string) :
  (forall key : string,
      startswith key (cache_type ++ ":") = true -> c !! key = None) ->
  entries_under c cache_type = 0%nat.
Proof.
  intros Hnone. unfold entries_under.
  replace (filter _ c) with (∅ : gmap string (V * Q)); [apply map_size_empty |].
  symmetry. apply map_empty. intros key.
  apply map_lookup_filter_None.
  destruct (startswith key (cache_type ++ ":")) eqn:Hs.
  - left. now apply Hnone.
  - right. intros v _ Hp. cbn [fst] in Hp. congruence.
Qed.

Lemma entries_under_ext {V : Type} (c1 c2 : gmap string (V * Q))
    (cache_type : string) :
  (forall key : string,
      startswith key (cache_type ++ ":") = true -> c1 !! key = c2 !! key) ->
  entries_under c1 cache_type = entries_under c2 cache_type.
Proof.
  intros Hsame. unfold entries_under. f_equal. apply map_eq. intros key.
  destruct (startswith key (cache_type ++ ":")) eqn:Hs.
  - specialize (Hsame key Hs).
    destruct (filter _ c2 !! key) as [v |] eqn:Hf.
    + apply map_lookup_filter_Some in Hf as [Hv Hp].
      apply map_lookup_filter_Some. split; [congruence | exact Hp].
    + apply map_lookup_filter_None in Hf as [Hn | Hall];
        apply map_lookup_filter_None.
      * left. congruence.
      * right. intros v Hv. apply Hall. congruence.
  - transitivity (@None (V * Q)); [| symmetry];
      apply map_lookup_filter_None; right; intros v _ Hp;
      cbn [fst] in Hp; congruence.
Qed.

(** A key derived for a category lies in the namespace of that category. *)
Lemma generate_key_startswith {arg : Type} `{KeyCodec arg}
    (prefix : string) (args : list arg) (kwargs : list (string * arg)) :
  startswith (_generate_key prefix args kwargs) (prefix ++ ":") = true.
Proof.
  unfold _generate_key, startswith. cbv zeta.
  set (d := hexdigest _). clearbody d.
  induction prefix as [| a p IH].
  - rewrite !string_app_nil.
    change (String.prefix (String ":" EmptyString) (String ":" d) = true).
    rewrite prefix_cons, Ascii.eqb_refl. apply prefix_nil_l.
  - rewrite !string_app_cons, prefix_cons, Ascii.eqb_refl. exact IH.
Qed.

(** The key of a category outside the namespace of [cache_type]. *)
Lemma generate_key_outside {arg : Type} `{KeyCodec arg}
    (cache_type other : string) (args : list arg) (kwargs : list (string * arg)) :
  other <> cache_type ->
  startswith other (cache_type ++ ":") = false ->
  startswith (_generate_key other args kwargs) (cache_type ++ ":") = false.
Proof.
  intros Hne Hs. unfold _generate_key. cbv zeta.
  apply key_outside_namespace; [apply hexdigest_no_colon | exact Hne | exact Hs].
Qed.

(** A name without a colon starts with no namespace prefix. *)
Lemma colon_free_outside (cache_type other : string) :
  has_colon other = false -> startswith other (cache_type ++ ":") = false.
Proof.
  intros Hc. unfold startswith.
  destruct (String.prefix (cache_type ++ ":") other) eqn:Hp; [| reflexivity].
  apply prefix_has_colon in Hp; [congruence |].
  apply (has_colon_app_colon cache_type EmptyString).
Qed.

Lemma clear_by_type_other_namespace {V : Type} (self : t V)
    (cache_type other : string) :
  other <> cache_type ->
  startswith other (cache_type ++ ":") = false ->
  startswith cache_type (other ++ ":") = false ->
  entries_under (cache (snd (clear_by_type self cache_type))) other
  = entries_under (cache self) other.
Proof.
  intros Hne H1 H2. apply entries_under_ext. intros key Hkey.
  rewrite clear_by_type_lookup.
  destruct (startswith key (cache_type ++ ":")) eqn:Hs; [| reflexivity].
  destruct (key_in_two_namespaces other cache_type key Hkey Hs)
    as [? | [? | ?]]; congruence.
Qed.

(** C9 (as amended): [clear_by_type] removes exactly the entries whose key
    starts with the category name and a colon, and returns their number;
    counters and TTL configuration are left alone. Every entry of a
    category whose name is different and does not itself start with the
    cleared name and a colon is unchanged, and so is the number of entries
    of a category when neither name continues the other; both hold for any
    two different names without a colon. With five entries under each of
    two such categories and ten in all, clearing one leaves the five of the
    other and a total of five. *)
Theorem clear_by_type_removes_the_namespace {arg V : Type} `{KeyCodec arg}
    (self : t V) (cache_type : string) :
  (forall key : string,
      cache (snd (clear_by_type self cache_type)) !! key
      = if startswith key (cache_type ++ ":") then None else cache self !! key)
  /\ fst (clear_by_type self cache_type)
     = Z.of_nat (entries_under (cache self) cache_type)
  /\ (Z.of_nat (size (cache (snd (clear_by_type self cache_type))))
      = Z.of_nat (size (cache self)) - fst (clear_by_type self cache_type))%Z
  /\ stats (snd (clear_by_type self cache_type)) = stats self
  /\ ttl_config (snd (clear_by_type self cache_type)) = ttl_config self
  /\ (forall (args : list arg) (kwargs : list (string * arg)),
        cache (snd (clear_by_type self cache_type))
          !! _generate_key cache_type args kwargs = None)
  /\ entries_under (cache (snd (clear_by_type self cache_type))) cache_type
     = 0%nat
  /\ (forall (other : string) (args : list arg) (kwargs : list (string * arg)),
        other <> cache_type ->
        startswith other (cache_type ++ ":") = false ->
        cache (snd (clear_by_type self cache_type))
          !! _generate_key other args kwargs
        = cache self !! _generate_key other args kwargs)
  /\ (forall other : string,
        other <> cache_type ->
        startswith other (cache_type ++ ":") = false ->
        startswith cache_type (other ++ ":") = false ->
        entries_under (cache (snd (clear_by_type self cache_type))) other
        = entries_under (cache self) other)
  /\ (forall other : string,
        other <> cache_type ->
        has_colon other = false -> has_colon cache_type = false ->
        (forall (args : list arg) (kwargs : list (string * arg)),
            cache (snd (clear_by_type self cache_type))
              !! _generate_key other args kwargs
            = cache self !! _generate_key other args kwargs)
        /\ entries_under (cache (snd (clear_by_type self cache_type))) other
           = entries_under (cache self) other
        /\ (entries_under (cache self) cache_type = 5%nat ->
            entries_under (cache self) other = 5%nat ->
            size (cache self) = 10%nat ->
            entries_under (cache (snd (clear_by_type self cache_type))) other
            = 5%nat
            /\ size (cache (snd (clear_by_type self cache_type))) = 5%nat)).
Proof.
  pose proof (clear_by_type_count self cache_type) as Hcount.
  pose proof (clear_by_type_returns_entries_under self cache_type) as Hn.
  assert (Hother : forall (other : string) (args : list arg)
                     (kwargs : list (string * arg)),
             other <> cache_type ->
             startswith other (cache_type ++ ":") = false ->
             cache (snd (clear_by_type self cache_type))
               !! _generate_key other args kwargs
             = cache self !! _generate_key other args kwargs).
  { intros other args kwargs Hne Hs. rewrite clear_by_type_lookup.
    now rewrite generate_key_outside. }
  split; [apply clear_by_type_lookup |].
  split; [exact Hn |].
  split; [lia |].
  split; [reflexivity |].
  split; [reflexivity |].
  split.
  { intros args kwargs. rewrite clear_by_type_lookup.
    now rewrite generate_key_startswith. }
  split.
  { apply entries_under_zero. intros key Hkey.
    rewrite clear_by_type_lookup. now rewrite Hkey. }
  split; [exact Hother |].
  split; [apply clear_by_type_other_namespace |].
  intros other Hne Ho Hc.
  assert (Hsame : entries_under (cache (snd (clear_by_type self cache_type)))
                    other = entries_under (cache self) other).
  { apply clear_by_type_other_namespace;
      [exact Hne | now apply colon_free_outside ..]. }
  split.
  { intros args kwargs. apply Hother; [exact Hne |].
    now apply colon_free_outside. }
  split; [exact Hsame |].
  intros H5 H5' H10. split; [congruence |]. lia.
Qed.

(** C9, the counterexample: an entry written under the category
    ["weather:forecast"] is removed by clearing the category ["weather"]. *)
Lemma clear_by_type_reaches_colon_categories :
  "weather:forecast"%string <> "weather"%string
  /\ cache Scenario.forecast_entry
       !! _generate_key "weather:forecast" [Json.PStr "Tokyo"] []
     = Some (7%nat, 0%Q)
  /\ fst (clear_by_type Scenario.forecast_entry "weather") = 1%Z
  /\ cache (snd (clear_by_type Scenario.forecast_entry "weather"))
       !! _generate_key "weather:forecast" [Json.PStr "Tokyo"] []
     = None.
Proof.
  split; [discriminate |].
  split; [vm_compute; reflexivity |].
  split; vm_compute; reflexivity.
Qed.

(** The scenario of the specification, executed: two categories of five
    entries each; clearing one returns 5 and leaves the five entries of the
    other, which are all that is left. *)
Lemma clear_by_type_two_categories :
  size (cache Scenario.two_categories) = 10%nat
  /\ entries_under (cache Scenario.two_categories) "weather" = 5%nat
  /\ entries_under (cache Scenario.two_categories) "geocoding" = 5%nat
  /\ fst (clear_by_type Scenario.two_categories "weather") = 5%Z
  /\ size (cache (snd (clear_by_type Scenario.two_categories "weather")))
     = 5%nat
  /\ entries_under
       (cache (snd (clear_by_type Scenario.two_categories "weather")))
       "geocoding" = 5%nat
  /\ map (fun i =>
            cache (snd (clear_by_type Scenario.two_categories "weather"))
              !! _generate_key "geocoding" [Json.PInt i] [])
         [1; 2; 3; 4; 5]%Z
     = map (fun i => Some (Z.to_nat i, 0%Q)) [1; 2; 3; 4; 5]%Z.
Proof.
  split; [vm_compute; reflexivity |].
  split; [vm_compute; reflexivity |].
  split; [vm_compute; reflexivity |].
  split; [vm_compute; reflexivity |].
  split; [vm_compute; reflexivity |].
  split; vm_compute; reflexivity.
Qed.

(** ** [get] *)

Lemma is_expired_ok {V : Type} (self : t V) (now timestamp dflt : Q)
    (cache_type : string) :
  ttl_config self !! "default"%string = Some dflt ->
  _is_expired self now timestamp cache_type
  = Ok (if Qlt_le_dec (default dflt (ttl_config self !! cache_type))
                      (now - timestamp)
        then true else false).
Proof. intros Hd. unfold _is_expired. now rewrite Hd. Qed.

(** The three ways through [get]. *)
Lemma get_cases {arg V : Type} `{KeyCodec arg} (self : t V) (now dflt : Q)
    (cache_type : string) (args : list arg) (kwargs : list (string * arg)) :
  ttl_config self !! "default"%string = Some dflt ->
  get self now cache_type args kwargs
  = match cache self !! _generate_key cache_type args kwargs with
    | Some (data, timestamp) =>
        if Qlt_le_dec (default dflt (ttl_config self !! cache_type))
                      (now - timestamp)
        then Ok (None,
                 mk (delete (_generate_key cache_type args kwargs) (cache self))
                    (ttl_config self)
                    (mk_stats (hits (stats self)) (misses (stats self) + 1)
                              (sets (stats self)) (evictions (stats self) + 1)))
        else Ok (Some data,
                 mk (cache self) (ttl_config self)
                    (mk_stats (hits (stats self) + 1) (misses (stats self))
                              (sets (stats self)) (evictions (stats self))))
    | None =>
        Ok (None,
            mk (cache self) (ttl_config self)
               (mk_stats (hits (stats self)) (misses (stats self) + 1)
                         (sets (stats self)) (evictions (stats self))))
    end.
Proof.
  intros Hd. unfold get. cbv zeta.
  destruct (cache self !! _generate_key cache_type args kwargs)
    as [[data timestamp] |]; [| reflexivity].
  rewrite (is_expired_ok self now timestamp dflt cache_type Hd).
  cbn [bind]. now destruct (Qlt_le_dec _ _).
Qed.

Lemma set_lookup {arg V : Type} `{KeyCodec arg} (self : t V) (now : Q)
    (cache_type : string) (value : V) (args : list arg)
    (kwargs : list (string * arg)) :
  cache (set self now cache_type value args kwargs)
    !! _generate_key cache_type args kwargs = Some (value, now).
Proof. unfold set. cbn. apply lookup_insert_eq. Qed.

Lemma Qlt_60_after_61 (t0 : Q) : (60 < t0 + 61 - t0)%Q.
Proof.
  assert (Heq : (t0 + 61 - t0 == 61)%Q) by ring.
  rewrite Heq. reflexivity.
Qed.

(** C3 (as amended): with a default TTL configured, [get] returns the
    stored value if and only if an entry exists for the derived key and its
    age since write is at most the TTL configured for the category when
    [get] is called. A returned value counts one hit and changes nothing
    else; an entry older than the TTL is removed, [get] returns absent and
    counts exactly one eviction and one miss; a missing entry counts one
    miss. Every call counts exactly one of hit and miss and leaves the set
    counter and the configuration alone. The TTL is the one in force at the
    time of the call, whatever it was when the entry was written; an entry
    written at [t0] under a category of TTL 60 and asked for at [t0 + 61]
    is absent and produces exactly one eviction. *)
Theorem get_returns_entries_within_ttl {arg V : Type} `{KeyCodec arg}
    (self : t V) (now dflt : Q) (cache_type : string) (args : list arg)
    (kwargs : list (string * arg)) :
  ttl_config self !! "default"%string = Some dflt ->
  (exists (r : option V) (self' : t V),
      get self now cache_type args kwargs = Ok (r, self')
      /\ ttl_config self' = ttl_config self
      /\ sets (stats self') = sets (stats self)
      /\ (forall v : V,
            r = Some v
            <-> exists ts : Q,
                cache self !! _generate_key cache_type args kwargs
                = Some (v, ts)
                /\ (now - ts <= default dflt (ttl_config self !! cache_type))%Q)
      /\ (is_Some r ->
          cache self' = cache self
          /\ hits (stats self') = (hits (stats self) + 1)%Z
          /\ misses (stats self') = misses (stats self)
          /\ evictions (stats self') = evictions (stats self))
      /\ (forall (v : V) (ts : Q),
            cache self !! _generate_key cache_type args kwargs = Some (v, ts) ->
            (default dflt (ttl_config self !! cache_type) < now - ts)%Q ->
            r = None
            /\ cache self'
               = delete (_generate_key cache_type args kwargs) (cache self)
            /\ evictions (stats self') = (evictions (stats self) + 1)%Z
            /\ misses (stats self') = (misses (stats self) + 1)%Z
            /\ hits (stats self') = hits (stats self))
      /\ (cache self !! _generate_key cache_type args kwargs = None ->
          r = None
          /\ cache self' = cache self
          /\ evictions (stats self') = evictions (stats self)
          /\ misses (stats self') = (misses (stats self) + 1)%Z
          /\ hits (stats self') = hits (stats self))
      /\ ((hits (stats self') = (hits (stats self) + 1)%Z
           /\ misses (stats self') = misses (stats self))
          \/ (hits (stats self') = hits (stats self)
              /\ misses (stats self') = (misses (stats self) + 1)%Z)))
  /\ (forall (t0 : Q) (value : V) (config : gmap string Q) (dflt' : Q),
        config !! "default"%string = Some dflt' ->
        exists (r : option V) (self' : t V),
          get (mk (cache (set self t0 cache_type value args kwargs)) config
                  (stats (set self t0 cache_type value args kwargs)))
              now cache_type args kwargs = Ok (r, self')
          /\ (r = Some value
              <-> (now - t0 <= default dflt' (config !! cache_type))%Q)
          /\ (r = None
              <-> (default dflt' (config !! cache_type) < now - t0)%Q))
  /\ (forall (t0 : Q) (value : V),
        ttl_config self !! cache_type = Some 60%Q ->
        exists self' : t V,
          get (set self t0 cache_type value args kwargs) (t0 + 61)%Q
              cache_type args kwargs = Ok (None, self')
          /\ cache self' !! _generate_key cache_type args kwargs = None
          /\ evictions (stats self') = (evictions (stats self) + 1)%Z).
Proof.
  intros Hd. split; [| split].
  - rewrite (get_cases self now dflt cache_type args kwargs Hd).
    destruct (cache self !! _generate_key cache_type args kwargs)
      as [[data timestamp] |] eqn:Hlook.
    + destruct (Qlt_le_dec _ _) as [Hold | Hfresh].
      * eexists. eexists. split; [reflexivity |]. cbn.
        split; [reflexivity |]. split; [reflexivity |]. split.
        { intros v. split; [discriminate |].
          intros [ts [Hts Hle]]. injection Hts as <- <-.
          exfalso. exact (Qlt_not_le _ _ Hold Hle). }
        split; [intros [v Hv]; discriminate |].
        split; [intros v ts _ _; repeat split |].
        split; [discriminate |].
        right. split; reflexivity.
      * eexists. eexists. split; [reflexivity |]. cbn.
        split; [reflexivity |]. split; [reflexivity |]. split.
        { intros v. split.
          - intros Hv. injection Hv as <-. exists timestamp. split; auto.
          - intros [ts [Hts _]]. congruence. }
        split; [intros _; repeat split |].
        split.
        { intros v ts Hts Hlt. injection Hts as <- <-.
          exfalso. exact (Qlt_not_le _ _ Hlt Hfresh). }
        split; [discriminate |].
        left. split; reflexivity.
    + eexists. eexists. split; [reflexivity |]. cbn.
      split; [reflexivity |]. split; [reflexivity |]. split.
      { intros v. split; [discriminate |]. intros [ts [Hts _]]. discriminate. }
      split; [intros [v Hv]; discriminate |].
      split; [intros v ts Hts; discriminate |].
      split; [intros _; repeat split |].
      right. split; reflexivity.
  - intros t0 value config dflt' Hd'.
    rewrite (get_cases
               (mk (cache (set self t0 cache_type value args kwargs)) config
                   (stats (set self t0 cache_type value args kwargs)))
               now dflt' cache_type args kwargs Hd').
    cbn [cache ttl_config stats]. rewrite set_lookup.
    destruct (Qlt_le_dec _ _) as [Hold | Hfresh].
    + eexists. eexists. split; [reflexivity |]. split.
      * split; [discriminate |]. intros Hle.
        exfalso. exact (Qlt_not_le _ _ Hold Hle).
      * split; auto.
    + eexists. eexists. split; [reflexivity |]. split.
      * split; auto.
      * split; [discriminate |]. intros Hlt.
        exfalso. exact (Qlt_not_le _ _ Hlt Hfresh).
  - intros t0 value H60.
    assert (Hd' : ttl_config (set self t0 cache_type value args kwargs)
                    !! "default"%string = Some dflt) by exact Hd.
    rewrite (get_cases _ (t0 + 61)%Q dflt cache_type args kwargs Hd').
    rewrite set_lookup.
    change (ttl_config (set self t0 cache_type value args kwargs))
      with (ttl_config self).
    rewrite H60. cbn [default].
    destruct (Qlt_le_dec _ _) as [Hold | Hfresh].
    + eexists. split; [reflexivity |]. cbn. split; [apply lookup_delete_eq |].
      reflexivity.
    + exfalso. exact (Qlt_not_le _ _ (Qlt_60_after_61 t0) Hfresh).
Qed.

(** An instance with the reference codec: the entry written at 1000 under
    the category of TTL 60, asked for at 1061. *)
Lemma get_returns_entries_within_ttl_witness :
  ttl_config Scenario.fresh !! "default"%string = Some 300%Q
  /\ exists self' : t nat,
       get Scenario.written_at_1000 (1000 + 61)%Q "weather"
           [Json.PStr "Tokyo"] [] = Ok (None, self')
       /\ cache self' !! _generate_key "weather" [Json.PStr "Tokyo"] [] = None
       /\ evictions (stats self') = (evictions (stats Scenario.fresh) + 1)%Z.
Proof.
  assert (Hd : ttl_config Scenario.fresh !! "default"%string = Some 300%Q)
    by (vm_compute; reflexivity).
  split; [exact Hd |].
  destruct (get_returns_entries_within_ttl Scenario.fresh 0%Q 300%Q "weather"
              [Json.PStr "Tokyo"] [] Hd) as [_ [_ Hscenario]].
  apply (Hscenario 1000%Q 7%nat). vm_compute; reflexivity.
Defined.

(** C3, the counterexample: an entry whose age equals the TTL of its
    category is still returned. The entry is written at 1000 under TTL 60
    and read at 1060. *)
Lemma get_returns_entry_of_age_equal_to_ttl :
  ttl_config Scenario.written_at_1000 !! "weather"%string = Some 60%Q
  /\ cache Scenario.written_at_1000
       !! _generate_key "weather" [Json.PStr "Tokyo"] []
     = Some (7%nat, 1000%Q)
  /\ ~ (1060 - 1000 < 60)%Q
  /\ exists self' : t nat,
       get Scenario.written_at_1000 1060%Q "weather" [Json.PStr "Tokyo"] []
       = Ok (Some 7%nat, self')
       /\ hits (stats self') = 1%Z /\ evictions (stats self') = 0%Z.
Proof.
  split; [vm_compute; reflexivity |].
  split; [vm_compute; reflexivity |].
  split; [intros Hlt; vm_compute in Hlt; discriminate |].
  eexists. split; [vm_compute; reflexivity |].
  split; reflexivity.
Qed.

(** ** [cleanup_expired] *)

Lemma expired_among_ok {V : Type} (self : t V) (clock : string -> Q)
    (dflt : Q) (items : list (string * (V * Q))) :
  ttl_config self !! "default"%string = Some dflt ->
  expired_among self clock items
  = Ok (map fst
          (List.filter
             (fun kv =>
                if Qlt_le_dec
                     (default dflt (ttl_config self !! before_colon (fst kv)))
                     (clock (fst kv) - snd (snd kv))
                then true else false)
             items)).
Proof.
  intros Hd. induction items as [| [key [data timestamp]] rest IH].
  - reflexivity.
  - cbn [expired_among List.filter fst snd].
    rewrite (is_expired_ok self _ timestamp dflt _ Hd), IH. cbn [bind].
    now destruct (Qlt_le_dec _ _).
Qed.

Lemma NoDup_map_fst_filter {A B : Type} (f : A * B -> bool) (l : list (A * B)) :
  NoDup (map fst l) -> NoDup (map fst (List.filter f l)).
Proof.
  induction l as [| a l IH]; intros Hnd; [exact Hnd |].
  cbn [map] in Hnd. apply NoDup_cons in Hnd as [Ha Hnd].
  cbn [List.filter]. destruct (f a); [| now apply IH].
  cbn [map]. apply NoDup_cons. split; [| now apply IH].
  intros Hin. apply Ha.
  apply list_elem_of_In in Hin. apply list_elem_of_In.
  apply in_map_iff in Hin as [x [Hx Hin]]. apply in_map_iff.
  exists x. split; [exact Hx |]. now apply List.filter_In in Hin as [? _].
Qed.

(** The keys found expired: no key twice, and exactly the keys of the
    entries that pass the test. *)
Lemma expired_keys_spec {V : Type} (f : string * (V * Q) -> bool)
    (c : gmap string (V * Q)) :
  NoDup (map fst (List.filter f (map_to_list c)))
  /\ (forall key : string,
        key ∈ map fst (List.filter f (map_to_list c))
        <-> exists x : V * Q, c !! key = Some x /\ f (key, x) = true).
Proof.
  split.
  - apply NoDup_map_fst_filter, NoDup_fst_map_to_list.
  - intros key. rewrite list_elem_of_In, in_map_iff. split.
    + intros [[k x] [Hk Hin]]. cbn in Hk. subst k.
      apply List.filter_In in Hin as [Hin Hf].
      apply list_elem_of_In, elem_of_map_to_list in Hin. eauto.
    + intros [x [Hx Hf]]. exists (key, x). split; [reflexivity |].
      apply List.filter_In. split; [| exact Hf].
      now apply list_elem_of_In, elem_of_map_to_list.
Qed.

(** C10 (as amended): with a default TTL configured, [get] counts exactly
    one of hit and miss and leaves the set counter; [set] counts one set and
    nothing else; [delete] and [clear_by_type] leave every counter as it
    was; [cleanup_expired] leaves the hit, miss and set counters, adds to
    the eviction counter exactly the number of entries it removed, which is
    the number it returns, removes the expired entries and leaves every
    entry that is not expired untouched; [clear_all], the third method that
    writes the hit, miss and set counters, puts all four counters back to
    zero, empties the store and returns the number of entries it held. *)
Theorem counters_change_only_in_get_and_set {arg V : Type} `{KeyCodec arg}
    (self : t V) (dflt : Q) :
  ttl_config self !! "default"%string = Some dflt ->
  (forall (now : Q) (cache_type : string) (args : list arg)
          (kwargs : list (string * arg)),
      exists (r : option V) (self' : t V),
        get self now cache_type args kwargs = Ok (r, self')
        /\ sets (stats self') = sets (stats self)
        /\ ((hits (stats self') = (hits (stats self) + 1)%Z
             /\ misses (stats self') = misses (stats self))
            \/ (hits (stats self') = hits (stats self)
                /\ misses (stats self') = (misses (stats self) + 1)%Z)))
  /\ (forall (now : Q) (cache_type : string) (value : V) (args : list arg)
             (kwargs : list (string * arg)),
        stats (set self now cache_type value args kwargs)
        = mk_stats (hits (stats self)) (misses (stats self))
                   (sets (stats self) + 1) (evictions (stats self)))
  /\ (forall (cache_type : string) (args : list arg)
             (kwargs : list (string * arg)),
        stats (snd (delete_entry self cache_type args kwargs)) = stats self)
  /\ (forall cache_type : string,
        stats (snd (clear_by_type self cache_type)) = stats self)
  /\ (forall clock : string -> Q,
        exists (n : Z) (self' : t V),
          cleanup_expired self clock = Ok (n, self')
          /\ hits (stats self') = hits (stats self)
          /\ misses (stats self') = misses (stats self)
          /\ sets (stats self') = sets (stats self)
          /\ evictions (stats self') = (evictions (stats self) + n)%Z
          /\ n = (Z.of_nat (size (cache self))
                  - Z.of_nat (size (cache self')))%Z
          /\ (forall (key : string) (x : V * Q),
                cache self !! key = Some x ->
                (clock key - snd x
                 <= default dflt (ttl_config self !! before_colon key))%Q ->
                cache self' !! key = Some x)
          /\ (forall (key : string) (x : V * Q),
                cache self !! key = Some x ->
                (default dflt (ttl_config self !! before_colon key)
                 < clock key - snd x)%Q ->
                cache self' !! key = None)
          /\ (forall key : string,
                cache self !! key = None -> cache self' !! key = None))
  /\ (stats (snd (clear_all self)) = mk_stats 0 0 0 0
      /\ cache (snd (clear_all self)) = ∅
      /\ ttl_config (snd (clear_all self)) = ttl_config self
      /\ fst (clear_all self) = Z.of_nat (size (cache self))).
Proof.
  intros Hd. split.
  { intros now cache_type args kwargs.
    rewrite (get_cases self now dflt cache_type args kwargs Hd).
    destruct (cache self !! _generate_key cache_type args kwargs)
      as [[data timestamp] |];
      [destruct (Qlt_le_dec _ _) |];
      eexists; eexists; (split; [reflexivity |]); cbn;
      (split; [reflexivity |]); auto. }
  split; [reflexivity |].
  split.
  { intros cache_type args kwargs. unfold delete_entry. cbv zeta.
    now destruct (cache self !! _generate_key cache_type args kwargs). }
  split; [reflexivity |].
  split; [| repeat split].
  intros clock. unfold cleanup_expired.
  rewrite (expired_among_ok self clock dflt _ Hd). cbn [bind].
  set (f := fun kv : string * (V * Q) =>
              if Qlt_le_dec
                   (default dflt (ttl_config self !! before_colon (fst kv)))
                   (clock (fst kv) - snd (snd kv))
              then true else false).
  destruct (expired_keys_spec f (cache self)) as [Hnd Hin].
  eexists. eexists. split; [reflexivity |]. cbn.
  split; [reflexivity |]. split; [reflexivity |]. split; [reflexivity |].
  split; [reflexivity |]. split.
  { rewrite <- (delete_all_size _ (cache self) Hnd); [lia |].
    intros key Hkey. apply Hin in Hkey as [x [Hx _]]. eauto. }
  split; [| split].
  - intros key x Hx Hfresh. rewrite delete_all_lookup.
    destruct (decide _) as [Hkey | _]; [| exact Hx].
    apply Hin in Hkey as [y [Hy Hf]].
    assert (y = x) by congruence. subst y.
    unfold f in Hf. cbn [fst snd] in Hf.
    destruct (Qlt_le_dec _ _) as [Hold | _]; [| discriminate].
    exfalso. exact (Qlt_not_le _ _ Hold Hfresh).
  - intros key x Hx Hold. rewrite delete_all_lookup.
    destruct (decide _) as [_ | Hkey]; [reflexivity |].
    exfalso. apply Hkey, Hin. exists x. split; [exact Hx |].
    unfold f. cbn [fst snd].
    destruct (Qlt_le_dec _ _) as [_ | Hfresh]; [reflexivity |].
    exfalso. exact (Qlt_not_le _ _ Hold Hfresh).
  - intros key Hnone. rewrite delete_all_lookup.
    now destruct (decide _).
Qed.

(** An instance with the reference codec: cleaning up, at 1061, the manager
    that holds one entry written at 1000 under TTL 60. *)
Lemma counters_change_only_in_get_and_set_witness :
  ttl_config Scenario.written_at_1000 !! "default"%string = Some 300%Q
  /\ exists (n : Z) (self' : t nat),
       cleanup_expired Scenario.written_at_1000 (fun _ => 1061%Q)
       = Ok (n, self')
       /\ hits (stats self') = hits (stats Scenario.written_at_1000)
       /\ misses (stats self') = misses (stats Scenario.written_at_1000)
       /\ sets (stats self') = sets (stats Scenario.written_at_1000)
       /\ evictions (stats self')
          = (evictions (stats Scenario.written_at_1000) + n)%Z.
Proof.
  assert (Hd : ttl_config Scenario.written_at_1000 !! "default"%string
               = Some 300%Q) by (vm_compute; reflexivity).
  split; [exact Hd |].
  destruct (counters_change_only_in_get_and_set (arg := Json.pyarg)
              Scenario.written_at_1000 300%Q Hd) as [_ [_ [_ [_ [Hclean _]]]]].
  destruct (Hclean (fun _ => 1061%Q))
    as [n [self' [Hrun [Hh [Hm [Hs [He _]]]]]]].
  exists n, self'. repeat split; assumption.
Defined.

(** [cleanup_expired], executed: at 1060 the entry written at 1000 under
    TTL 60 stays, at 1061 it is removed and counted as one eviction. *)
Lemma cleanup_expired_executed :
  cleanup_expired Scenario.written_at_1000 (fun _ => 1060%Q)
  = Ok (0%Z, Scenario.written_at_1000)
  /\ cleanup_expired Scenario.written_at_1000 (fun _ => 1061%Q)
     = Ok (1%Z, mk ∅ (ttl_config Scenario.fresh) (mk_stats 0 0 1 1)).
Proof. split; vm_compute; reflexivity. Qed.

(** C10, the counterexample: [clear_all] modifies the hit, miss and set
    counters. After one set, one hit and one miss the counters read 1, 1
    and 1; [clear_all] leaves all of them at 0. *)
Lemma clear_all_modifies_the_counters :
  (do self <- run_ops Scenario.written_at_1000
                [OpGet 1010 "weather" [Json.PStr "Tokyo"] [];
                 OpGet 1010 "weather" [Json.PStr "Osaka"] []] ;
   Ok (stats self))%py
  = Ok (mk_stats 1 1 1 0)
  /\ (do self <- run_ops Scenario.written_at_1000
                   [OpGet 1010 "weather" [Json.PStr "Tokyo"] [];
                    OpGet 1010 "weather" [Json.PStr "Osaka"] []] ;
      Ok (stats (snd (clear_all self))))%py
     = Ok (mk_stats 0 0 0 0).
Proof. split; vm_compute; reflexivity. Qed.

(** [clear_all] empties the store and resets the four counters. *)
Lemma clear_all_resets_counters {V : Type} (self : t V) :
  fst (clear_all self) = Z.of_nat (size (cache self))
  /\ cache (snd (clear_all self)) = ∅
  /\ stats (snd (clear_all self)) = mk_stats 0 0 0 0
  /\ ttl_config (snd (clear_all self)) = ttl_config self.
Proof. repeat split. Qed.

(** Without a default TTL, [get] of a stored entry raises [KeyError]. *)
Lemma get_without_default_raises {arg V : Type} `{KeyCodec arg}
    (self : t V) (now : Q) (cache_type : string) (args : list arg)
    (kwargs : list (string * arg)) :
  ttl_config self !! "default"%string = None ->
  is_Some (cache self !! _generate_key cache_type args kwargs) ->
  get self now cache_type args kwargs = Raise KeyError.
Proof.
  intros Hd [[data timestamp] Hx]. unfold get, _is_expired. cbv zeta.
  now rewrite Hx, Hd.
Qed.

End CacheManagerFacts.

(** * Laws of the cache manager *)

Module CacheManagerLaws.
Import Py CacheManager CacheManagerFacts.

(** ** Writing, then reading *)

(** [set] then [get] with the same category and arguments, while the age
    of the entry is at most the TTL of the category: the value written is
    returned and one hit is counted; nothing else changes. *)
Theorem set_then_get_returns_the_value {arg V : Type} `{KeyCodec arg}
    (self : t V) (t0 now dflt : Q) (cache_type : string) (value : V)
    (args : list arg) (kwargs : list (string * arg)) :
  ttl_config self !! "default"%string = Some dflt ->
  (now - t0 <= default dflt (ttl_config self !! cache_type))%Q ->
  get (set self t0 cache_type value args kwargs) now cache_type args kwargs
  = Ok (Some value,
        mk (<[_generate_key cache_type args kwargs := (value, t0)]>
              (cache self))
           (ttl_config self)
           (mk_stats (hits (stats self) + 1) (misses (stats self))
                     (sets (stats self) + 1) (evictions (stats self)))).
Proof.
  intros Hd Hfresh.
  assert (Hd' : ttl_config (set self t0 cache_type value args kwargs)
                  !! "default"%string = Some dflt) by exact Hd.
  rewrite (get_cases _ now dflt cache_type args kwargs Hd'), set_lookup.
  change (ttl_config (set self t0 cache_type value args kwargs))
    with (ttl_config self).
  destruct (Qlt_le_dec _ _) as [Hold | _]; [| reflexivity].
  exfalso. exact (Qlt_not_le _ _ Hold Hfresh).
Qed.

Lemma set_then_get_returns_the_value_witness :
  get (set Scenario.fresh 1000 "weather" 7%nat [Json.PStr "Tokyo"] [])
      1060 "weather" [Json.PStr "Tokyo"] []
  = Ok (Some 7%nat,
        mk (<[_generate_key "weather" [Json.PStr "Tokyo"] [] := (7%nat, 1000%Q)]>
              (cache Scenario.fresh))
           (ttl_config Scenario.fresh)
           (mk_stats (hits (stats Scenario.fresh) + 1)
                     (misses (stats Scenario.fresh))
                     (sets (stats Scenario.fresh) + 1)
                     (evictions (stats Scenario.fresh)))).
Proof.
  apply (set_then_get_returns_the_value Scenario.fresh 1000 1060 300).
  - vm_compute; reflexivity.
  - vm_compute. discriminate.
Defined.

(** ** What [set] leaves alone *)

Lemma get_result_depends_on_entry {arg V : Type} `{KeyCodec arg}
    (self1 self2 : t V) (now dflt : Q) (cache_type : string)
    (args : list arg) (kwargs : list (string * arg)) :
  ttl_config self1 !! "default"%string = Some dflt ->
  ttl_config self2 = ttl_config self1 ->
  cache self2 !! _generate_key cache_type args kwargs
  = cache self1 !! _generate_key cache_type args kwargs ->
  exists (r : option V) (s1 s2 : t V),
    get self1 now cache_type args kwargs = Ok (r, s1)
    /\ get self2 now cache_type args kwargs = Ok (r, s2).
Proof.
  intros Hd Hcfg Hlook.
  assert (Hd2 : ttl_config self2 !! "default"%string = Some dflt)
    by (now rewrite Hcfg).
  rewrite (get_cases self1 now dflt cache_type args kwargs Hd).
  rewrite (get_cases self2 now dflt cache_type args kwargs Hd2).
  rewrite Hlook, Hcfg.
  destruct (cache self1 !! _generate_key cache_type args kwargs)
    as [[data timestamp] |]; [destruct (Qlt_le_dec _ _) |]; eauto.
Qed.

(** A second [set] for the same category and arguments replaces the entry:
    the store is the one a single [set] of the later value gives, so the
    number of entries grows by one at most, while every [set] is counted.
    A [set] never changes the entry of another key; in particular a [set]
    under one category never changes what [get] returns under another. *)
Theorem set_overwrites_and_frames {arg V : Type} `{KeyCodec arg}
    (self : t V) (t1 t2 : Q) (cache_type : string) (v1 v2 : V)
    (args : list arg) (kwargs : list (string * arg)) :
  cache (set (set self t1 cache_type v1 args kwargs)
             t2 cache_type v2 args kwargs)
  = cache (set self t2 cache_type v2 args kwargs)
  /\ sets (stats (set (set self t1 cache_type v1 args kwargs)
                      t2 cache_type v2 args kwargs))
     = (sets (stats self) + 2)%Z
  /\ (size (cache self) <= size (cache (set self t1 cache_type v1 args kwargs))
      <= size (cache self) + 1)%nat
  /\ (is_Some (cache self !! _generate_key cache_type args kwargs) ->
      size (cache (set self t1 cache_type v1 args kwargs))
      = size (cache self))
  /\ (forall key : string,
        key <> _generate_key cache_type args kwargs ->
        cache (set self t1 cache_type v1 args kwargs) !! key
        = cache self !! key)
  /\ (forall (other : string) (args' : list arg)
             (kwargs' : list (string * arg)) (now dflt : Q),
        other <> cache_type ->
        ttl_config self !! "default"%string = Some dflt ->
        exists (r : option V) (s s' : t V),
          get self now other args' kwargs' = Ok (r, s)
          /\ get (set self t1 cache_type v1 args kwargs) now other args' kwargs'
             = Ok (r, s')).
Proof.
  split; [unfold set; cbn; apply insert_insert_eq |].
  split; [unfold set; cbn; lia |].
  assert (Hsize : forall x : option (V * Q),
             cache self !! _generate_key cache_type args kwargs = x ->
             size (cache (set self t1 cache_type v1 args kwargs))
             = match x with
               | Some _ => size (cache self)
               | None => S (size (cache self))
               end).
  { intros x Hx. unfold set. cbn. destruct x as [y |].
    - apply map_size_insert_Some. rewrite Hx. eauto.
    - now apply map_size_insert_None. }
  split.
  { rewrite (Hsize _ eq_refl).
    destruct (cache self !! _generate_key cache_type args kwargs); lia. }
  split.
  { intros [y Hy]. now rewrite (Hsize _ Hy). }
  split.
  { intros key Hne. unfold set. cbn. now apply lookup_insert_ne. }
  intros other args' kwargs' now dflt Hne Hd.
  apply (get_result_depends_on_entry self
           (set self t1 cache_type v1 args kwargs) now dflt other args' kwargs'
           Hd eq_refl).
  unfold set. cbn. apply lookup_insert_ne.
  intros Heq. apply Hne. symmetry. now apply generate_key_category in Heq.
Qed.

(** ** [delete] *)

(** [delete] returns [True] exactly when the store holds an entry for the
    derived key, expired or not; afterwards the key is absent and every
    other entry is as before, so the store shrinks by one entry or not at
    all. Deleting again returns [False], and a [get] that follows is a miss.
    The counters and the TTL configuration are not touched. *)
Theorem delete_removes_exactly_one_entry {arg V : Type} `{KeyCodec arg}
    (self : t V) (cache_type : string) (args : list arg)
    (kwargs : list (string * arg)) :
  (fst (delete_entry self cache_type args kwargs) = true
   <-> is_Some (cache self !! _generate_key cache_type args kwargs))
  /\ cache (snd (delete_entry self cache_type args kwargs))
       !! _generate_key cache_type args kwargs = None
  /\ (forall key : string,
        key <> _generate_key cache_type args kwargs ->
        cache (snd (delete_entry self cache_type args kwargs)) !! key
        = cache self !! key)
  /\ (Z.of_nat (size (cache (snd (delete_entry self cache_type args kwargs))))
      = Z.of_nat (size (cache self))
        - (if fst (delete_entry self cache_type args kwargs) then 1 else 0))%Z
  /\ stats (snd (delete_entry self cache_type args kwargs)) = stats self
  /\ ttl_config (snd (delete_entry self cache_type args kwargs))
     = ttl_config self
  /\ fst (delete_entry (snd (delete_entry self cache_type args kwargs))
            cache_type args kwargs) = false
  /\ (forall now : Q,
        get (snd (delete_entry self cache_type args kwargs))
            now cache_type args kwargs
        = Ok (None,
              mk (cache (snd (delete_entry self cache_type args kwargs)))
                 (ttl_config self)
                 (mk_stats (hits (stats self)) (misses (stats self) + 1)
                           (sets (stats self)) (evictions (stats self))))).
Proof.
  assert (Hnone : cache (snd (delete_entry self cache_type args kwargs))
                    !! _generate_key cache_type args kwargs = None).
  { unfold delete_entry. cbv zeta.
    destruct (cache self !! _generate_key cache_type args kwargs) eqn:Hx;
      cbn; [apply lookup_delete_eq | exact Hx]. }
  split.
  { unfold delete_entry. cbv zeta.
    destruct (cache self !! _generate_key cache_type args kwargs); cbn.
    - split; eauto.
    - split; [discriminate | intros [x Hx]; discriminate]. }
  split; [exact Hnone |].
  split.
  { intros key Hne. unfold delete_entry. cbv zeta.
    destruct (cache self !! _generate_key cache_type args kwargs); cbn;
      [now apply lookup_delete_ne | reflexivity]. }
  split.
  { unfold delete_entry. cbv zeta.
    destruct (cache self !! _generate_key cache_type args kwargs) eqn:Hx; cbn.
    - rewrite map_size_delete_Some by eauto.
      assert (size (cache self) <> 0%nat).
      { intros Hz. apply map_size_empty_inv in Hz.
        rewrite Hz, lookup_empty in Hx. discriminate. }
      lia.
    - lia. }
  split.
  { unfold delete_entry. cbv zeta.
    now destruct (cache self !! _generate_key cache_type args kwargs). }
  split.
  { unfold delete_entry. cbv zeta.
    now destruct (cache self !! _generate_key cache_type args kwargs). }
  split.
  { unfold delete_entry at 1. cbv zeta. now rewrite Hnone. }
  intros now. unfold get. cbv zeta. rewrite Hnone.
  unfold delete_entry. cbv zeta.
  now destruct (cache self !! _generate_key cache_type args kwargs).
Qed.

(** ** [cleanup_expired] *)

Lemma filter_none {A : Type} (f : A -> bool) (l : list A) :
  (forall x : A, In x l -> f x = false) -> List.filter f l = [].
Proof.
  induction l as [| a l IH]; intros Hall; [reflexivity |].
  cbn [List.filter]. rewrite (Hall a) by (left; reflexivity).
  apply IH. intros x Hx. apply Hall. now right.
Qed.

(** The result of [cleanup_expired] when a default TTL is configured. *)
Lemma cleanup_expired_ok {V : Type} (self : t V) (clock : string -> Q)
    (dflt : Q) :
  ttl_config self !! "default"%string = Some dflt ->
  cleanup_expired self clock
  = Ok (Z.of_nat
          (length
             (map fst
                (List.filter
                   (fun kv =>
                      if Qlt_le_dec
                           (default dflt
                              (ttl_config self !! before_colon (fst kv)))
                           (clock (fst kv) - snd (snd kv))
                      then true else false)
                   (map_to_list (cache self))))),
        mk (delete_all
              (map fst
                 (List.filter
                    (fun kv =>
                       if Qlt_le_dec
                            (default dflt
                               (ttl_config self !! before_colon (fst kv)))
                            (clock (fst kv) - snd (snd kv))
                       then true else false)
                    (map_to_list (cache self))))
              (cache self))
           (ttl_config self)
           (add_evictions
              (Z.of_nat
                 (length
                    (map fst
                       (List.filter
                          (fun kv =>
                             if Qlt_le_dec
                                  (default dflt
                                     (ttl_config self
                                        !! before_colon (fst kv)))
                                  (clock (fst kv) - snd (snd kv))
                             then true else false)
                          (map_to_list (cache self))))))
              (stats self))).
Proof.
  intros Hd. unfold cleanup_expired.
  now rewrite (expired_among_ok self clock dflt _ Hd).
Qed.

(** Cleaning up twice with the same readings of the clock removes nothing
    the second time: the second call returns 0 and leaves the manager as
    the first one left it. *)
Theorem cleanup_expired_is_idempotent {V : Type} (self : t V)
    (clock : string -> Q) (dflt : Q) :
  ttl_config self !! "default"%string = Some dflt ->
  exists (n : Z) (self' : t V),
    cleanup_expired self clock = Ok (n, self')
    /\ (0 <= n <= Z.of_nat (size (cache self)))%Z
    /\ cleanup_expired self' clock = Ok (0%Z, self').
Proof.
  intros Hd. rewrite (cleanup_expired_ok self clock dflt Hd).
  set (f := fun kv : string * (V * Q) =>
              if Qlt_le_dec
                   (default dflt (ttl_config self !! before_colon (fst kv)))
                   (clock (fst kv) - snd (snd kv))
              then true else false).
  destruct (expired_keys_spec f (cache self)) as [Hnd Hin].
  eexists. eexists. split; [reflexivity |]. split.
  { split; [lia |].
    rewrite <- (delete_all_size _ (cache self) Hnd); [lia |].
    intros key Hkey. apply Hin in Hkey as [x [Hx _]]. eauto. }
  match goal with
  | |- cleanup_expired ?s clock = _ =>
      assert (Hd' : ttl_config s !! "default"%string = Some dflt) by exact Hd;
      rewrite (cleanup_expired_ok s clock dflt Hd')
  end.
  cbn [cache ttl_config stats]. fold f.
  assert (Hnil : List.filter f
                   (map_to_list
                      (delete_all (map fst (List.filter f (map_to_list (cache self))))
                                  (cache self))) = []).
  { apply filter_none. intros [key x] Hx.
    apply list_elem_of_In, elem_of_map_to_list in Hx.
    rewrite delete_all_lookup in Hx.
    destruct (decide _) as [_ | Hkey]; [discriminate |].
    destruct (f (key, x)) eqn:Hf; [| reflexivity].
    exfalso. apply Hkey, Hin. eauto. }
  rewrite Hnil. cbn [map length delete_all foldl].
  unfold add_evictions. cbn [hits misses sets evictions].
  now rewrite Z.add_0_r.
Qed.

Lemma cleanup_expired_is_idempotent_witness :
  exists (n : Z) (self' : t nat),
    cleanup_expired Scenario.written_at_1000 (fun _ => 1061%Q) = Ok (n, self')
    /\ (0 <= n <= Z.of_nat (size (cache Scenario.written_at_1000)))%Z
    /\ cleanup_expired self' (fun _ => 1061%Q) = Ok (0%Z, self').
Proof.
  apply (cleanup_expired_is_idempotent Scenario.written_at_1000
           (fun _ => 1061%Q) 300).
  vm_compute; reflexivity.
Defined.

(** ** [get_stats] *)

Lemma round2_0 : round2 0 = 0%R.
Proof.
  unfold round2. rewrite (PyFacts.round_half_even_near _ 0); simpl; lra.
Qed.

Lemma round2_100 : round2 100 = 100%R.
Proof.
  unfold round2. rewrite (PyFacts.round_half_even_near _ 10000); simpl; lra.
Qed.

Lemma hit_rate_range {V : Type} (self : t V) :
  (0 <= hits (stats self))%Z ->
  (0 <= misses (stats self))%Z ->
  (0 <= hit_rate_percent (get_stats self) <= 100)%R.
Proof.
  intros Hh Hm. unfold get_stats. cbn.
  set (h := hits (stats self)) in *. set (m := misses (stats self)) in *.
  clearbody h m.
  destruct (Z.gtb_spec (h + m) 0) as [Hpos | Hzero].
  - assert (Ht : (0 < IZR (h + m))%R) by (apply IZR_lt; lia).
    assert (Hh' : (0 <= IZR h)%R) by (apply IZR_le; lia).
    assert (Hle : (IZR h <= IZR (h + m))%R) by (apply IZR_le; lia).
    assert (Hq0 : (0 <= IZR h / IZR (h + m))%R).
    { apply Rmult_le_pos; [exact Hh' |].
      left. now apply Rinv_0_lt_compat. }
    assert (Hq1 : (IZR h / IZR (h + m) <= 1)%R).
    { apply (Rmult_le_reg_r (IZR (h + m))); [exact Ht |].
      unfold Rdiv. rewrite Rmult_assoc, Rinv_l by lra. lra. }
    split.
    + apply (PyFacts.round2_ge _ 0). simpl. nra.
    + apply (PyFacts.round2_le _ 100). simpl. nra.
  - rewrite round2_0. lra.
Qed.

(** With counters that are not negative, the hit rate reported by
    [get_stats] is a percentage between 0 and 100; it is 0 when no request
    was made (the division is not attempted) and 100 when every request was
    a hit. The number of requests is hits plus misses. *)
Theorem get_stats_hit_rate_is_a_percentage {V : Type} (self : t V) :
  (0 <= hits (stats self))%Z ->
  (0 <= misses (stats self))%Z ->
  total_requests (get_stats self)
  = (hits (stats self) + misses (stats self))%Z
  /\ total_entries (get_stats self) = Z.of_nat (size (cache self))
  /\ (0 <= hit_rate_percent (get_stats self) <= 100)%R
  /\ ((hits (stats self) + misses (stats self))%Z = 0%Z ->
      hit_rate_percent (get_stats self) = 0%R)
  /\ (hits (stats self) = 0%Z -> hit_rate_percent (get_stats self) = 0%R)
  /\ (misses (stats self) = 0%Z -> (0 < hits (stats self))%Z ->
      hit_rate_percent (get_stats self) = 100%R).
Proof.
  intros Hh Hm.
  split; [reflexivity |]. split; [reflexivity |].
  split; [now apply hit_rate_range |].
  unfold get_stats. cbn.
  set (h := hits (stats self)) in *. set (m := misses (stats self)) in *.
  clearbody h m.
  destruct (Z.gtb_spec (h + m) 0) as [Hpos | Hzero].
  - assert (Ht : (0 < IZR (h + m))%R) by (apply IZR_lt; lia).
    split; [intros Hz; lia |].
    split.
    + intros Hz. rewrite Hz. unfold Rdiv. rewrite !Rmult_0_l. apply round2_0.
    + intros Hz _. rewrite Hz, Z.add_0_r in *.
      replace (IZR h / IZR h * 100)%R with 100%R; [apply round2_100 |].
      field. lra.
  - rewrite round2_0. split; [reflexivity |].
    split; [reflexivity |]. intros Hz Hpos. lia.
Qed.

Lemma get_stats_hit_rate_is_a_percentage_witness :
  total_requests (get_stats (mk (∅ : gmap string (nat * Q)) ∅ (mk_stats 3 1 4 0)))
  = (3 + 1)%Z
  /\ (0 <= hit_rate_percent
             (get_stats (mk (∅ : gmap string (nat * Q)) ∅ (mk_stats 3 1 4 0)))
      <= 100)%R.
Proof.
  destruct (get_stats_hit_rate_is_a_percentage
              (mk (∅ : gmap string (nat * Q)) ∅ (mk_stats 3 1 4 0)))
    as [Ht [_ [Hr _]]]; [cbn; lia | cbn; lia |].
  split; [exact Ht | exact Hr].
Defined.

(** ** [get_size_info] *)

(** For a key that holds a colon and a category name that holds none, the
    part of the key before its first colon is the category exactly when
    the key starts with the category and a colon. *)
Lemma before_colon_startswith (c key : string) :
  has_colon c = false -> has_colon key = true ->
  String.eqb (before_colon key) c = startswith key (c ++ ":").
Proof.
  unfold startswith. revert key.
  induction c as [| b c IH]; intros [| a key] Hc Hk; try discriminate.
  - rewrite string_app_nil.
    change (":"%string) with (String ":" EmptyString).
    rewrite prefix_cons, prefix_nil_l. cbn [before_colon].
    rewrite (Ascii.eqb_sym ":" a). now destruct (Ascii.eqb a ":").
  - rewrite string_app_cons, prefix_cons. cbn [before_colon has_colon] in *.
    apply orb_false_elim in Hc as [Hb Hc].
    destruct (Ascii.eqb a ":") eqn:Ha.
    + apply Ascii.eqb_eq in Ha as ->. rewrite Hb. reflexivity.
    + cbn [orb] in Hk. cbn [String.eqb]. rewrite (Ascii.eqb_sym b a).
      destruct (Ascii.eqb a b); [now apply IH | reflexivity].
Qed.

Lemma before_colon_app (c d : string) :
  before_colon (c ++ ":" ++ d) = before_colon c.
Proof.
  induction c as [| a c IH]; [reflexivity |].
  rewrite string_app_cons.
  change (before_colon (String a (c ++ ":" ++ d)))
    with (if Ascii.eqb a ":" then EmptyString
          else String a (before_colon (c ++ ":" ++ d))).
  now rewrite IH.
Qed.

(** The loop of [get_size_info]: the count of a category grows by the
    number of keys whose first segment it is. *)
Lemma count_keys_spec (keys : list string) (counts : gmap string Z)
    (c : string) :
  default 0%Z (foldl count_key counts keys !! c)
  = (default 0%Z (counts !! c)
     + Z.of_nat (length (List.filter
                           (fun key => String.eqb (before_colon key) c)
                           keys)))%Z.
Proof.
  revert counts. induction keys as [| k keys IH]; intros counts.
  - cbn. lia.
  - cbn [foldl List.filter]. rewrite IH. unfold count_key. cbv zeta.
    destruct (String.eqb (before_colon k) c) eqn:Hk.
    + apply String.eqb_eq in Hk. rewrite Hk, lookup_insert_eq.
      simpl. lia.
    + apply String.eqb_neq in Hk. rewrite lookup_insert_ne by exact Hk.
      lia.
Qed.

Lemma count_keys_present (keys : list string) (counts : gmap string Z)
    (c : string) :
  is_Some (foldl count_key counts keys !! c)
  <-> is_Some (counts !! c) \/ exists key : string,
        In key keys /\ before_colon key = c.
Proof.
  revert counts. induction keys as [| k keys IH]; intros counts.
  - cbn. split; [auto | intros [? | [key [[] _]]]; assumption].
  - cbn [foldl]. rewrite IH. unfold count_key. cbv zeta. split.
    + intros [Hs | [key [Hin Hkey]]].
      * destruct (decide (before_colon k = c)) as [Heq | Hne].
        -- right. exists k. split; [now left | exact Heq].
        -- left. now rewrite lookup_insert_ne in Hs.
      * right. exists key. split; [now right | exact Hkey].
    + intros [Hs | [key [[-> | Hin] Hkey]]].
      * left. destruct (decide (before_colon k = c)) as [Heq | Hne].
        -- rewrite Heq, lookup_insert_eq. eauto.
        -- now rewrite lookup_insert_ne.
      * left. rewrite Hkey, lookup_insert_eq. eauto.
      * right. eauto.
Qed.

Lemma keys_of_store {V : Type} (self : t V) (key : string) :
  In key (map fst (map_to_list (cache self)))
  <-> is_Some (cache self !! key).
Proof.
  rewrite in_map_iff. split.
  - intros [[k x] [Hk Hin]]. cbn in Hk. subst k.
    apply list_elem_of_In, elem_of_map_to_list in Hin. eauto.
  - intros [x Hx]. exists (key, x). split; [reflexivity |].
    now apply list_elem_of_In, elem_of_map_to_list.
Qed.

Lemma size_info_matches_clear_by_type {V : Type} (self : t V) (c : string) :
  has_colon c = false ->
  (forall key : string, is_Some (cache self !! key) -> has_colon key = true) ->
  default 0%Z (get_size_info self !! c) = fst (clear_by_type self c).
Proof.
  intros Hc Hall.
  unfold get_size_info. rewrite count_keys_spec, lookup_empty.
  simpl default. unfold clear_by_type. cbn [fst]. rewrite Z.add_0_l.
  do 2 f_equal. apply List.filter_ext_in. intros key Hin.
  apply before_colon_startswith; [exact Hc |]. now apply Hall, keys_of_store.
Qed.

(** [get_size_info] groups the entries by the part of the key before its
    first colon: a category is listed exactly when some stored key has it
    as first segment, always with a count of at least 1, and an entry
    written under a category is counted under the first segment of the
    category name. When every stored key holds a colon, as every derived
    key does, the count listed for a colon-free category is the number of
    entries [clear_by_type] removes for it. *)
Theorem get_size_info_counts_first_segments {arg V : Type} `{KeyCodec arg}
    (self : t V) :
  (forall c : string,
      is_Some (get_size_info self !! c)
      <-> exists key : string,
          is_Some (cache self !! key) /\ before_colon key = c)
  /\ (forall (c : string) (n : Z),
        get_size_info self !! c = Some n -> (1 <= n)%Z)
  /\ (forall (cache_type : string) (args : list arg)
             (kwargs : list (string * arg)),
        before_colon (_generate_key cache_type args kwargs)
        = before_colon cache_type)
  /\ (forall c : string,
        has_colon c = false ->
        (forall key : string,
            is_Some (cache self !! key) -> has_colon key = true) ->
        default 0%Z (get_size_info self !! c) = fst (clear_by_type self c)
        /\ default 0%Z (get_size_info self !! c)
           = Z.of_nat (entries_under (cache self) c)).
Proof.
  pose proof (keys_of_store self) as Hkeys.
  split.
  { intros c. unfold get_size_info. rewrite count_keys_present. split.
    - intros [[x Hx] | [key [Hin Hkey]]].
      + rewrite lookup_empty in Hx. discriminate.
      + exists key. split; [now apply Hkeys | exact Hkey].
    - intros [key [Hin Hkey]]. right. exists key.
      split; [now apply Hkeys | exact Hkey]. }
  split.
  { intros c n Hn.
    pose proof (count_keys_spec (map fst (map_to_list (cache self))) ∅ c)
      as Hcount.
    fold (get_size_info self) in Hcount.
    rewrite Hn, lookup_empty in Hcount.
    assert (Hsome : is_Some (get_size_info self !! c)) by eauto.
    unfold get_size_info in Hsome. apply count_keys_present in Hsome.
    destruct Hsome as [[x Hx] | [key [Hin Hkey]]].
    - rewrite lookup_empty in Hx. discriminate.
    - assert (Hf : In key (List.filter
                             (fun key => String.eqb (before_colon key) c)
                             (map fst (map_to_list (cache self))))).
      { apply List.filter_In. split; [exact Hin |].
        now apply String.eqb_eq. }
      destruct (List.filter _ _) as [| k l]; [destruct Hf |].
      cbn [length] in Hcount. rewrite Nat2Z.inj_succ in Hcount.
      simpl in Hcount. lia. }
  split.
  { intros cache_type args kwargs. unfold _generate_key. cbv zeta.
    apply before_colon_app. }
  intros c Hc Hall.
  pose proof (size_info_matches_clear_by_type self c Hc Hall) as Hfirst.
  split; [exact Hfirst |].
  rewrite Hfirst. apply clear_by_type_returns_entries_under.
Qed.

(** ** What every call keeps *)





(** ** [cleanup_expired] and [get] *)

Lemma before_colon_colon_free (c : string) :
  has_colon c = false -> before_colon c = c.
Proof.
  induction c as [| a c IH]; [reflexivity |].
  cbn [has_colon before_colon]. intros Hc.
  apply orb_false_elim in Hc as [Ha Hc]. rewrite Ha. now rewrite IH.
Qed.

(** For a category whose name holds no colon, [cleanup_expired] and [get]
    judge an entry by the same TTL. So a clean-up never changes what a
    [get] made at the same reading of the clock returns, and after the
    clean-up that [get] finds nothing left to evict. *)
Theorem cleanup_expired_agrees_with_get {arg V : Type} `{KeyCodec arg}
    (self : t V) (now dflt : Q) :
  ttl_config self !! "default"%string = Some dflt ->
  exists (n : Z) (self1 : t V),
    cleanup_expired self (fun _ => now) = Ok (n, self1)
    /\ forall (cache_type : string) (args : list arg)
              (kwargs : list (string * arg)),
        has_colon cache_type = false ->
        exists (r : option V) (self2 self3 : t V),
          get self now cache_type args kwargs = Ok (r, self2)
          /\ get self1 now cache_type args kwargs = Ok (r, self3)
          /\ evictions (stats self3) = evictions (stats self1)
          /\ cache self3 = cache self1.
Proof.
  intros Hd. rewrite (cleanup_expired_ok self (fun _ => now) dflt Hd).
  set (f := fun kv : string * (V * Q) =>
              if Qlt_le_dec
                   (default dflt (ttl_config self !! before_colon (fst kv)))
                   (now - snd (snd kv))
              then true else false).
  destruct (expired_keys_spec f (cache self)) as [_ Hin].
  eexists. eexists. split; [reflexivity |].
  intros cache_type args kwargs Hc.
  assert (Hcat : before_colon (_generate_key cache_type args kwargs)
                 = cache_type).
  { unfold _generate_key. cbv zeta.
    rewrite before_colon_app. now apply before_colon_colon_free. }
  rewrite (get_cases self now dflt cache_type args kwargs Hd).
  match goal with
  | |- context [get ?s now cache_type args kwargs] =>
      assert (Hd1 : ttl_config s !! "default"%string = Some dflt) by exact Hd;
      rewrite (get_cases s now dflt cache_type args kwargs Hd1)
  end.
  cbn [cache ttl_config stats]. rewrite delete_all_lookup.
  destruct (cache self !! _generate_key cache_type args kwargs)
    as [[data timestamp] |] eqn:Hx.
  - destruct (Qlt_le_dec (default dflt (ttl_config self !! cache_type))
                         (now - timestamp)) as [Hold | Hfresh] eqn:Hdec.
    + rewrite decide_True.
      * eexists. eexists. eexists. repeat split; reflexivity.
      * apply Hin. exists (data, timestamp). split; [exact Hx |].
        unfold f. cbn [fst snd]. rewrite Hcat, Hdec. reflexivity.
    + rewrite decide_False.
      * rewrite Hdec.
        eexists. eexists. eexists. repeat split; reflexivity.
      * intros Hkey. apply Hin in Hkey as [y [Hy Hf]].
        assert (y = (data, timestamp)) by congruence. subst y.
        unfold f in Hf. cbn [fst snd] in Hf.
        rewrite Hcat, Hdec in Hf. discriminate.
  - destruct (decide _);
      eexists; eexists; eexists; repeat split; reflexivity.
Qed.

Lemma cleanup_expired_agrees_with_get_witness :
  exists (n : Z) (self1 : t nat),
    cleanup_expired Scenario.written_at_1000 (fun _ => 1061%Q) = Ok (n, self1)
    /\ forall (cache_type : string) (args : list Json.pyarg)
              (kwargs : list (string * Json.pyarg)),
        has_colon cache_type = false ->
        exists (r : option nat) (self2 self3 : t nat),
          get Scenario.written_at_1000 1061 cache_type args kwargs
          = Ok (r, self2)
          /\ get self1 1061 cache_type args kwargs = Ok (r, self3)
          /\ evictions (stats self3) = evictions (stats self1)
          /\ cache self3 = cache self1.
Proof.
  apply (cleanup_expired_agrees_with_get Scenario.written_at_1000 1061 300).
  vm_compute; reflexivity.
Defined.

End CacheManagerLaws.

(** * The configuration and the TTLs of the manager *)

Module ConfigFacts.
Import Py CacheManager CacheManagerFacts.

Lemma ttl_key_not (cache_type other : string) :
  cache_type <> other ->
  ("cache_ttl_" ++ cache_type)%string <> ("cache_ttl_" ++ other)%string.
Proof.
  intros Hne Heq. apply Hne.
  repeat rewrite string_app_cons in Heq. rewrite !string_app_nil in Heq.
  now injection Heq.
Qed.

Lemma get_cache_ttl_cases (config : gmap string Config.value)
    (weather cities : Z) (dbg level : Config.value) (cache_type : string) :
  config
  = <["debug"%string := dbg]>
      (<["cache_ttl_weather"%string := Config.VInt weather]>
         (<["cache_ttl_cities"%string := Config.VInt cities]>
            (<["log_level"%string := level]> ∅))) ->
  Config.get_cache_ttl config cache_type
  = Config.VInt (if String.eqb cache_type "weather" then weather
                 else if String.eqb cache_type "cities" then cities
                 else 300).
Proof.
  intros ->. unfold Config.get_cache_ttl, Config.get.
  assert (Hd : ("cache_ttl_" ++ cache_type)%string <> "debug"%string).
  { rewrite string_app_cons. discriminate. }
  assert (Hl : ("cache_ttl_" ++ cache_type)%string <> "log_level"%string).
  { rewrite string_app_cons. discriminate. }
  rewrite lookup_insert_ne by congruence.
  destruct (String.eqb cache_type "weather") eqn:Hw.
  { apply String.eqb_eq in Hw as ->.
    change ("cache_ttl_" ++ "weather")%string with "cache_ttl_weather"%string.
    now rewrite lookup_insert_eq. }
  apply String.eqb_neq in Hw.
  rewrite lookup_insert_ne
    by (intros Heq; apply (ttl_key_not cache_type "weather" Hw); now rewrite <- Heq).
  destruct (String.eqb cache_type "cities") eqn:Hc.
  { apply String.eqb_eq in Hc as ->.
    change ("cache_ttl_" ++ "cities")%string with "cache_ttl_cities"%string.
    now rewrite lookup_insert_eq. }
  apply String.eqb_neq in Hc.
  rewrite lookup_insert_ne
    by (intros Heq; apply (ttl_key_not cache_type "cities" Hc); now rewrite <- Heq).
  rewrite lookup_insert_ne by congruence.
  now rewrite lookup_empty.
Qed.

(** Whatever the [ENVIRONMENT] variable holds, the configuration is found
    (a name that is not an environment falls back to development), and
    [get_cache_ttl] answers 1800 or 60 for weather, 3600 or 300 for cities,
    and the fallback 300 for every other category, geocoding included. A
    manager built from these readings keeps the weather and geocoding TTLs
    it was given and 86400 for cities; every other category, such as
    [sun_position] and [day_night_boundary], has no TTL of its own, so the
    default of 300 seconds applies to it. *)
Theorem cache_ttls_of_every_environment (env : string) :
  exists config : gmap string Config.value,
    Config.config_of env = Ok config
    /\ Config._detect_environment env
       = (if String.eqb env "production" then "production"
          else "development")%string
    /\ (forall cache_type : string,
          Config.get_cache_ttl config cache_type
          = Config.VInt
              (if String.eqb cache_type "weather"
               then (if String.eqb env "production" then 1800 else 60)
               else if String.eqb cache_type "cities"
               then (if String.eqb env "production" then 3600 else 300)
               else 300))
    /\ Config.get_cache_ttl config "geocoding" = Config.VInt 300
    /\ (forall (V : Type) (weather_ttl geocoding_ttl : Q) (cache_type : string),
          ttl_config (init (V := V) weather_ttl geocoding_ttl) !! cache_type
          = if String.eqb cache_type "weather" then Some weather_ttl
            else if String.eqb cache_type "geocoding" then Some geocoding_ttl
            else if String.eqb cache_type "cities" then Some 86400%Q
            else if String.eqb cache_type "default" then Some 300%Q
            else None)
    /\ (forall (V : Type) (weather_ttl geocoding_ttl now timestamp : Q),
          _is_expired (init (V := V) weather_ttl geocoding_ttl) now timestamp
            "sun_position"
          = Ok (if Qlt_le_dec 300 (now - timestamp) then true else false)
          /\ _is_expired (init (V := V) weather_ttl geocoding_ttl) now
               timestamp "day_night_boundary"
             = Ok (if Qlt_le_dec 300 (now - timestamp) then true else false)).
Proof.
  assert (Hinit : forall (V : Type) (weather_ttl geocoding_ttl : Q)
                         (cache_type : string),
             ttl_config (init (V := V) weather_ttl geocoding_ttl) !! cache_type
             = if String.eqb cache_type "weather" then Some weather_ttl
               else if String.eqb cache_type "geocoding" then Some geocoding_ttl
               else if String.eqb cache_type "cities" then Some 86400%Q
               else if String.eqb cache_type "default" then Some 300%Q
               else None).
  { intros V w g c. unfold init. cbn [ttl_config].
    destruct (String.eqb c "weather") eqn:H1.
    { apply String.eqb_eq in H1 as ->. apply lookup_insert_eq. }
    apply String.eqb_neq in H1. rewrite lookup_insert_ne by congruence.
    destruct (String.eqb c "geocoding") eqn:H2.
    { apply String.eqb_eq in H2 as ->. apply lookup_insert_eq. }
    apply String.eqb_neq in H2. rewrite lookup_insert_ne by congruence.
    destruct (String.eqb c "cities") eqn:H3.
    { apply String.eqb_eq in H3 as ->. apply lookup_insert_eq. }
    apply String.eqb_neq in H3. rewrite lookup_insert_ne by congruence.
    destruct (String.eqb c "default") eqn:H4.
    { apply String.eqb_eq in H4 as ->. apply lookup_insert_eq. }
    apply String.eqb_neq in H4. rewrite lookup_insert_ne by congruence.
    apply lookup_empty. }
  assert (Hexp : forall (V : Type) (weather_ttl geocoding_ttl now timestamp : Q)
                        (cache_type : string),
             String.eqb cache_type "weather" = false ->
             String.eqb cache_type "geocoding" = false ->
             String.eqb cache_type "cities" = false ->
             String.eqb cache_type "default" = false ->
             _is_expired (init (V := V) weather_ttl geocoding_ttl) now timestamp
               cache_type
             = Ok (if Qlt_le_dec 300 (now - timestamp) then true else false)).
  { intros V w g now ts c H1 H2 H3 H4. unfold _is_expired.
    rewrite (Hinit V w g "default"), (Hinit V w g c), H1, H2, H3, H4.
    reflexivity. }
  assert (Hdet : Config._detect_environment env
                 = (if String.eqb env "production" then "production"
                    else "development")%string).
  { unfold Config._detect_environment, Config.ENVIRONMENTS.
    destruct (String.eqb env "production") eqn:Hp.
    { apply String.eqb_eq in Hp as ->. reflexivity. }
    apply String.eqb_neq in Hp.
    destruct (decide (env = "development"%string)) as [-> | Hdev];
      [reflexivity |].
    rewrite lookup_insert_ne by congruence.
    rewrite lookup_insert_ne by congruence.
    now rewrite lookup_empty. }
  unfold Config.config_of. rewrite Hdet.
  destruct (String.eqb env "production") eqn:Hp.
  - unfold Config.ENVIRONMENTS.
    rewrite lookup_insert_ne by discriminate. rewrite lookup_insert_eq.
    eexists. split; [reflexivity |]. split; [reflexivity |].
    split; [intros c; apply (get_cache_ttl_cases _ _ _ _ _ c eq_refl) |].
    split; [apply (get_cache_ttl_cases _ _ _ _ _ "geocoding" eq_refl) |].
    split; [exact Hinit |].
    intros V w g now ts. split; now apply Hexp.
  - unfold Config.ENVIRONMENTS. rewrite lookup_insert_eq.
    eexists. split; [reflexivity |]. split; [reflexivity |].
    split; [intros c; apply (get_cache_ttl_cases _ _ _ _ _ c eq_refl) |].
    split; [apply (get_cache_ttl_cases _ _ _ _ _ "geocoding" eq_refl) |].
    split; [exact Hinit |].
    intros V w g now ts. split; now apply Hexp.
Qed.

End ConfigFacts.

(** * Laws of the astronomy engine *)

Module TimeServiceLaws.
Import Py PyFacts TimeService TimeServiceFacts.
Local Open Scope R_scope.

(** ** [calculate_hour_angle] *)

Lemma hour_angle_range_aux (longitude julian_day : R) :
  -180 < calculate_hour_angle longitude julian_day <= 180.
Proof.
  unfold calculate_hour_angle. cbv zeta.
  set (gha := fmod (280.460618 + _) 360).
  assert (Hr : 0 <= fmod (gha + longitude) 360 < 360)
    by (apply fmod_range; lra).
  destruct (Rlt_dec 180 (fmod (gha + longitude) 360)); lra.
Qed.


(** ** [calculate_solar_declination] *)

Lemma round2_le_hundredths (x : R) (k : Z) :
  x <= IZR k / 100 -> round2 x <= IZR k / 100.
Proof.
  intros Hx. unfold round2.
  assert (H : (round_half_even (x * 100) <= k)%Z)
    by (apply round_half_even_le; lra).
  apply IZR_le in H. lra.
Qed.

Lemma round2_ge_hundredths (x : R) (k : Z) :
  IZR k / 100 <= x -> IZR k / 100 <= round2 x.
Proof.
  intros Hx. unfold round2.
  assert (H : (k <= round_half_even (x * 100))%Z)
    by (apply round_half_even_ge; lra).
  apply IZR_le in H. lra.
Qed.

Lemma declination_within_obliquity (julian_day : R) :
  - EARTH_OBLIQUITY <= calculate_solar_declination julian_day
  <= EARTH_OBLIQUITY.
Proof.
  destruct (declination_radians julian_day) as (y & Hy & Hb).
  pose proof sin_obliquity_bounds as [Hs0 Hs1].
  pose proof PI_RGT_0 as Hpi. pose proof PI_4 as Hpi4.
  assert (Hob : - (PI / 2) <= radians EARTH_OBLIQUITY <= PI / 2).
  { unfold radians, EARTH_OBLIQUITY. lra. }
  apply Rabs_le_bounds in Hb.
  assert (Hup : asin y <= radians EARTH_OBLIQUITY).
  { rewrite <- (asin_sin (radians EARTH_OBLIQUITY)) by lra.
    apply asin_le; lra. }
  assert (Hlo : - radians EARTH_OBLIQUITY <= asin y).
  { rewrite <- (asin_sin (radians EARTH_OBLIQUITY)) by lra.
    rewrite <- asin_opp. apply asin_le; [| lra |].
    - pose proof (SIN_bound (radians EARTH_OBLIQUITY)). lra.
    - lra. }
  rewrite <- Hy in Hup, Hlo. unfold radians in Hup, Hlo.
  split; nra.
Qed.

Lemma solar_declination_range_aux (julian_day : R) :
  -23.44 <= calculate_solar_declination julian_day <= 23.44.
Proof.
  pose proof (declination_within_obliquity julian_day) as H.
  unfold EARTH_OBLIQUITY in H. lra.
Qed.

(** The solar declination never leaves the band of the obliquity: it lies
    between -23.44 and 23.44 degrees for every Julian day. *)
Theorem solar_declination_within_obliquity (julian_day : R) :
  -23.44 <= calculate_solar_declination julian_day <= 23.44.
Proof.
  pose proof (declination_within_obliquity julian_day) as H.
  unfold EARTH_OBLIQUITY in H. lra.
Qed.

(** ** [calculate_sun_position] *)

Lemma sin_triple_le (a : R) : 0 <= sin a -> sin (3 * a) <= 3 * sin a.
Proof.
  intros Hs. replace (3 * a) with (2 * a + a) by lra.
  rewrite sin_plus, sin_2a, cos_2a_sin.
  pose proof (sin2_cos2 a) as Hsc. unfold Rsqr in Hsc.
  assert (Hc : cos a * cos a <= 1) by nra.
  assert (H1 : 2 * sin a * cos a * cos a <= 2 * sin a) by nra.
  assert (H2 : 0 <= sin a * sin a * sin a) by (apply Rmult_le_pos; nra).
  nra.
Qed.

(** The sine of 5 degrees is at least a twelfth. *)
Lemma sin_PI36_bound : 1 / 12 <= sin (PI / 36).
Proof.
  pose proof PI_RGT_0 as Hpi. pose proof PI_4 as Hpi4.
  assert (Hs : 0 <= sin (PI / 36)) by (apply sin_ge_0; lra).
  pose proof (sin_triple_le (PI / 36) Hs) as H3.
  replace (3 * (PI / 36)) with (PI / 12) in H3 by lra.
  pose proof sin_PI12_bound. lra.
Qed.

(** The air mass of a sun between 5 and 90 degrees above the horizon. *)
Lemma air_mass_bounds (elevation : R) :
  0 < elevation <= 90 -> 90 - elevation < 85 ->
  cos (radians (90 - elevation)) <> 0
  /\ 1 <= 1 / cos (radians (90 - elevation)) <= 12.
Proof.
  intros [H0 H90] H85.
  pose proof PI_RGT_0 as Hpi. pose proof PI_4 as Hpi4.
  assert (Hz : radians (90 - elevation) = PI / 2 - radians elevation)
    by (unfold radians; lra).
  assert (He : PI / 36 < radians elevation <= PI / 2)
    by (unfold radians; split; nra).
  rewrite Hz.
  replace (cos (PI / 2 - radians elevation)) with (sin (radians elevation))
    by (rewrite cos_shift; f_equal; lra).
  assert (Hlow : sin (PI / 36) < sin (radians elevation))
    by (apply sin_increasing_1; lra).
  pose proof sin_PI36_bound as H36.
  pose proof (SIN_bound (radians elevation)) as [_ Hs1].
  set (s := sin (radians elevation)) in *.
  assert (Hs : 1 / 12 < s) by lra.
  split; [apply Rgt_not_eq; lra |]. split.
  - apply (Rmult_le_reg_r s); [lra |].
    unfold Rdiv. rewrite Rmult_assoc, Rinv_l by lra. lra.
  - apply (Rmult_le_reg_r s); [lra |].
    unfold Rdiv. rewrite Rmult_assoc, Rinv_l by lra. lra.
Qed.

(** The fields of a dictionary that the [try] block has computed. *)
Lemma sun_position_try_fields (err latitude longitude : R) (dt : datetime) :
  -1 <= elevation_sine latitude longitude dt + err <= 1 ->
  exists r : sun_position,
    sun_position_try err latitude longitude dt = Ok r
    /\ -90 <= sp_elevation r <= 90
    /\ 0 <= sp_zenith r <= 180
    /\ 0 <= sp_azimuth r <= 360
    /\ -23.44 <= sp_declination r <= 23.44
    /\ -180 <= sp_hour_angle r <= 180
    /\ sp_julian_day r = calculate_julian_day dt
    /\ (0 < sp_elevation r -> exists a : R, sp_air_mass r = Some a)
    /\ (sp_air_mass r = None -> sp_elevation r <= 0)
    /\ (forall a : R,
          sp_air_mass r = Some a ->
          (1 <= a <= 12 \/ a = 38)
          /\ 0 <= sp_elevation r /\ sp_is_daylight r = true).
Proof.
  intros Hin. unfold sun_position_try. unfold elevation_sine in Hin.
  cbv zeta in *.
  set (jd := calculate_julian_day dt) in *.
  set (x := _ + err) in *.
  unfold masin. rewrite in_unit_true by exact Hin.
  cbn [bind].
  set (elevation := degrees (asin x)).
  assert (Hel : -90 <= elevation <= 90).
  { subst elevation. pose proof (asin_bound x) as [H1 H2].
    pose proof (degrees_le _ _ H1) as H3. pose proof (degrees_le _ _ H2) as H4.
    unfold degrees in *. pose proof PI_RGT_0.
    replace (- (PI / 2) * 180 / PI) with (-90) in H3 by (field; lra).
    replace (PI / 2 * 180 / PI) with 90 in H4 by (field; lra). lra. }
  set (azimuth := fmod _ 360).
  assert (Haz : 0 <= azimuth < 360) by (apply fmod_range; lra).
  rewrite !degrees_radians.
  pose proof (solar_declination_range_aux jd) as Hdec.
  destruct (hour_angle_range_aux longitude jd) as [Hha1 Hha2].
  assert (Hre : -90 <= round2 elevation <= 90).
  { split; [apply (round2_ge _ (-90)) | apply (round2_le _ 90)]; lra. }
  assert (Hrz : 0 <= round2 (90 - elevation) <= 180).
  { split; [apply (round2_ge _ 0) | apply (round2_le _ 180)]; lra. }
  assert (Hra : 0 <= round2 azimuth <= 360).
  { split; [apply (round2_ge _ 0) | apply (round2_le _ 360)]; lra. }
  assert (Hrd : -23.44 <= round2 (calculate_solar_declination jd) <= 23.44).
  { split.
    - replace (-23.44) with (IZR (-2344) / 100) by lra.
      apply round2_ge_hundredths. lra.
    - replace 23.44 with (IZR 2344 / 100) by lra.
      apply round2_le_hundredths. lra. }
  assert (Hrh : -180 <= round2 (calculate_hour_angle longitude jd) <= 180).
  { split; [apply (round2_ge _ (-180)) | apply (round2_le _ 180)]; lra. }
  assert (Hdl : 0 < elevation ->
                (if Rlt_dec (-6) elevation then true else false) = true).
  { intros Hpos. destruct (Rlt_dec (-6) elevation); [reflexivity | lra]. }
  destruct (Rlt_dec 0 elevation) as [Hpos | Hnpos].
  - assert (Hre0 : 0 <= round2 elevation) by (apply (round2_ge _ 0); lra).
    destruct (Rlt_dec (90 - elevation) 85) as [Hz | Hz].
    + destruct (air_mass_bounds elevation) as [Hc [Ha1 Ha2]]; [lra | exact Hz |].
      unfold fdiv.
      destruct (Req_dec_T (cos (radians (90 - elevation))) 0) as [Hc0 | _];
        [contradiction |].
      cbn [bind option_map]. eexists. split; [reflexivity |].
      cbn [sp_elevation sp_zenith sp_azimuth sp_declination sp_hour_angle
           sp_julian_day sp_air_mass sp_is_daylight].
      repeat (split; [assumption || reflexivity |]).
      split; [intros _; eauto |].
      split; [discriminate |].
      intros a [= <-]. split.
      * left. split; [apply (round2_ge _ 1) | apply (round2_le _ 12)]; lra.
      * split; [exact Hre0 | now apply Hdl].
    + cbn [bind option_map]. eexists. split; [reflexivity |].
      cbn [sp_elevation sp_zenith sp_azimuth sp_declination sp_hour_angle
           sp_julian_day sp_air_mass sp_is_daylight].
      repeat (split; [assumption || reflexivity |]).
      split; [intros _; eauto |].
      split; [discriminate |].
      intros a [= <-]. split.
      * right. unfold round2.
        rewrite (round_half_even_near _ 3800); simpl; lra.
      * split; [exact Hre0 | now apply Hdl].
  - cbn [bind option_map]. eexists. split; [reflexivity |].
    cbn [sp_elevation sp_zenith sp_azimuth sp_declination sp_hour_angle
         sp_julian_day sp_air_mass sp_is_daylight].
    repeat (split; [assumption || reflexivity |]).
    assert (Hre0 : round2 elevation <= 0) by (apply (round2_le _ 0); lra).
    split; [intros Hgt; lra |].
    split; [intros _; exact Hre0 |].
    intros a Ha. discriminate.
Qed.

(** For every latitude, longitude and instant, and whatever the rounding
    of the sum handed to [math.asin], the dictionary returned by
    [calculate_sun_position] (computed by the [try] block when that sum is
    inside [[-1, 1]], the one of the [except] branch otherwise) has its
    fields in range: elevation within [-90, 90], zenith within [0, 180],
    azimuth within [0, 360], declination within the obliquity band, hour
    angle within [-180, 180]. The air mass is absent when the sun is not
    above the horizon; when present it is between 1 and 12, or the constant
    38 used for a sun less than 5 degrees up, and the daylight flag is then
    true. The Julian day is the one of the instant, except in the
    dictionary of the [except] branch. *)
Theorem sun_position_fields_in_range
    (err latitude longitude : R) (dt : datetime) :
  let r := calculate_sun_position None err latitude longitude dt in
  ((-1 <= elevation_sine latitude longitude dt + err <= 1
    /\ sun_position_try err latitude longitude dt = Ok r
    /\ sp_julian_day r = calculate_julian_day dt)
   \/ (~ (-1 <= elevation_sine latitude longitude dt + err <= 1)
       /\ r = sun_position_fallback))
  /\ -90 <= sp_elevation r <= 90
  /\ 0 <= sp_zenith r <= 180
  /\ 0 <= sp_azimuth r <= 360
  /\ -23.44 <= sp_declination r <= 23.44
  /\ -180 <= sp_hour_angle r <= 180
  /\ (0 < sp_elevation r -> exists a : R, sp_air_mass r = Some a)
  /\ (sp_air_mass r = None -> sp_elevation r <= 0)
  /\ (forall a : R,
        sp_air_mass r = Some a ->
        (1 <= a <= 12 \/ a = 38)
        /\ 0 <= sp_elevation r /\ sp_is_daylight r = true).
Proof.
  cbv zeta. unfold calculate_sun_position.
  destruct (Rle_dec (-1) (elevation_sine latitude longitude dt + err))
    as [H1 | H1];
    [destruct (Rle_dec (elevation_sine latitude longitude dt + err) 1)
       as [H2 | H2] |].
  - destruct (sun_position_try_fields err latitude longitude dt (conj H1 H2))
      as (r & -> & He & Hz & Ha & Hd & Hh & Hj & Hrest).
    split; [left; split; [lra | split; [reflexivity | exact Hj]] |].
    repeat (split; [assumption |]). exact Hrest.
  - rewrite sun_position_try_raises by lra.
    split; [right; split; [lra | reflexivity] |].
    cbn. repeat (split; [lra |]). discriminate.
  - rewrite sun_position_try_raises by lra.
    split; [right; split; [lra | reflexivity] |].
    cbn. repeat (split; [lra |]). discriminate.
Qed.

(** ** [get_solar_noon] *)

(** For a longitude from 179.999 West to 180 East the solar noon is
    returned on the date given, with seconds and microseconds cleared; its
    clock time is the solar noon hour [12 - longitude / 15] cut down to the
    minute. The cut is stated up to a thousandth of a minute on either
    side, and the range stops short of the antimeridian, because the double
    minute part of the program can fall on the other side of a whole minute
    (139 East gives 02:43 for a solar noon hour of 02:44), and the double
    solar noon hour can round to 24 next to 180 West. *)
Theorem solar_noon_of_a_valid_longitude (longitude : R) (date : datetime) :
  -179.999 <= longitude <= 180 ->
  exists noon : datetime,
    get_solar_noon longitude date = Ok noon
    /\ year noon = year date /\ month noon = month date
    /\ day noon = day date
    /\ (0 <= hour noon < 24)%Z /\ (0 <= minute noon < 60)%Z
    /\ second noon = 0%Z /\ microsecond noon = 0%Z
    /\ - (1 / 1000)
       < (12 - longitude / 15) * 60
         - (IZR (hour noon) * 60 + IZR (minute noon))
       < 1 + 1 / 1000.
Proof.
  intros [Hlo Hhi]. unfold get_solar_noon. cbv zeta.
  set (h := 12 - longitude / 15).
  assert (Hh : 0 <= h < 24) by (unfold h; lra).
  destruct (trunc_nonneg_bounds h) as [[Hh1 Hh2] Hh0]; [lra |].
  set (hours := trunc h) in *.
  assert (Hh24 : (hours < 24)%Z) by (apply lt_IZR; lra).
  rewrite Z.mod_small by lia.
  set (x := (h - IZR hours) * 60).
  assert (Hx : 0 <= x < 60) by (unfold x; lra).
  destruct (trunc_nonneg_bounds x) as [[Hm1 Hm2] Hm0]; [lra |].
  set (minutes := trunc x) in *.
  assert (Hm60 : (minutes < 60)%Z) by (apply lt_IZR; lra).
  rewrite replace_time_ok by lia. cbn [bind].
  destruct (Rle_dec 24 h) as [Hge | _]; [lra |].
  destruct (Rlt_dec h 0) as [Hlt | _]; [lra |].
  eexists. split; [reflexivity |]. cbn.
  repeat (split; [reflexivity || lia |]).
  unfold x in Hm1, Hm2. split; lra.
Qed.

Lemma solar_noon_of_a_valid_longitude_witness :
  exists noon : datetime,
    get_solar_noon 135 (utc 2024 6 21 10 30 15) = Ok noon
    /\ year noon = 2024%Z /\ month noon = 6%Z /\ day noon = 21%Z
    /\ (0 <= hour noon < 24)%Z /\ (0 <= minute noon < 60)%Z
    /\ second noon = 0%Z /\ microsecond noon = 0%Z
    /\ - (1 / 1000)
       < (12 - 135 / 15) * 60 - (IZR (hour noon) * 60 + IZR (minute noon))
       < 1 + 1 / 1000.
Proof.
  apply (solar_noon_of_a_valid_longitude 135 (utc 2024 6 21 10 30 15)). lra.
Defined.

(** At the ends of the range and beyond: longitude -180 gives midnight of
    the next day; a longitude east of 180 whose solar noon hour is a whole
    negative number gives that hour on the previous day; and one, up to a
    turn and a half past the antimeridian, whose solar noon hour falls
    short of a whole hour by more than a minute (by 1.001 minutes at least,
    which keeps the rounding of the double minute part out of the
    statement) makes [replace] raise [ValueError], which nothing catches. *)
Theorem solar_noon_outside_the_valid_range (date : datetime) :
  get_solar_noon (-180) date
  = next_day {| year := year date; month := month date; day := day date;
                hour := 0; minute := 0; second := 0; microsecond := 0 |}
  /\ get_solar_noon 195 date
     = prev_day {| year := year date; month := month date; day := day date;
                   hour := 23; minute := 0; second := 0; microsecond := 0 |}
  /\ (forall longitude : R,
        180 < longitude <= 720 ->
        (12 - longitude / 15 - IZR (trunc (12 - longitude / 15))) * 60
        <= -1 - 1 / 1000 ->
        get_solar_noon longitude date = Raise ValueError)
  /\ get_solar_noon 187.5 date = Raise ValueError.
Proof.
  assert (Hraise : forall longitude : R,
             180 < longitude <= 720 ->
             (12 - longitude / 15 - IZR (trunc (12 - longitude / 15))) * 60
             <= -1 - 1 / 1000 ->
             get_solar_noon longitude date = Raise ValueError).
  { intros longitude Hlon Hfrac. unfold get_solar_noon. cbv zeta.
    set (x := (12 - longitude / 15 - IZR (trunc (12 - longitude / 15))) * 60)
      in *.
    assert (Hx : x < 0) by lra.
    destruct (trunc_neg_bounds x Hx) as [[_ Hup] _].
    assert (Hmin : (trunc x < 0)%Z) by (apply lt_IZR; simpl; lra).
    now rewrite replace_time_negative_minute. }
  split; [| split; [| split; [exact Hraise |]]].
  - unfold get_solar_noon. cbv zeta.
    replace (12 - -180 / 15) with (IZR 24) by (simpl; lra).
    rewrite trunc_IZR.
    replace ((IZR 24 - IZR 24) * 60) with (IZR 0) by (simpl; lra).
    rewrite trunc_IZR. change (24 mod 24)%Z with 0%Z.
    rewrite replace_midnight. cbn [bind].
    destruct (Rle_dec 24 (IZR 24)) as [_ | Hn]; [reflexivity |].
    exfalso. apply Hn. simpl. lra.
  - unfold get_solar_noon. cbv zeta.
    replace (12 - 195 / 15) with (IZR (-1)) by (simpl; lra).
    rewrite trunc_IZR.
    replace ((IZR (-1) - IZR (-1)) * 60) with (IZR 0) by (simpl; lra).
    rewrite trunc_IZR. change (-1 mod 24)%Z with 23%Z.
    rewrite replace_time_ok by lia. cbn [bind].
    destruct (Rle_dec 24 (IZR (-1))) as [Hge | _]; [simpl in Hge; lra |].
    destruct (Rlt_dec (IZR (-1)) 0) as [_ | Hn]; [reflexivity |].
    exfalso. apply Hn. simpl. lra.
  - apply Hraise; [lra |].
    assert (Ht : trunc (12 - 187.5 / 15) = 0%Z).
    { apply trunc_neg; simpl; lra. }
    rewrite Ht. simpl. lra.
Qed.

(** ** [get_season_info] *)

Lemma month_cases (m : Z) :
  (1 <= m <= 12)%Z ->
  m = 1%Z \/ m = 2%Z \/ m = 3%Z \/ m = 4%Z \/ m = 5%Z \/ m = 6%Z
  \/ m = 7%Z \/ m = 8%Z \/ m = 9%Z \/ m = 10%Z \/ m = 11%Z \/ m = 12%Z.
Proof. lia. Qed.

(** The day of the year as the days before the month and the day of the
    month. *)
Lemma day_of_year_formula (y m d hh mm ss us : Z) :
  (1 <= m <= 12)%Z ->
  day_of_year (mk_datetime y m d hh mm ss us)
  = (d + nth (Z.to_nat (m - 1))
             [0; 31; 59; 90; 120; 151; 181; 212; 243; 273; 304; 334] 0
     + (if (2 <? m)%Z && is_leap y then 1 else 0))%Z.
Proof.
  intros Hm. unfold day_of_year. cbn [year month day].
  destruct (month_cases m Hm)
    as [-> | [-> | [-> | [-> | [-> | [-> | [-> | [-> | [-> | [-> | [-> | ->]]]]]]]]]]];
    unfold days_in_month; destruct (is_leap y);
    match goal with
    | |- (?a + d = d + ?b + ?c)%Z =>
        let va := eval vm_compute in a in
        let vb := eval vm_compute in b in
        let vc := eval vm_compute in c in
        change (va + d = d + vb + vc)%Z
    end; lia.
Qed.

Lemma valid_datetime_fields (dt : datetime) :
  valid_datetime dt = true ->
  (1 <= year dt <= 9999)%Z /\ (1 <= month dt <= 12)%Z
  /\ (1 <= day dt <= days_in_month (year dt) (month dt))%Z
  /\ (0 <= hour dt < 24)%Z /\ (0 <= minute dt < 60)%Z
  /\ (0 <= second dt < 60)%Z /\ (0 <= microsecond dt < 1000000)%Z.
Proof.
  unfold valid_datetime. rewrite !andb_true_iff.
  rewrite !Z.leb_le, !Z.ltb_lt. tauto.
Qed.

Ltac season_cases :=
  repeat match goal with
         | |- context [(?a >? ?b)%Z] => rewrite (Z.gtb_ltb a b)
         end;
  repeat match goal with
         | |- context [(?a <? ?b)%Z] => destruct (Z.ltb_spec a b)
         end;
  cbn [orb fst snd]; try reflexivity; try lia.

(** For a valid date, the day of the year lies between 1 and the length of
    the year, the two hemispheres are always given opposite seasons, and
    the declination reported is within the obliquity band. January and
    February are northern winter; July and August northern summer. The
    seasons change on fixed day numbers, so a calendar date can change
    season with the leap day: 20 March is northern spring in a leap year
    and winter otherwise, 21 December winter in a leap year and autumn
    otherwise. *)
Theorem season_info_of_a_valid_date (dt : datetime) :
  valid_datetime dt = true ->
  (1 <= si_day_of_year (get_season_info dt)
   <= (if is_leap (year dt) then 366 else 365))%Z
  /\ (month dt = 1%Z -> si_day_of_year (get_season_info dt) = day dt)
  /\ ((northern_hemisphere (get_season_info dt) = "Winter"%string
       /\ southern_hemisphere (get_season_info dt) = "Summer"%string)
      \/ (northern_hemisphere (get_season_info dt) = "Spring"%string
          /\ southern_hemisphere (get_season_info dt) = "Autumn"%string)
      \/ (northern_hemisphere (get_season_info dt) = "Summer"%string
          /\ southern_hemisphere (get_season_info dt) = "Winter"%string)
      \/ (northern_hemisphere (get_season_info dt) = "Autumn"%string
          /\ southern_hemisphere (get_season_info dt) = "Spring"%string))
  /\ ((month dt <= 2)%Z ->
      northern_hemisphere (get_season_info dt) = "Winter"%string)
  /\ ((7 <= month dt <= 8)%Z ->
      northern_hemisphere (get_season_info dt) = "Summer"%string)
  /\ (month dt = 3%Z -> day dt = 20%Z ->
      northern_hemisphere (get_season_info dt)
      = if is_leap (year dt) then "Spring"%string else "Winter"%string)
  /\ (month dt = 12%Z -> day dt = 21%Z ->
      northern_hemisphere (get_season_info dt)
      = if is_leap (year dt) then "Winter"%string else "Autumn"%string)
  /\ -23.44 <= solar_declination (get_season_info dt) <= 23.44
  /\ si_julian_day (get_season_info dt) = calculate_julian_day dt.
Proof.
  intros Hvalid.
  destruct (valid_datetime_fields dt Hvalid) as (_ & Hm & Hd & _).
  destruct dt as [y m d hh mm ss us]. cbn [year month day] in *.
  unfold get_season_info. cbv zeta.
  cbn [si_day_of_year northern_hemisphere southern_hemisphere
       solar_declination si_julian_day year month day].
  rewrite (day_of_year_formula y m d hh mm ss us Hm).
  assert (Hdec : -23.44
                 <= round2 (calculate_solar_declination
                              (calculate_julian_day
                                 (mk_datetime y m d hh mm ss us)))
                 <= 23.44).
  { pose proof (solar_declination_range_aux
                  (calculate_julian_day (mk_datetime y m d hh mm ss us))) as H.
    split.
    - replace (-23.44) with (IZR (-2344) / 100) by lra.
      apply round2_ge_hundredths. lra.
    - replace 23.44 with (IZR 2344 / 100) by lra.
      apply round2_le_hundredths. lra. }
  unfold days_in_month in Hd.
  destruct (month_cases m Hm)
    as [-> | [-> | [-> | [-> | [-> | [-> | [-> | [-> | [-> | [-> | [-> | ->]]]]]]]]]]];
    cbn in Hd;
    repeat match goal with
           | |- context [nth (Z.to_nat ?e) ?l ?z] =>
               let v := eval vm_compute in (nth (Z.to_nat e) l z) in
               change (nth (Z.to_nat e) l z) with v
           | |- context [(2 <? ?k)%Z] =>
               let v := eval vm_compute in (2 <? k)%Z in
               change (2 <? k)%Z with v
           end;
    cbn [andb];
    destruct (is_leap y);
    (split; [lia |]);
    (split; [intros; lia |]);
    (split; [season_cases; tauto |]);
    (split; [intros; season_cases |]);
    (split; [intros; season_cases |]);
    (split; [intros Hm3 Hd20; try discriminate Hm3; subst d; reflexivity |]);
    (split; [intros Hm12 Hd21; try discriminate Hm12; subst d; reflexivity |]);
    (split; [exact Hdec | reflexivity]).
Qed.

Lemma season_info_of_a_valid_date_witness :
  northern_hemisphere (get_season_info (utc 2024 3 20 12 0 0))
  = (if is_leap 2024 then "Spring"%string else "Winter"%string)
  /\ (1 <= si_day_of_year (get_season_info (utc 2024 3 20 12 0 0))
      <= (if is_leap 2024 then 366 else 365))%Z.
Proof.
  destruct (season_info_of_a_valid_date (utc 2024 3 20 12 0 0))
    as (Hdoy & _ & _ & _ & _ & Hmarch & _); [reflexivity |].
  split; [now apply Hmarch | exact Hdoy].
Defined.

(** ** [decimal_hour_to_datetime] inside the day *)

(** A decimal hour in [0, 24) is turned into a time of the base date: the
    hour, minute and second are in range and give the decimal hour cut
    down to the second. The cut is stated up to a thousandth of a second on
    either side, because the double minute and second parts of the program
    can fall on the other side of a whole number (0.3833333333333333 gives
    00:23:00 for a decimal hour a hair below 00:23:00). *)
Theorem decimal_hour_inside_the_day (decimal_hour : R) (base_date : datetime) :
  0 <= decimal_hour < 24 ->
  exists t : datetime,
    decimal_hour_to_datetime decimal_hour base_date = Ok t
    /\ year t = year base_date /\ month t = month base_date
    /\ day t = day base_date
    /\ (0 <= hour t < 24)%Z /\ (0 <= minute t < 60)%Z
    /\ (0 <= second t < 60)%Z /\ microsecond t = 0%Z
    /\ - (1 / 1000)
       < decimal_hour * 3600
         - (IZR (hour t) * 3600 + IZR (minute t) * 60 + IZR (second t))
       < 1 + 1 / 1000.
Proof.
  intros Hh. unfold decimal_hour_to_datetime. cbv zeta.
  destruct (trunc_nonneg_bounds decimal_hour) as [[Hh1 Hh2] Hh0]; [lra |].
  set (hours := trunc decimal_hour) in *.
  assert (Hh24 : (hours < 24)%Z) by (apply lt_IZR; lra).
  set (x := (decimal_hour - IZR hours) * 60).
  assert (Hx : 0 <= x < 60) by (unfold x; lra).
  destruct (trunc_nonneg_bounds x) as [[Hm1 Hm2] Hm0]; [lra |].
  set (minutes := trunc x) in *.
  assert (Hm60 : (minutes < 60)%Z) by (apply lt_IZR; lra).
  set (sx := (x - IZR minutes) * 60).
  assert (Hsx : 0 <= sx < 60) by (unfold sx; lra).
  destruct (trunc_nonneg_bounds sx) as [[Hs1 Hs2] Hs0]; [lra |].
  set (seconds := trunc sx) in *.
  assert (Hs60 : (seconds < 60)%Z) by (apply lt_IZR; lra).
  replace ((hours >=? 24)%Z) with false
    by (symmetry; rewrite Z.geb_leb; apply Z.leb_gt; lia).
  replace ((hours <? 0)%Z) with false by (symmetry; apply Z.ltb_ge; lia).
  rewrite replace_time_ok by lia.
  eexists. split; [reflexivity |]. cbn.
  repeat (split; [reflexivity || lia |]).
  unfold sx, x in *. split; lra.
Qed.

Lemma decimal_hour_inside_the_day_witness :
  exists t : datetime,
    decimal_hour_to_datetime 6.5 (utc 2024 6 21 0 0 0) = Ok t
    /\ year t = 2024%Z /\ month t = 6%Z /\ day t = 21%Z
    /\ (0 <= hour t < 24)%Z /\ (0 <= minute t < 60)%Z
    /\ (0 <= second t < 60)%Z /\ microsecond t = 0%Z
    /\ - (1 / 1000)
       < 6.5 * 3600
         - (IZR (hour t) * 3600 + IZR (minute t) * 60 + IZR (second t))
       < 1 + 1 / 1000.
Proof.
  apply (decimal_hour_inside_the_day 6.5 (utc 2024 6 21 0 0 0)). lra.
Defined.

(** ** [calculate_sunrise_sunset]: the hours of daylight *)

(** Whatever the inputs, a result that reports hours of daylight reports
    between 0 and 24 of them, together with a sunrise, a sunset and both
    polar flags false; a result without hours of daylight has no sunrise
    and no sunset. *)
Theorem daylight_hours_between_0_and_24
    (latitude longitude : R) (date : datetime) :
  (forall hours : R,
      daylight_hours (calculate_sunrise_sunset latitude longitude date)
      = Some hours ->
      0 <= hours <= 24
      /\ is_Some (sunrise (calculate_sunrise_sunset latitude longitude date))
      /\ is_Some (sunset (calculate_sunrise_sunset latitude longitude date))
      /\ polar_day (calculate_sunrise_sunset latitude longitude date) = false
      /\ polar_night (calculate_sunrise_sunset latitude longitude date)
         = false)
  /\ (daylight_hours (calculate_sunrise_sunset latitude longitude date) = None ->
      sunrise (calculate_sunrise_sunset latitude longitude date) = None
      /\ sunset (calculate_sunrise_sunset latitude longitude date) = None).
Proof.
  unfold calculate_sunrise_sunset, sunrise_sunset_try.
  destruct (cos_hour_angle_of latitude date) as [c | e]; cbn [bind];
    [| split; [discriminate | split; reflexivity]].
  destruct (Rlt_dec 1 (Rabs c)) as [Hout | Hin].
  { destruct (Rlt_dec c (-1)); cbn; split; try discriminate; split; reflexivity. }
  assert (Hc : -1 <= c <= 1).
  { apply Rabs_le_bounds. lra. }
  unfold macos. rewrite in_unit_true by exact Hc. cbn [bind].
  rewrite replace_midnight. cbn [bind].
  set (H := degrees (acos c)).
  assert (HH : 0 <= H <= 180).
  { unfold H. pose proof (acos_bound c) as [H1 H2].
    pose proof (degrees_le _ _ H1) as H3. pose proof (degrees_le _ _ H2) as H4.
    unfold degrees in *. pose proof PI_RGT_0.
    replace (0 * 180 / PI) with 0 in H3 by (field; lra).
    replace (PI * 180 / PI) with 180 in H4 by (field; lra). lra. }
  destruct (decimal_hour_to_datetime (12 - longitude / 15 - H / 15) _)
    as [rise | e]; cbn [bind];
    [| split; [discriminate | split; reflexivity]].
  destruct (decimal_hour_to_datetime (12 - longitude / 15 + H / 15) _)
    as [set | e]; cbn [bind];
    [| split; [discriminate | split; reflexivity]].
  cbn. split; [| discriminate].
  intros hours [= <-]. split.
  - split; [apply (round2_ge _ 0) | apply (round2_le _ 24)]; lra.
  - repeat split; eauto.
Qed.

End TimeServiceLaws.

(** * The astronomy engine and its cache *)

Module CachedTimeServiceFacts.
Import Py PyFacts TimeService TimeServiceFacts.
Import CacheManager CacheManagerFacts CachedTimeService.

Lemma sun_position_try_julian_day (err latitude longitude : R)
    (dt : datetime) (r : sun_position) :
  sun_position_try err latitude longitude dt = Ok r ->
  sp_julian_day r = calculate_julian_day dt.
Proof.
  unfold sun_position_try. cbv zeta.
  destruct (masin _) as [elevation_rad | e]; cbn [bind]; [| discriminate].
  destruct (Rlt_dec 0 _);
    [destruct (Rlt_dec _ 85);
     [destruct (fdiv _ _); cbn [bind]; [| discriminate] |] |];
    cbn [bind]; intros [= <-]; reflexivity.
Qed.

(** Two instants of the same minute have different Julian days when their
    seconds differ. *)
Lemma julian_day_differs_within_a_minute (dt1 dt2 : datetime) :
  to_minute dt2 = to_minute dt1 ->
  second dt1 <> second dt2 ->
  calculate_julian_day dt1 <> calculate_julian_day dt2.
Proof.
  destruct dt1 as [y1 m1 d1 h1 mi1 s1 u1], dt2 as [y2 m2 d2 h2 mi2 s2 u2].
  unfold to_minute. cbn [year month day hour minute second microsecond].
  intros [= -> -> -> -> ->] Hs Heq. apply Hs.
  unfold calculate_julian_day in Heq.
  cbn [year month day hour minute second] in Heq.
  apply eq_IZR. lra.
Qed.

(** A miss of [get] when the store has no entry for the key. *)
Lemma get_absent {arg V : Type} `{KeyCodec arg} (self : t V) (now : Q)
    (cache_type : string) (args : list arg) (kwargs : list (string * arg)) :
  cache self !! _generate_key cache_type args kwargs = None ->
  get self now cache_type args kwargs
  = Ok (None, with_stats self (incr_misses (stats self))).
Proof. intros Hnone. unfold get. cbv zeta. now rewrite Hnone. Qed.

(** A hit of [get] on an entry that [set] has just written. *)
Lemma get_after_set {arg V : Type} `{KeyCodec arg} (self : t V)
    (t0 now dflt : Q) (cache_type : string) (value : V) (args : list arg)
    (kwargs : list (string * arg)) :
  ttl_config self !! "default"%string = Some dflt ->
  (now - t0 <= default dflt (ttl_config self !! cache_type))%Q ->
  get (set self t0 cache_type value args kwargs) now cache_type args kwargs
  = Ok (Some value,
        with_stats (set self t0 cache_type value args kwargs)
          (incr_hits (stats (set self t0 cache_type value args kwargs)))).
Proof.
  intros Hd Hfresh.
  assert (Hd' : ttl_config (set self t0 cache_type value args kwargs)
                  !! "default"%string = Some dflt) by exact Hd.
  rewrite (get_cases _ now dflt cache_type args kwargs Hd'), set_lookup.
  change (ttl_config (set self t0 cache_type value args kwargs))
    with (ttl_config self).
  destruct (Qlt_le_dec _ _) as [Hold | _]; [| reflexivity].
  exfalso. exact (Qlt_not_le _ _ Hold Hfresh).
Qed.

(** The sun position is cached by the minute. When the store has no entry
    for the minute of [dt1] and the [try] block completes, the call returns
    the dictionary computed for [dt1] and stores it; a later call for any
    instant [dt2] of the same minute, made while the entry is not older
    than the TTL, is answered from the cache with the dictionary of [dt1]
    and counts one hit. Its Julian day is the one of [dt1], which is not
    the Julian day of [dt2] when the seconds differ. When the [try] block
    raises, the call returns the dictionary of the [except] branch and
    stores nothing: only the miss is counted. The [try] block completes
    when the sum handed to [math.asin] is inside [[-1, 1]]. *)
Theorem sun_position_is_cached_by_the_minute `{KeyCodec key_arg}
    (self : t cached) (clock1 clock_set clock2 clock_set2 dflt : Q)
    (err1 err2 latitude longitude : R) (dt1 dt2 : datetime) :
  ttl_config self !! "default"%string = Some dflt ->
  cache self !! _generate_key "sun_position"
                  [KFloat latitude; KFloat longitude; KTime (to_minute dt1)] []
  = None ->
  to_minute dt2 = to_minute dt1 ->
  (clock2 - clock_set
   <= default dflt (ttl_config self !! "sun_position"%string))%Q ->
  (forall r1 : sun_position,
      sun_position_try err1 latitude longitude dt1 = Ok r1 ->
      exists self1 self2 : t cached,
        calculate_sun_position self clock1 clock_set err1 latitude longitude dt1
        = Ok (CSun r1, self1)
        /\ sp_julian_day r1 = calculate_julian_day dt1
        /\ calculate_sun_position self1 clock2 clock_set2 err2
             latitude longitude dt2
           = Ok (CSun r1, self2)
        /\ hits (stats self2) = (hits (stats self1) + 1)%Z
        /\ sets (stats self2) = sets (stats self1)
        /\ cache self2 = cache self1
        /\ (second dt1 <> second dt2 ->
            sp_julian_day r1 <> calculate_julian_day dt2))
  /\ (forall e : exn,
        sun_position_try err1 latitude longitude dt1 = Raise e ->
        calculate_sun_position self clock1 clock_set err1 latitude longitude dt1
        = Ok (CSun sun_position_fallback,
              with_stats self (incr_misses (stats self))))
  /\ ((-1 <= elevation_sine latitude longitude dt1 + err1 <= 1)%R ->
      exists r1 : sun_position,
        sun_position_try err1 latitude longitude dt1 = Ok r1).
Proof.
  intros Hd Hnone Hminute Hfresh. split; [| split].
  - intros r1 Htry.
    pose proof (sun_position_try_julian_day _ _ _ _ _ Htry) as Hjd.
    unfold calculate_sun_position. cbv zeta.
    rewrite (get_absent self clock1 _ _ _ Hnone). cbn [bind fst snd].
    rewrite Htry, Hminute.
    eexists. eexists. split; [reflexivity |]. split; [exact Hjd |].
    rewrite (get_after_set (with_stats self (incr_misses (stats self)))
               clock_set clock2 dflt "sun_position" (CSun r1) _ [] Hd Hfresh).
    cbn [bind fst snd]. split; [reflexivity |].
    split; [reflexivity |]. split; [reflexivity |]. split; [reflexivity |].
    intros Hs. rewrite Hjd. now apply julian_day_differs_within_a_minute.
  - intros e Htry. unfold calculate_sun_position. cbv zeta.
    rewrite (get_absent self clock1 _ _ _ Hnone). cbn [bind fst snd].
    now rewrite Htry.
  - apply sun_position_try_completes.
Qed.

Lemma sun_position_is_cached_by_the_minute_witness :
  (forall r1 : sun_position,
      sun_position_try 0 35 139 (utc 2024 6 21 10 30 15) = Ok r1 ->
      exists self1 self2 : t cached,
        calculate_sun_position
          (H := Build_KeyCodec key_arg (fun _ _ => EmptyString) (fun _ => 0%N))
          (init 60 3600) 0 0 0 35 139 (utc 2024 6 21 10 30 15)
        = Ok (CSun r1, self1)
        /\ sp_julian_day r1 = calculate_julian_day (utc 2024 6 21 10 30 15)
        /\ calculate_sun_position
             (H := Build_KeyCodec key_arg (fun _ _ => EmptyString)
                     (fun _ => 0%N))
             self1 30 30 0 35 139 (utc 2024 6 21 10 30 45)
           = Ok (CSun r1, self2)
        /\ hits (stats self2) = (hits (stats self1) + 1)%Z
        /\ sets (stats self2) = sets (stats self1)
        /\ cache self2 = cache self1
        /\ (second (utc 2024 6 21 10 30 15) <> second (utc 2024 6 21 10 30 45) ->
            sp_julian_day r1 <> calculate_julian_day (utc 2024 6 21 10 30 45)))
  /\ (forall e : exn,
        sun_position_try 0 35 139 (utc 2024 6 21 10 30 15) = Raise e ->
        calculate_sun_position
          (H := Build_KeyCodec key_arg (fun _ _ => EmptyString) (fun _ => 0%N))
          (init 60 3600) 0 0 0 35 139 (utc 2024 6 21 10 30 15)
        = Ok (CSun sun_position_fallback,
              with_stats (init 60 3600)
                (incr_misses (stats (init 60 3600 : t cached)))))
  /\ ((-1 <= elevation_sine 35 139 (utc 2024 6 21 10 30 15) + 0 <= 1)%R ->
      exists r1 : sun_position,
        sun_position_try 0 35 139 (utc 2024 6 21 10 30 15) = Ok r1).
Proof.
  apply (sun_position_is_cached_by_the_minute
           (H := Build_KeyCodec key_arg (fun _ _ => EmptyString) (fun _ => 0%N))
           (init 60 3600) 0 0 30 30 300 0 0 35 139
           (utc 2024 6 21 10 30 15) (utc 2024 6 21 10 30 45)).
  - reflexivity.
  - apply lookup_empty.
  - reflexivity.
  - vm_compute. discriminate.
Defined.

(** The loop of [calculate_day_night_boundary] never raises: it yields as
    many points as asked for, none for a count of zero or less. *)
Lemma boundary_loop_total (jd : R) (num_points : Z) :
  exists coords : list (R * R),
    boundary_loop (radians (calculate_solar_declination jd)) jd num_points
      (range num_points) = Ok coords
    /\ length coords = Z.to_nat num_points.
Proof.
  destruct (Z.eq_dec num_points 0%Z) as [-> | Hne].
  - exists []. split; reflexivity.
  - destruct (boundary_loop_ok (radians (calculate_solar_declination jd)) jd
                num_points (Z.to_nat num_points) 0%nat)
      as (coords & Hloop & Hlen & _).
    + rewrite degrees_radians. apply declination_range.
    + exact Hne.
    + exists coords. split; [exact Hloop | exact Hlen].
Qed.

Lemma to_ten_minutes_ok (dt : datetime) :
  (0 <= minute dt < 60)%Z ->
  to_ten_minutes dt
  = Ok {| year := year dt; month := month dt; day := day dt;
          hour := hour dt; minute := (minute dt / 10 * 10)%Z;
          second := 0; microsecond := 0 |}.
Proof.
  intros Hm. unfold to_ten_minutes. cbv zeta.
  assert (H1 : (0 <= minute dt / 10 * 10)%Z)
    by (apply Z.mul_nonneg_nonneg; [apply Z.div_pos |]; lia).
  assert (H2 : (minute dt / 10 * 10 <= minute dt)%Z).
  { rewrite Z.mul_comm. apply Z.mul_div_le. lia. }
  replace ((0 <=? minute dt / 10 * 10)%Z) with true
    by (symmetry; apply Z.leb_le; lia).
  replace ((minute dt / 10 * 10 <? 60)%Z) with true
    by (symmetry; apply Z.ltb_lt; lia).
  reflexivity.
Qed.

(** The terminator is cached by blocks of ten minutes and by the number of
    points. When the store has no entry for the block of [dt1], the call
    computes the boundary of [dt1], with as many points as asked for, and
    stores it; a later call for any instant [dt2] of the same block and the
    same number of points, made while the entry is not older than the TTL,
    is answered from the cache with the boundary calculated at [dt1] and
    counts one hit. *)
Theorem day_night_boundary_is_cached_by_ten_minutes `{KeyCodec key_arg}
    (self : t cached) (clock1 clock_set clock2 clock_set2 dflt : Q)
    (dt1 dt2 : datetime) (num_points : Z) :
  ttl_config self !! "default"%string = Some dflt ->
  (0 <= minute dt1 < 60)%Z ->
  (0 <= minute dt2 < 60)%Z ->
  year dt2 = year dt1 -> month dt2 = month dt1 -> day dt2 = day dt1 ->
  hour dt2 = hour dt1 ->
  (minute dt2 / 10 = minute dt1 / 10)%Z ->
  (forall bucket : datetime,
      to_ten_minutes dt1 = Ok bucket ->
      cache self !! _generate_key "day_night_boundary"
                      [KTime bucket; KInt num_points] [] = None) ->
  (clock2 - clock_set
   <= default dflt (ttl_config self !! "day_night_boundary"%string))%Q ->
  exists (coords : list (R * R)) (self1 self2 : t cached),
    calculate_day_night_boundary self clock1 clock_set dt1 num_points
    = Ok (CBoundary {| coordinates := coords; calculated_at := dt1 |}, self1)
    /\ length coords = Z.to_nat num_points
    /\ calculate_day_night_boundary self1 clock2 clock_set2 dt2 num_points
       = Ok (CBoundary {| coordinates := coords; calculated_at := dt1 |},
             self2)
    /\ hits (stats self2) = (hits (stats self1) + 1)%Z
    /\ sets (stats self2) = sets (stats self1)
    /\ cache self2 = cache self1.
Proof.
  intros Hd Hm1 Hm2 Hy Hmo Hday Hh Hbucket Hnone Hfresh.
  pose proof (to_ten_minutes_ok dt1 Hm1) as Hb1.
  pose proof (to_ten_minutes_ok dt2 Hm2) as Hb2.
  rewrite Hy, Hmo, Hday, Hh, Hbucket in Hb2.
  specialize (Hnone _ Hb1).
  destruct (boundary_loop_total (calculate_julian_day dt1) num_points)
    as (coords & Hloop & Hlen).
  unfold calculate_day_night_boundary. cbv zeta.
  rewrite Hb1, Hb2. cbn [bind].
  rewrite (get_absent self clock1 _ _ _ Hnone). cbn [bind fst snd].
  rewrite Hloop.
  eexists. eexists. eexists. split; [reflexivity |].
  split; [exact Hlen |].
  rewrite (get_after_set (with_stats self (incr_misses (stats self)))
             clock_set clock2 dflt "day_night_boundary"
             (CBoundary {| coordinates := coords; calculated_at := dt1 |})
             _ [] Hd Hfresh).
  cbn [bind fst snd]. repeat split; reflexivity.
Qed.

Lemma day_night_boundary_is_cached_by_ten_minutes_witness :
  exists (coords : list (R * R)) (self1 self2 : t cached),
    calculate_day_night_boundary
      (H := Build_KeyCodec key_arg (fun _ _ => EmptyString) (fun _ => 0%N))
      (init 60 3600) 0 0 (utc 2024 6 21 10 31 15) 360
    = Ok (CBoundary {| coordinates := coords;
                       calculated_at := utc 2024 6 21 10 31 15 |}, self1)
    /\ length coords = Z.to_nat 360
    /\ calculate_day_night_boundary
         (H := Build_KeyCodec key_arg (fun _ _ => EmptyString) (fun _ => 0%N))
         self1 200 200 (utc 2024 6 21 10 38 45) 360
       = Ok (CBoundary {| coordinates := coords;
                          calculated_at := utc 2024 6 21 10 31 15 |}, self2)
    /\ hits (stats self2) = (hits (stats self1) + 1)%Z
    /\ sets (stats self2) = sets (stats self1)
    /\ cache self2 = cache self1.
Proof.
  apply (day_night_boundary_is_cached_by_ten_minutes
           (H := Build_KeyCodec key_arg (fun _ _ => EmptyString) (fun _ => 0%N))
           (init 60 3600) 0 0 200 200 300
           (utc 2024 6 21 10 31 15) (utc 2024 6 21 10 38 45) 360).
  - reflexivity.
  - cbn. lia.
  - cbn. lia.
  - reflexivity.
  - reflexivity.
  - reflexivity.
  - reflexivity.
  - reflexivity.
  - intros bucket _. apply lookup_empty.
  - vm_compute. discriminate.
Defined.

End CachedTimeServiceFacts.
